(** * Flappy Wind: the simulation core of [src/App.tsx]

    A shallow embedding of the game component [App] and the properties of its
    per-frame update, its gust/energy economy and its obstacle pipeline.

    Conventions of the embedding.
    - A JavaScript [number] is a real number ([R]); arithmetic is exact, so
      rounding of IEEE doubles is not part of the model.  Counters that only
      ever hold integers ([score], [bestScore]) are [Z].  Where rounding
      decides a statement, the part Rounding has the code on binary64
      numbers and with a rounding after every operation.
    - A [useState] cell is the field of the same name and holds the value the
      next render will see: [setX v] and [setX (prev => f prev)] act on it
      at once.  The component's closures never read such a cell directly;
      they read the mirror [xRef], which the [useEffect] hooks copy from the
      state when React commits a render ([commit] below).  The one state
      variable read through a closure, [isDrawing], has its rendered value in
      [isDrawingSeen].
    - Objects held by refs ([birdRef], [pipesRef], ...) are mutated in place
      by the code; no two refs share an object, so each is a field that is
      replaced.
    - [Math.random ()] reads [randomSource] at [randomCount] and advances the
      counter.
    - [playSound] is recorded in [audio], newest call first.
    - Drawing ([render]) only reads the state and is not modelled; neither
      are the fade-in of the game-over card and the storage of the best
      score.  The canvas size is fixed for a session, and pointer positions
      are given in canvas coordinates. *)

From Stdlib Require Import Floats.
From Stdlib Require Import Reals Lra Lia ZArith Bool List String.
Import ListNotations.

Open Scope R_scope.

(** ** Data model (the interfaces at the top of [App.tsx]) *)

Module Vec.
Record t := mk { x : R; y : R }.
End Vec.

Module Bird.
Record t := mk {
  x : R; y : R; radius : R; color : string; vy : R; vx : R; rotation : R
}.
Definition pos (b : t) : Vec.t := Vec.mk (x b) (y b).
Definition with_x (v : R) (b : t) : t :=
  let '(mk _ y radius color vy vx rotation) := b in
  mk v y radius color vy vx rotation.
Definition with_y (v : R) (b : t) : t :=
  let '(mk x _ radius color vy vx rotation) := b in
  mk x v radius color vy vx rotation.
Definition with_vy (v : R) (b : t) : t :=
  let '(mk x y radius color _ vx rotation) := b in
  mk x y radius color v vx rotation.
Definition with_vx (v : R) (b : t) : t :=
  let '(mk x y radius color vy _ rotation) := b in
  mk x y radius color vy v rotation.
Definition with_rotation (v : R) (b : t) : t :=
  let '(mk x y radius color vy vx _) := b in
  mk x y radius color vy vx v.
End Bird.

Module Pipe.
Record t := mk {
  x : R; topHeight : R; bottomY : R; width : R; gap : R;
  passed : bool; pipeColor : string; animationOffset : R
}.
End Pipe.

Module Gust.
Record t := mk {
  x : R; y : R; direction : Vec.t; magnitude : R; radius : R;
  life : R; maxLife : R
}.
Definition pos (g : t) : Vec.t := Vec.mk (x g) (y g).
End Gust.

Module Particle.
Record t := mk {
  x : R; y : R; vx : R; vy : R; life : R; maxLife : R;
  color : string; size : R
}.
End Particle.

Module Cloud.
Record t := mk { x : R; y : R; size : R; speed : R; opacity : R }.
End Cloud.

Module Shake.
Record t := mk { x : R; y : R; intensity : R }.
End Shake.

Inductive OscillatorType := sine | square | sawtooth | triangle.

Module Sound.
Record t := mk { frequency : R; duration : R; type : OscillatorType }.
End Sound.

(** Comparisons of numbers as the booleans the code branches on. *)
Definition Rltb (a b : R) : bool := if Rlt_dec a b then true else false.
Definition Rleb (a b : R) : bool := if Rle_dec a b then true else false.
Definition Rgtb (a b : R) : bool := Rltb b a.
(** Truthiness of a number: [0] is falsy. *)
Definition truthy (a : R) : bool := if Req_dec_T a 0 then false else true.

Infix "<?" := Rltb (at level 70, no associativity) : R_scope.
Infix "<=?" := Rleb (at level 70, no associativity) : R_scope.
Infix ">?" := Rgtb (at level 70, no associativity) : R_scope.

(** ** The component's state *)

Record World := mkWorld {
  isGameRunning : bool;
  gameOver : bool;
  score : Z;
  bestScore : Z;
  windEnergy : R;
  isDrawing : bool;
  isGameRunningRef : bool;
  gameOverRef : bool;
  scoreRef : Z;
  bestScoreRef : Z;
  windEnergyRef : R;
  isDrawingSeen : bool;
  lastTimeRef : R;
  gameTimeRef : R;
  drawStartRef : option Vec.t;
  drawCurrentRef : option Vec.t;
  shakeRef : Shake.t;
  cloudsRef : list Cloud.t;
  birdRef : Bird.t;
  pipesRef : list Pipe.t;
  gustsRef : list Gust.t;
  particlesRef : list Particle.t;
  nextPipeTimeRef : R;
  randomSource : nat -> R;
  randomCount : nat;
  audio : list Sound.t
}.

(** Assignments to one cell. *)
Definition set_isGameRunning (v : bool) (w : World) : World :=
  let '(mkWorld _ f2 f3 f4 f5 f6 f7 f8 f9 f10 f11 f12 f13 f14 f15 f16 f17
      f18 f19 f20 f21 f22 f23 f24 f25 f26) := w in
  mkWorld v f2 f3 f4 f5 f6 f7 f8 f9 f10 f11 f12 f13 f14 f15 f16 f17 f18 f19
    f20 f21 f22 f23 f24 f25 f26.

Definition set_gameOver (v : bool) (w : World) : World :=
  let '(mkWorld f1 _ f3 f4 f5 f6 f7 f8 f9 f10 f11 f12 f13 f14 f15 f16 f17
      f18 f19 f20 f21 f22 f23 f24 f25 f26) := w in
  mkWorld f1 v f3 f4 f5 f6 f7 f8 f9 f10 f11 f12 f13 f14 f15 f16 f17 f18 f19
    f20 f21 f22 f23 f24 f25 f26.

Definition set_score (v : Z) (w : World) : World :=
  let '(mkWorld f1 f2 _ f4 f5 f6 f7 f8 f9 f10 f11 f12 f13 f14 f15 f16 f17
      f18 f19 f20 f21 f22 f23 f24 f25 f26) := w in
  mkWorld f1 f2 v f4 f5 f6 f7 f8 f9 f10 f11 f12 f13 f14 f15 f16 f17 f18 f19
    f20 f21 f22 f23 f24 f25 f26.

Definition set_bestScore (v : Z) (w : World) : World :=
  let '(mkWorld f1 f2 f3 _ f5 f6 f7 f8 f9 f10 f11 f12 f13 f14 f15 f16 f17
      f18 f19 f20 f21 f22 f23 f24 f25 f26) := w in
  mkWorld f1 f2 f3 v f5 f6 f7 f8 f9 f10 f11 f12 f13 f14 f15 f16 f17 f18 f19
    f20 f21 f22 f23 f24 f25 f26.

Definition set_windEnergy (v : R) (w : World) : World :=
  let '(mkWorld f1 f2 f3 f4 _ f6 f7 f8 f9 f10 f11 f12 f13 f14 f15 f16 f17
      f18 f19 f20 f21 f22 f23 f24 f25 f26) := w in
  mkWorld f1 f2 f3 f4 v f6 f7 f8 f9 f10 f11 f12 f13 f14 f15 f16 f17 f18 f19
    f20 f21 f22 f23 f24 f25 f26.

Definition set_isDrawing (v : bool) (w : World) : World :=
  let '(mkWorld f1 f2 f3 f4 f5 _ f7 f8 f9 f10 f11 f12 f13 f14 f15 f16 f17
      f18 f19 f20 f21 f22 f23 f24 f25 f26) := w in
  mkWorld f1 f2 f3 f4 f5 v f7 f8 f9 f10 f11 f12 f13 f14 f15 f16 f17 f18 f19
    f20 f21 f22 f23 f24 f25 f26.

Definition set_isGameRunningRef (v : bool) (w : World) : World :=
  let '(mkWorld f1 f2 f3 f4 f5 f6 _ f8 f9 f10 f11 f12 f13 f14 f15 f16 f17
      f18 f19 f20 f21 f22 f23 f24 f25 f26) := w in
  mkWorld f1 f2 f3 f4 f5 f6 v f8 f9 f10 f11 f12 f13 f14 f15 f16 f17 f18 f19
    f20 f21 f22 f23 f24 f25 f26.

Definition set_gameOverRef (v : bool) (w : World) : World :=
  let '(mkWorld f1 f2 f3 f4 f5 f6 f7 _ f9 f10 f11 f12 f13 f14 f15 f16 f17
      f18 f19 f20 f21 f22 f23 f24 f25 f26) := w in
  mkWorld f1 f2 f3 f4 f5 f6 f7 v f9 f10 f11 f12 f13 f14 f15 f16 f17 f18 f19
    f20 f21 f22 f23 f24 f25 f26.

Definition set_scoreRef (v : Z) (w : World) : World :=
  let '(mkWorld f1 f2 f3 f4 f5 f6 f7 f8 _ f10 f11 f12 f13 f14 f15 f16 f17
      f18 f19 f20 f21 f22 f23 f24 f25 f26) := w in
  mkWorld f1 f2 f3 f4 f5 f6 f7 f8 v f10 f11 f12 f13 f14 f15 f16 f17 f18 f19
    f20 f21 f22 f23 f24 f25 f26.

Definition set_bestScoreRef (v : Z) (w : World) : World :=
  let '(mkWorld f1 f2 f3 f4 f5 f6 f7 f8 f9 _ f11 f12 f13 f14 f15 f16 f17 f18
      f19 f20 f21 f22 f23 f24 f25 f26) := w in
  mkWorld f1 f2 f3 f4 f5 f6 f7 f8 f9 v f11 f12 f13 f14 f15 f16 f17 f18 f19
    f20 f21 f22 f23 f24 f25 f26.

Definition set_windEnergyRef (v : R) (w : World) : World :=
  let '(mkWorld f1 f2 f3 f4 f5 f6 f7 f8 f9 f10 _ f12 f13 f14 f15 f16 f17 f18
      f19 f20 f21 f22 f23 f24 f25 f26) := w in
  mkWorld f1 f2 f3 f4 f5 f6 f7 f8 f9 f10 v f12 f13 f14 f15 f16 f17 f18 f19
    f20 f21 f22 f23 f24 f25 f26.

Definition set_isDrawingSeen (v : bool) (w : World) : World :=
  let '(mkWorld f1 f2 f3 f4 f5 f6 f7 f8 f9 f10 f11 _ f13 f14 f15 f16 f17 f18
      f19 f20 f21 f22 f23 f24 f25 f26) := w in
  mkWorld f1 f2 f3 f4 f5 f6 f7 f8 f9 f10 f11 v f13 f14 f15 f16 f17 f18 f19
    f20 f21 f22 f23 f24 f25 f26.

Definition set_lastTimeRef (v : R) (w : World) : World :=
  let '(mkWorld f1 f2 f3 f4 f5 f6 f7 f8 f9 f10 f11 f12 _ f14 f15 f16 f17 f18
      f19 f20 f21 f22 f23 f24 f25 f26) := w in
  mkWorld f1 f2 f3 f4 f5 f6 f7 f8 f9 f10 f11 f12 v f14 f15 f16 f17 f18 f19
    f20 f21 f22 f23 f24 f25 f26.

Definition set_gameTimeRef (v : R) (w : World) : World :=
  let '(mkWorld f1 f2 f3 f4 f5 f6 f7 f8 f9 f10 f11 f12 f13 _ f15 f16 f17 f18
      f19 f20 f21 f22 f23 f24 f25 f26) := w in
  mkWorld f1 f2 f3 f4 f5 f6 f7 f8 f9 f10 f11 f12 f13 v f15 f16 f17 f18 f19
    f20 f21 f22 f23 f24 f25 f26.

Definition set_drawStartRef (v : option Vec.t) (w : World) : World :=
  let '(mkWorld f1 f2 f3 f4 f5 f6 f7 f8 f9 f10 f11 f12 f13 f14 _ f16 f17 f18
      f19 f20 f21 f22 f23 f24 f25 f26) := w in
  mkWorld f1 f2 f3 f4 f5 f6 f7 f8 f9 f10 f11 f12 f13 f14 v f16 f17 f18 f19
    f20 f21 f22 f23 f24 f25 f26.

Definition set_drawCurrentRef (v : option Vec.t) (w : World) : World :=
  let '(mkWorld f1 f2 f3 f4 f5 f6 f7 f8 f9 f10 f11 f12 f13 f14 f15 _ f17 f18
      f19 f20 f21 f22 f23 f24 f25 f26) := w in
  mkWorld f1 f2 f3 f4 f5 f6 f7 f8 f9 f10 f11 f12 f13 f14 f15 v f17 f18 f19
    f20 f21 f22 f23 f24 f25 f26.

Definition set_shakeRef (v : Shake.t) (w : World) : World :=
  let '(mkWorld f1 f2 f3 f4 f5 f6 f7 f8 f9 f10 f11 f12 f13 f14 f15 f16 _ f18
      f19 f20 f21 f22 f23 f24 f25 f26) := w in
  mkWorld f1 f2 f3 f4 f5 f6 f7 f8 f9 f10 f11 f12 f13 f14 f15 f16 v f18 f19
    f20 f21 f22 f23 f24 f25 f26.

Definition set_cloudsRef (v : list Cloud.t) (w : World) : World :=
  let '(mkWorld f1 f2 f3 f4 f5 f6 f7 f8 f9 f10 f11 f12 f13 f14 f15 f16 f17 _
      f19 f20 f21 f22 f23 f24 f25 f26) := w in
  mkWorld f1 f2 f3 f4 f5 f6 f7 f8 f9 f10 f11 f12 f13 f14 f15 f16 f17 v f19
    f20 f21 f22 f23 f24 f25 f26.

Definition set_birdRef (v : Bird.t) (w : World) : World :=
  let '(mkWorld f1 f2 f3 f4 f5 f6 f7 f8 f9 f10 f11 f12 f13 f14 f15 f16 f17
      f18 _ f20 f21 f22 f23 f24 f25 f26) := w in
  mkWorld f1 f2 f3 f4 f5 f6 f7 f8 f9 f10 f11 f12 f13 f14 f15 f16 f17 f18 v
    f20 f21 f22 f23 f24 f25 f26.

Definition set_pipesRef (v : list Pipe.t) (w : World) : World :=
  let '(mkWorld f1 f2 f3 f4 f5 f6 f7 f8 f9 f10 f11 f12 f13 f14 f15 f16 f17
      f18 f19 _ f21 f22 f23 f24 f25 f26) := w in
  mkWorld f1 f2 f3 f4 f5 f6 f7 f8 f9 f10 f11 f12 f13 f14 f15 f16 f17 f18 f19
    v f21 f22 f23 f24 f25 f26.

Definition set_gustsRef (v : list Gust.t) (w : World) : World :=
  let '(mkWorld f1 f2 f3 f4 f5 f6 f7 f8 f9 f10 f11 f12 f13 f14 f15 f16 f17
      f18 f19 f20 _ f22 f23 f24 f25 f26) := w in
  mkWorld f1 f2 f3 f4 f5 f6 f7 f8 f9 f10 f11 f12 f13 f14 f15 f16 f17 f18 f19
    f20 v f22 f23 f24 f25 f26.

Definition set_particlesRef (v : list Particle.t) (w : World) : World :=
  let '(mkWorld f1 f2 f3 f4 f5 f6 f7 f8 f9 f10 f11 f12 f13 f14 f15 f16 f17
      f18 f19 f20 f21 _ f23 f24 f25 f26) := w in
  mkWorld f1 f2 f3 f4 f5 f6 f7 f8 f9 f10 f11 f12 f13 f14 f15 f16 f17 f18 f19
    f20 f21 v f23 f24 f25 f26.

Definition set_nextPipeTimeRef (v : R) (w : World) : World :=
  let '(mkWorld f1 f2 f3 f4 f5 f6 f7 f8 f9 f10 f11 f12 f13 f14 f15 f16 f17
      f18 f19 f20 f21 f22 _ f24 f25 f26) := w in
  mkWorld f1 f2 f3 f4 f5 f6 f7 f8 f9 f10 f11 f12 f13 f14 f15 f16 f17 f18 f19
    f20 f21 f22 v f24 f25 f26.

Definition set_randomSource (v : nat -> R) (w : World) : World :=
  let '(mkWorld f1 f2 f3 f4 f5 f6 f7 f8 f9 f10 f11 f12 f13 f14 f15 f16 f17
      f18 f19 f20 f21 f22 f23 _ f25 f26) := w in
  mkWorld f1 f2 f3 f4 f5 f6 f7 f8 f9 f10 f11 f12 f13 f14 f15 f16 f17 f18 f19
    f20 f21 f22 f23 v f25 f26.

Definition set_randomCount (v : nat) (w : World) : World :=
  let '(mkWorld f1 f2 f3 f4 f5 f6 f7 f8 f9 f10 f11 f12 f13 f14 f15 f16 f17
      f18 f19 f20 f21 f22 f23 f24 _ f26) := w in
  mkWorld f1 f2 f3 f4 f5 f6 f7 f8 f9 f10 f11 f12 f13 f14 f15 f16 f17 f18 f19
    f20 f21 f22 f23 f24 v f26.

Definition set_audio (v : list Sound.t) (w : World) : World :=
  let '(mkWorld f1 f2 f3 f4 f5 f6 f7 f8 f9 f10 f11 f12 f13 f14 f15 f16 f17
      f18 f19 f20 f21 f22 f23 f24 f25 _) := w in
  mkWorld f1 f2 f3 f4 f5 f6 f7 f8 f9 f10 f11 f12 f13 f14 f15 f16 f17 f18 f19
    f20 f21 f22 f23 f24 f25 v.

(** ** Constants *)

Definition GRAVITY : R := 800.
Definition FLAP_POWER : R := -300.
Definition MAX_WIND_ENERGY : R := 100.
Definition WIND_REGEN_RATE : R := 15.
Definition GUST_COST_PER_PIXEL : R := 0.5.
Definition GUST_BASE_POWER : R := 1200.
Definition GUST_LIFE : R := 1.2.
Definition PIPE_COLORS : list string :=
  ["#4CAF50"; "#45A049"; "#3E8E41"; "#66BB6A"]%string.

(** The constants that [App] derives from the canvas size. *)
Definition PIPE_WIDTH (CANVAS_WIDTH : R) : R := Rmax 40 (CANVAS_WIDTH * 0.075).
Definition PIPE_GAP (CANVAS_HEIGHT : R) : R := Rmax 120 (CANVAS_HEIGHT * 0.25).
Definition PIPE_SPEED (CANVAS_WIDTH : R) : R := Rmax 150 (CANVAS_WIDTH * 0.25).
Definition GUST_RADIUS (CANVAS_WIDTH : R) : R := Rmax 60 (CANVAS_WIDTH * 0.125).

(** ** Primitive effects *)

(** [Math.random ()]. *)
Definition Math_random (w : World) : R * World :=
  (randomSource w (randomCount w), set_randomCount (S (randomCount w)) w).

(** [playSound frequency duration type]: the request is logged. *)
Definition playSound (frequency duration : R) (type : OscillatorType)
    (w : World) : World :=
  set_audio (Sound.mk frequency duration type :: audio w) w.

(** One iteration of the loop of [createParticles]: five draws, in the order
    the object literal evaluates them, then the push. *)
Definition createParticle (x y : R) (color : string) (w : World) : World :=
  let '(r1, w) := Math_random w in
  let '(r2, w) := Math_random w in
  let '(r3, w) := Math_random w in
  let '(r4, w) := Math_random w in
  let '(r5, w) := Math_random w in
  set_particlesRef
    (particlesRef w ++
     [Particle.mk (x + (r1 - 0.5) * 20) (y + (r2 - 0.5) * 20)
        ((r3 - 0.5) * 200) ((r4 - 0.5) * 200) 0.5 0.5 color (r5 * 4 + 2)])
    w.

Fixpoint createParticles (x y : R) (count : nat) (color : string)
    (w : World) : World :=
  match count with
  | O => w
  | S n => createParticles x y n color (createParticle x y color w)
  end.

Definition addScreenShake (intensity : R) (w : World) : World :=
  let s := shakeRef w in
  set_shakeRef
    (Shake.mk (Shake.x s) (Shake.y s) (Rmax (Shake.intensity s) intensity)) w.

Definition updateScreenShake (deltaTime : R) (w : World) : World :=
  if Shake.intensity (shakeRef w) >? 0 then
    let '(r1, w) := Math_random w in
    let '(r2, w) := Math_random w in
    let i := Shake.intensity (shakeRef w) in
    let i' := i * Rpower 0.1 deltaTime in
    if i' <? 0.1 then set_shakeRef (Shake.mk 0 0 0) w
    else set_shakeRef (Shake.mk ((r1 - 0.5) * i) ((r2 - 0.5) * i) i') w
  else w.

(** ** Helper functions *)

Definition distance (p1 p2 : Vec.t) : R :=
  sqrt ((Vec.x p1 - Vec.x p2) ^ 2 + (Vec.y p1 - Vec.y p2) ^ 2).

(** [normalize vec], the arithmetic being exact; [normalizeF] and
    [normalize_rnd] below are the same code on binary64 numbers and with a
    rounding after every operation. *)
Definition normalize (vec : Vec.t) : Vec.t :=
  let len := sqrt (Vec.x vec * Vec.x vec + Vec.y vec * Vec.y vec) in
  if len >? 0 then Vec.mk (Vec.x vec / len) (Vec.y vec / len)
  else Vec.mk 0 0.

Definition checkCollision (bird : Bird.t) (pipe : Pipe.t) : bool :=
  let birdLeft := Bird.x bird - Bird.radius bird in
  let birdRight := Bird.x bird + Bird.radius bird in
  let birdTop := Bird.y bird - Bird.radius bird in
  let birdBottom := Bird.y bird + Bird.radius bird in
  let pipeLeft := Pipe.x pipe in
  let pipeRight := Pipe.x pipe + Pipe.width pipe in
  if (birdRight >? pipeLeft) && (birdLeft <? pipeRight) then
    if (birdTop <? Pipe.topHeight pipe) || (birdBottom >? Pipe.bottomY pipe)
    then true else false
  else false.

(** ** Entity factories *)

(** [createPipe x]; the three constants it closes over are its first
    arguments, as in its dependency list.  The arithmetic is exact;
    [createPipeF] and [createPipe_rnd] below are the same code on binary64
    numbers and with a rounding after every operation. *)
Definition createPipe (CANVAS_HEIGHT PIPE_GAP PIPE_WIDTH : R) (x : R)
    (w : World) : Pipe.t * World :=
  let minTopHeight := CANVAS_HEIGHT * 0.15 in
  let maxTopHeight := CANVAS_HEIGHT - PIPE_GAP - CANVAS_HEIGHT * 0.15 in
  let '(r1, w) := Math_random w in
  let topHeight := r1 * (maxTopHeight - minTopHeight) + minTopHeight in
  let '(r2, w) := Math_random w in
  let pipeColor :=
    nth (Z.to_nat (Zfloor (r2 * INR (List.length PIPE_COLORS)))) PIPE_COLORS
        "undefined"%string in
  (Pipe.mk x topHeight (topHeight + PIPE_GAP) PIPE_WIDTH PIPE_GAP false
     pipeColor 0, w).

(** [createGust start end]: [None] is the code's [null]. *)
Definition createGust (GUST_RADIUS : R) (start end_ : Vec.t) (w : World)
    : option Gust.t * World :=
  let strokeLength := distance start end_ in
  if strokeLength <? 20 then (None, w) else
  let cost := Rmin (strokeLength * GUST_COST_PER_PIXEL) (windEnergyRef w) in
  if cost <? 10 then (None, w) else
  let direction :=
    normalize (Vec.mk (Vec.x end_ - Vec.x start) (Vec.y end_ - Vec.y start)) in
  let magnitude := Rmin (strokeLength * 2) GUST_BASE_POWER in
  let w := set_windEnergy (Rmax 0 (windEnergy w - cost)) w in
  let '(r, w) := Math_random w in
  let w := playSound (200 + r * 100) 0.1 sine w in
  let w := createParticles (Vec.x start) (Vec.y start) 5
             "rgba(0, 200, 255, 0.8)" w in
  (Some (Gust.mk (Vec.x start) (Vec.y start) direction magnitude GUST_RADIUS
           GUST_LIFE GUST_LIFE), w).

(** ** Force model *)

Definition applyGustForce (bird : Bird.t) (gust : Gust.t) (deltaTime : R)
    : Bird.t :=
  let dist := distance (Bird.pos bird) (Gust.pos gust) in
  if dist <? Gust.radius gust then
    let influence := 1 - (dist / Gust.radius gust) ^ 2 in
    let force := Gust.magnitude gust * influence in
    Bird.with_vy
      (Bird.vy bird + Vec.y (Gust.direction gust) * force * deltaTime)
      (Bird.with_vx
         (Bird.vx bird + Vec.x (Gust.direction gust) * force * deltaTime)
         bird)
  else bird.

(** The four statements that both [updateBird] and [updatePipes] run when
    the run ends: [setGameOver(true)], the collision sound, the screen shake
    and the burst of ten red particles at [(x, y)]. *)
Definition endRun (x y : R) (w : World) : World :=
  let w := set_gameOver true w in
  let w := playSound 150 0.5 square w in
  let w := addScreenShake 15 w in
  createParticles x y 10 "#FF0000" w.

(** [array.forEach] with a callback that mutates the element it is given and
    the component's state. *)
Fixpoint forEach {A : Type} (f : A -> World -> A * World) (l : list A)
    (w : World) : list A * World :=
  match l with
  | [] => ([], w)
  | a :: l' =>
      let '(a', w) := f a w in
      let '(l'', w) := forEach f l' w in
      (a' :: l'', w)
  end.

(** ** The component, for a canvas of a given size *)

Section App.

Variables CANVAS_WIDTH CANVAS_HEIGHT : R.

Definition initialBird : Bird.t :=
  Bird.mk (CANVAS_WIDTH * 0.125) (CANVAS_HEIGHT * 0.5)
    (Rmax 15 (CANVAS_WIDTH * 0.025)) "#FFD700" 0 0 0.

(** The flap: [birdRef.current.vy = FLAP_POWER], its sound and its three
    particles, as written out in [handleCanvasClick] and [handleTouchEnd]. *)
Definition flap (w : World) : World :=
  let w := set_birdRef (Bird.with_vy FLAP_POWER (birdRef w)) w in
  let w := playSound 440 0.1 sine w in
  createParticles (Bird.x (birdRef w)) (Bird.y (birdRef w)) 3 "#FFD700" w.

(** *** Input handlers *)

Definition handleCanvasClick (w : World) : World :=
  if isDrawingSeen w then w else
  if gameOverRef w then
    let w := set_gameOver false w in
    let w := set_score 0%Z w in
    let w := set_windEnergy 100 w in
    let w := set_isGameRunning true w in
    let w := set_birdRef initialBird w in
    let w := set_pipesRef [] w in
    let w := set_gustsRef [] w in
    let w := set_particlesRef [] w in
    let w := set_nextPipeTimeRef 2 w in
    let w := set_gameTimeRef 0 w in
    playSound 440 0.1 sine w
  else
    let w :=
      if negb (isGameRunningRef w) then
        let w := set_isGameRunning true w in
        let w := set_nextPipeTimeRef 2 w in
        playSound 330 0.1 sine w
      else w in
    if negb (gameOverRef w) then flap w else w.

Definition startDrawing (pos : Vec.t) (w : World) : World :=
  let w := set_isDrawing true w in
  let w := set_drawStartRef (Some pos) w in
  set_drawCurrentRef (Some pos) w.

Definition stopDrawing (w : World) : World :=
  let w := set_isDrawing false w in
  let w := set_drawStartRef None w in
  set_drawCurrentRef None w.

(** [const gust = createGust(a, b); if (gust) gustsRef.current.push(gust)] *)
Definition pushGust (a b : Vec.t) (w : World) : World :=
  let '(gust, w) := createGust (GUST_RADIUS CANVAS_WIDTH) a b w in
  match gust with
  | Some g => set_gustsRef (gustsRef w ++ [g]) w
  | None => w
  end.

Definition handleMouseDown (pos : Vec.t) (w : World) : World :=
  if negb (isGameRunningRef w) || gameOverRef w then w
  else startDrawing pos w.

Definition handleMouseMove (pos : Vec.t) (w : World) : World :=
  match isDrawingSeen w, drawStartRef w with
  | true, Some _ => set_drawCurrentRef (Some pos) w
  | _, _ => w
  end.

Definition handleMouseUp (w : World) : World :=
  match isDrawingSeen w, drawStartRef w, drawCurrentRef w with
  | true, Some a, Some b => stopDrawing (pushGust a b w)
  | _, _, _ => w
  end.

Definition handleTouchStart (pos : Vec.t) (w : World) : World :=
  if negb (isGameRunningRef w) || gameOverRef w then handleCanvasClick w
  else startDrawing pos w.

Definition handleTouchMove (pos : Vec.t) (w : World) : World :=
  match isDrawingSeen w, drawStartRef w with
  | true, Some _ => set_drawCurrentRef (Some pos) w
  | _, _ => w
  end.

Definition handleTouchEnd (w : World) : World :=
  if negb (isGameRunningRef w) then w else
  match isDrawingSeen w, drawStartRef w, drawCurrentRef w with
  | true, Some a, Some b =>
      let distance :=
        sqrt ((Vec.x b - Vec.x a) ^ 2 + (Vec.y b - Vec.y a) ^ 2) in
      let w :=
        if distance >? 20 then pushGust a b w
        else if negb (gameOverRef w) then flap w else w in
      stopDrawing w
  | _, _, _ => if negb (gameOverRef w) then flap w else w
  end.

(** *** Update functions *)

(** The motion part of [updateBird]: gravity, the gusts, damping,
    integration, rotation and the two side walls (the statements between
    the guard and the terminal check). *)
Definition moveBird (deltaTime : R) (gusts : list Gust.t) (bird : Bird.t)
    : Bird.t :=
  let bird := Bird.with_vy (Bird.vy bird + GRAVITY * deltaTime) bird in
  let bird :=
    fold_left (fun b gust => applyGustForce b gust deltaTime) gusts bird in
  let bird := Bird.with_vx (Bird.vx bird * 0.98) bird in
  let bird := Bird.with_x (Bird.x bird + Bird.vx bird * deltaTime) bird in
  let bird := Bird.with_y (Bird.y bird + Bird.vy bird * deltaTime) bird in
  let bird :=
    Bird.with_rotation
      (Rmax (- PI / 3) (Rmin (PI / 2) (Bird.vy bird * 0.003))) bird in
  let bird :=
    if Bird.x bird <? Bird.radius bird
    then Bird.with_vx 0 (Bird.with_x (Bird.radius bird) bird)
    else bird in
  if Bird.x bird >? CANVAS_WIDTH - Bird.radius bird
  then Bird.with_vx 0 (Bird.with_x (CANVAS_WIDTH - Bird.radius bird) bird)
  else bird.

(** The terminal check of [updateBird]. *)
Definition outOfBounds (bird : Bird.t) : bool :=
  (Bird.y bird <? Bird.radius bird)
  || (Bird.y bird >? CANVAS_HEIGHT - Bird.radius bird).

(** [updateBird(birdRef.current, deltaTime)]: the [bird] argument is always
    the object held by [birdRef]. *)
Definition updateBird (deltaTime : R) (w : World) : World :=
  if gameOverRef w then w else
  let bird := moveBird deltaTime (gustsRef w) (birdRef w) in
  let w := set_birdRef bird w in
  if outOfBounds bird then endRun (Bird.x bird) (Bird.y bird) w else w.

Definition updateCloud (deltaTime : R) (cloud : Cloud.t) (w : World)
    : Cloud.t * World :=
  let x := Cloud.x cloud - Cloud.speed cloud * deltaTime in
  if x <? - Cloud.size cloud - 50 then
    let '(r, w) := Math_random w in
    (Cloud.mk (CANVAS_WIDTH + Cloud.size cloud)
       (r * CANVAS_HEIGHT * 0.4 + 50)
       (Cloud.size cloud) (Cloud.speed cloud) (Cloud.opacity cloud), w)
  else
    (Cloud.mk x (Cloud.y cloud) (Cloud.size cloud) (Cloud.speed cloud)
       (Cloud.opacity cloud), w).

Definition updateClouds (deltaTime : R) (w : World) : World :=
  let '(clouds, w) := forEach (updateCloud deltaTime) (cloudsRef w) w in
  set_cloudsRef clouds w.

(** The callback of the [forEach] in [updatePipes]. *)
Definition updatePipe (deltaTime : R) (pipe : Pipe.t) (w : World)
    : Pipe.t * World :=
  let x := Pipe.x pipe - PIPE_SPEED CANVAS_WIDTH * deltaTime in
  let animationOffset :=
    if Pipe.animationOffset pipe <? 1
    then Pipe.animationOffset pipe + deltaTime * 3
    else Pipe.animationOffset pipe in
  if negb (Pipe.passed pipe)
     && (x + Pipe.width pipe <? Bird.x (birdRef w))
  then
    let w := set_score (score w + 1)%Z w in
    let w := playSound 523 0.2 sine w in
    let w :=
      createParticles (x + Pipe.width pipe)
        (Pipe.topHeight pipe + Pipe.gap pipe / 2) 5 "#4CAF50" w in
    (Pipe.mk x (Pipe.topHeight pipe) (Pipe.bottomY pipe) (Pipe.width pipe)
       (Pipe.gap pipe) true (Pipe.pipeColor pipe) animationOffset, w)
  else
    (Pipe.mk x (Pipe.topHeight pipe) (Pipe.bottomY pipe) (Pipe.width pipe)
       (Pipe.gap pipe) (Pipe.passed pipe) (Pipe.pipeColor pipe)
       animationOffset, w).

Definition updatePipes (deltaTime : R) (w : World) : World :=
  if gameOverRef w then w else
  let '(pipes, w) := forEach (updatePipe deltaTime) (pipesRef w) w in
  let w := set_pipesRef pipes w in
  let w :=
    set_pipesRef
      (filter (fun pipe => Pipe.x pipe >? - Pipe.width pipe) (pipesRef w))
      w in
  let w := set_nextPipeTimeRef (nextPipeTimeRef w - deltaTime) w in
  let w :=
    if nextPipeTimeRef w <=? 0 then
      let '(pipe, w) :=
        createPipe CANVAS_HEIGHT (PIPE_GAP CANVAS_HEIGHT)
          (PIPE_WIDTH CANVAS_WIDTH) (CANVAS_WIDTH + 50) w in
      let w := set_pipesRef (pipesRef w ++ [pipe]) w in
      set_nextPipeTimeRef 2.5 w
    else w in
  if existsb (checkCollision (birdRef w)) (pipesRef w)
  then endRun (Bird.x (birdRef w)) (Bird.y (birdRef w)) w
  else w.

(** The body of the callback of [updateParticles], less its test.  The
    subtraction is exact; [agesF] below has the life on binary64
    numbers. *)
Definition updateParticle (deltaTime : R) (p : Particle.t) : Particle.t :=
  Particle.mk (Particle.x p + Particle.vx p * deltaTime)
    (Particle.y p + Particle.vy p * deltaTime) (Particle.vx p)
    (Particle.vy p + 200 * deltaTime) (Particle.life p - deltaTime)
    (Particle.maxLife p) (Particle.color p) (Particle.size p).

Definition updateParticles (deltaTime : R) (w : World) : World :=
  set_particlesRef
    (filter (fun p => Particle.life p >? 0)
       (map (updateParticle deltaTime) (particlesRef w)))
    w.

(** The body of the callback of [updateGusts], less its test.  The
    subtraction is exact; [agesF] below has the life on binary64
    numbers. *)
Definition updateGust (deltaTime : R) (gust : Gust.t) : Gust.t :=
  Gust.mk (Gust.x gust) (Gust.y gust) (Gust.direction gust)
    (Gust.magnitude gust) (Gust.radius gust) (Gust.life gust - deltaTime)
    (Gust.maxLife gust).

Definition updateGusts (deltaTime : R) (w : World) : World :=
  set_gustsRef
    (filter (fun gust => Gust.life gust >? 0)
       (map (updateGust deltaTime) (gustsRef w)))
    w.

Definition updateWindEnergy (deltaTime : R) (w : World) : World :=
  if windEnergyRef w <? MAX_WIND_ENERGY then
    set_windEnergy
      (Rmin MAX_WIND_ENERGY (windEnergy w + WIND_REGEN_RATE * deltaTime)) w
  else w.

Definition updateGameTime (deltaTime : R) (w : World) : World :=
  if isGameRunningRef w then set_gameTimeRef (gameTimeRef w + deltaTime) w
  else w.

(** *** The frame callback *)

Definition frameDelta (currentTime : R) (w : World) : R :=
  if truthy (lastTimeRef w) then (currentTime - lastTimeRef w) / 1000
  else 0.

Definition gameLoop (currentTime : R) (w : World) : World :=
  let deltaTime := frameDelta currentTime w in
  let w :=
    if (deltaTime >? 0) && (deltaTime <? 0.1) then
      let w := updateScreenShake deltaTime w in
      let w := updateClouds deltaTime w in
      let w := updateGameTime deltaTime w in
      if isGameRunningRef w then
        let w := updateBird deltaTime w in
        let w := updatePipes deltaTime w in
        let w := updateGusts deltaTime w in
        let w := updateParticles deltaTime w in
        updateWindEnergy deltaTime w
      else w
    else w in
  set_lastTimeRef currentTime w.

(** *** React commits a render

    The effects copy every state cell into its mirror, the handlers are
    rebuilt over the rendered [isDrawing], and the best score follows the
    score. *)
Definition commit (w : World) : World :=
  let w := set_isGameRunningRef (isGameRunning w) w in
  let w := set_gameOverRef (gameOver w) w in
  let w := set_scoreRef (score w) w in
  let w := set_bestScoreRef (bestScore w) w in
  let w := set_windEnergyRef (windEnergy w) w in
  let w := set_isDrawingSeen (isDrawing w) w in
  if (bestScore w <? score w)%Z then set_bestScore (score w) w else w.

(** *** What can happen to the component *)

Inductive Event :=
| Frame (currentTime : R)
| Render
| Click
| MouseDown (pos : Vec.t)
| MouseMove (pos : Vec.t)
| MouseUp
| TouchStart (pos : Vec.t)
| TouchMove (pos : Vec.t)
| TouchEnd.

Definition step (w : World) (e : Event) : World :=
  match e with
  | Frame currentTime => gameLoop currentTime w
  | Render => commit w
  | Click => handleCanvasClick w
  | MouseDown pos => handleMouseDown pos w
  | MouseMove pos => handleMouseMove pos w
  | MouseUp => handleMouseUp w
  | TouchStart pos => handleTouchStart pos w
  | TouchMove pos => handleTouchMove pos w
  | TouchEnd => handleTouchEnd w
  end.

Definition run (es : list Event) (w : World) : World := fold_left step es w.

(** The component as mounted: nothing running, full energy, the best score
    as read from storage. *)
Definition initialWorld (source : nat -> R) (clouds : list Cloud.t)
    (best : Z) : World :=
  mkWorld false false 0%Z best 100 false
    false false 0%Z best 100 false
    0 0 None None (Shake.mk 0 0 0) clouds initialBird [] [] [] 0
    source 0%nat [].

End App.


(** ** Sample states

    A session on the default 800 x 600 canvas, some seconds into a run, with
    the last frame drawn at time 1000 ms.  [over] is the game-over flag (state
    and mirror). *)
Definition sampleBird (x y vx vy : R) : Bird.t :=
  Bird.mk x y 20 "#FFD700" vy vx 0.

Definition sampleGust : Gust.t :=
  Gust.mk 400 300 (Vec.mk 1 0) 1200 100 1.2 1.2.

Definition samplePipe (x : R) (passed : bool) : Pipe.t :=
  Pipe.mk x 200 350 60 150 passed "#4CAF50" 1.

Definition sample (over : bool) (energy : R) (bird : Bird.t)
    (pipes : list Pipe.t) (gusts : list Gust.t) : World :=
  mkWorld true over 0%Z 0%Z energy false
    true over 0%Z 0%Z energy false
    1000 3 None None (Shake.mk 0 0 0) [] bird pipes gusts [] 1.5
    (fun _ => 0.5) 0%nat [].

(** ** The force model in the specification's words

    [gustForceAt point gust] is zero when the point is at distance at least
    [gust.radius] from the gust's origin, and otherwise has magnitude
    [gust.magnitude * (1 - (d / radius)^2)] along [gust.direction]. *)
Definition gustForceAt (point : Vec.t) (gust : Gust.t) : Vec.t :=
  let d := distance point (Gust.pos gust) in
  if Gust.radius gust <=? d then Vec.mk 0 0
  else
    let m := Gust.magnitude gust * (1 - (d / Gust.radius gust) ^ 2) in
    Vec.mk (m * Vec.x (Gust.direction gust)) (m * Vec.y (Gust.direction gust)).

(** The sum of the forces of several gusts at one point. *)
Definition totalForceAt (point : Vec.t) (gusts : list Gust.t) : Vec.t :=
  fold_right
    (fun gust acc =>
       Vec.mk (Vec.x (gustForceAt point gust) + Vec.x acc)
              (Vec.y (gustForceAt point gust) + Vec.y acc))
    (Vec.mk 0 0) gusts.

(** A bird that gained the velocity [force * deltaTime]. *)
Definition pushed (force : Vec.t) (deltaTime : R) (bird : Bird.t) : Bird.t :=
  Bird.with_vy (Bird.vy bird + Vec.y force * deltaTime)
    (Bird.with_vx (Bird.vx bird + Vec.x force * deltaTime) bird).

(** ** Closed forms used by the proofs

    The particle that [createParticles] builds from the five draws starting
    at index [k], and the burst of [count] such particles. *)
Definition particleOf (x y : R) (color : string) (source : nat -> R)
    (k : nat) : Particle.t :=
  Particle.mk (x + (source k - 0.5) * 20) (y + (source (1 + k)%nat - 0.5) * 20)
    ((source (2 + k)%nat - 0.5) * 200) ((source (3 + k)%nat - 0.5) * 200)
    0.5 0.5 color (source (4 + k)%nat * 4 + 2).

Fixpoint burst (x y : R) (count : nat) (color : string) (source : nat -> R)
    (k : nat) : list Particle.t :=
  match count with
  | O => []
  | S n => particleOf x y color source k :: burst x y n color source (5 + k)
  end.

(** What the callback of [updatePipes] does to one obstacle, given the
    bird's [x]: whether it is passed in this tick, and the obstacle after
    the tick. *)
Definition passesNow (CANVAS_WIDTH deltaTime birdX : R) (pipe : Pipe.t)
    : bool :=
  negb (Pipe.passed pipe)
  && (Pipe.x pipe - PIPE_SPEED CANVAS_WIDTH * deltaTime + Pipe.width pipe
      <? birdX).

Definition scrollPipe (CANVAS_WIDTH deltaTime birdX : R) (pipe : Pipe.t)
    : Pipe.t :=
  Pipe.mk (Pipe.x pipe - PIPE_SPEED CANVAS_WIDTH * deltaTime)
    (Pipe.topHeight pipe) (Pipe.bottomY pipe) (Pipe.width pipe)
    (Pipe.gap pipe)
    (Pipe.passed pipe || passesNow CANVAS_WIDTH deltaTime birdX pipe)
    (Pipe.pipeColor pipe)
    (if Pipe.animationOffset pipe <? 1
     then Pipe.animationOffset pipe + deltaTime * 3
     else Pipe.animationOffset pipe).

(** The number of obstacles of a list passed in this tick. *)
Definition passedNow (CANVAS_WIDTH deltaTime birdX : R)
    (pipes : list Pipe.t) : nat :=
  List.length (filter (passesNow CANVAS_WIDTH deltaTime birdX) pipes).

(** ** Invariants *)

(** The energy pool is within its bounds. *)
Definition energy_ok (w : World) : Prop :=
  0 <= windEnergy w <= MAX_WIND_ENERGY.

(** The Euclidean length of a vector. *)
Definition norm (v : Vec.t) : R := sqrt (Vec.x v * Vec.x v + Vec.y v * Vec.y v).

(** A gust as [createGust] makes them, whatever the rounding: a strength
    in [[40, 1200]] and a direction that is not the zero vector and has both
    components in [[-1, 1]]. *)
Definition gust_ok (gust : Gust.t) : Prop :=
  40 <= Gust.magnitude gust <= 1200
  /\ -1 <= Vec.x (Gust.direction gust) <= 1
  /\ -1 <= Vec.y (Gust.direction gust) <= 1
  /\ Gust.direction gust <> Vec.mk 0 0.

(** [g'] is [g] later in its life: only [life] differs, and it is not
    larger. *)
Definition aged (g g' : Gust.t) : Prop :=
  Gust.x g' = Gust.x g /\ Gust.y g' = Gust.y g
  /\ Gust.direction g' = Gust.direction g
  /\ Gust.magnitude g' = Gust.magnitude g
  /\ Gust.radius g' = Gust.radius g
  /\ Gust.maxLife g' = Gust.maxLife g
  /\ Gust.life g' <= Gust.life g.

(** A function of the component that touches neither the energy pool, nor
    the gusts, nor the mirrors the updates branch on. *)
Definition keeps (f : World -> World) : Prop :=
  forall w,
    windEnergy (f w) = windEnergy w
    /\ gustsRef (f w) = gustsRef w
    /\ windEnergyRef (f w) = windEnergyRef w
    /\ isGameRunningRef (f w) = isGameRunningRef w
    /\ gameOverRef (f w) = gameOverRef w.

(** The flags of the run and their mirrors.  [flags_ok] is what holds of
    them in every state of a session: the run has been started whenever it
    is over.  [flags_step w w'] relates the flags before and after a step
    that can only raise the game-over flag. *)
Definition flags_ok (w : World) : Prop :=
  (isGameRunningRef w = true -> isGameRunning w = true)
  /\ (gameOver w = true -> isGameRunning w = true)
  /\ (gameOverRef w = true -> isGameRunningRef w = true).

Definition flags_step (w w' : World) : Prop :=
  isGameRunning w' = isGameRunning w
  /\ isGameRunningRef w' = isGameRunningRef w
  /\ gameOverRef w' = gameOverRef w
  /\ (gameOver w' = gameOver w \/ gameOver w' = true).

(** ** One obstacle over several ticks

    A tick is given by its [deltaTime] and the bird's [x] at that tick.
    [awards] counts the points the obstacle earns over the ticks, and
    [everBehind] tells whether its trailing edge is behind the bird at one of
    them. *)
Fixpoint awards (CANVAS_WIDTH : R) (ticks : list (R * R)) (pipe : Pipe.t)
    : nat :=
  match ticks with
  | [] => O
  | (deltaTime, birdX) :: rest =>
      ((if passesNow CANVAS_WIDTH deltaTime birdX pipe then 1 else 0)
       + awards CANVAS_WIDTH rest
           (scrollPipe CANVAS_WIDTH deltaTime birdX pipe))%nat
  end.

Fixpoint everBehind (CANVAS_WIDTH : R) (ticks : list (R * R)) (pipe : Pipe.t)
    : bool :=
  match ticks with
  | [] => false
  | (deltaTime, birdX) :: rest =>
      (Pipe.x pipe - PIPE_SPEED CANVAS_WIDTH * deltaTime + Pipe.width pipe
       <? birdX)
      || everBehind CANVAS_WIDTH rest
           (scrollPipe CANVAS_WIDTH deltaTime birdX pipe)
  end.

(** A session used as an example: start, two frames, a drag of 100 pixels,
    another frame. *)
Definition sampleSession : list Event :=
  [Click; Render; Frame 1000; Frame 1016;
   MouseDown (Vec.mk 100 100); Render; MouseMove (Vec.mk 200 100); MouseUp;
   Render; Frame 1032].

Arguments run CANVAS_WIDTH CANVAS_HEIGHT es w : simpl nomatch.

(** ** What holds of the entities in every state of a session

    An obstacle keeps the gap and the width of the canvas it was made for
    and lies between the left pruning line and the spawn line; a gust and a
    particle are alive and within their maximal life; the shake is either off
    (and centred) or at least 0.1 strong. *)
Definition pipe_ok (CANVAS_WIDTH CANVAS_HEIGHT : R) (pipe : Pipe.t) : Prop :=
  Pipe.bottomY pipe - Pipe.topHeight pipe = PIPE_GAP CANVAS_HEIGHT
  /\ Pipe.gap pipe = PIPE_GAP CANVAS_HEIGHT
  /\ Pipe.width pipe = PIPE_WIDTH CANVAS_WIDTH
  /\ - Pipe.width pipe < Pipe.x pipe <= CANVAS_WIDTH + 50.

Definition gust_live (CANVAS_WIDTH : R) (gust : Gust.t) : Prop :=
  0 < Gust.life gust <= Gust.maxLife gust
  /\ Gust.maxLife gust = GUST_LIFE
  /\ Gust.radius gust = GUST_RADIUS CANVAS_WIDTH.

Definition particle_live (p : Particle.t) : Prop :=
  0 < Particle.life p <= Particle.maxLife p /\ Particle.maxLife p = 0.5.

Definition shake_ok (shake : Shake.t) : Prop :=
  (Shake.intensity shake = 0 /\ Shake.x shake = 0 /\ Shake.y shake = 0)
  \/ 0.1 <= Shake.intensity shake.

Definition tidy (CANVAS_WIDTH CANVAS_HEIGHT : R) (w : World) : Prop :=
  Forall (pipe_ok CANVAS_WIDTH CANVAS_HEIGHT) (pipesRef w)
  /\ Forall (gust_live CANVAS_WIDTH) (gustsRef w)
  /\ Forall particle_live (particlesRef w)
  /\ (0 <= score w)%Z
  /\ shake_ok (shakeRef w)
  /\ 0 <= gameTimeRef w
  /\ 0 <= nextPipeTimeRef w <= 2.5.

(** ** The canvas size

    [updateCanvasDimensions], as a function of [window.innerWidth] and
    [window.innerHeight]: the value given to [setIsMobile] and the
    dimensions given to [setCanvasDimensions]. *)
Definition updateCanvasDimensions (innerWidth innerHeight : R)
    : bool * (R * R) :=
  let mobile := innerWidth <=? 768 in
  if mobile then
    let width := Rmin (innerWidth - 20) 500 in
    let height := Rmin (innerHeight - 200) 700 in
    (mobile, (width, height))
  else
    let maxWidth := Rmin (innerWidth - 40) 800 in
    let maxHeight := Rmin (innerHeight - 300) 600 in
    let aspectRatio := 800 / 600 in
    let width := maxWidth in
    let height := maxWidth / aspectRatio in
    let '(width, height) :=
      if height >? maxHeight then (maxHeight * aspectRatio, maxHeight)
      else (width, height) in
    (mobile, (Rmax width 400, Rmax height 300)).

(** [getCanvasMousePos] for a pointer at [(clientX, clientY)] over a canvas
    displayed in the rectangle [rect] (left, top, width, height). *)
Definition getCanvasMousePos (CANVAS_WIDTH CANVAS_HEIGHT : R)
    (rectLeft rectTop rectWidth rectHeight clientX clientY : R) : Vec.t :=
  let scaleX := CANVAS_WIDTH / rectWidth in
  let scaleY := CANVAS_HEIGHT / rectHeight in
  Vec.mk ((clientX - rectLeft) * scaleX) ((clientY - rectTop) * scaleY).

(** The sum of a list of time steps. *)
Definition total (deltaTimes : list R) : R := fold_right Rplus 0 deltaTimes.

(** ** What the simulation never writes

    The cells that belong to the input handlers and to the effects of a
    render: the start of the run, the stroke, the best score and all the
    mirrors. *)
Definition same_controls (w w' : World) : Prop :=
  isGameRunning w' = isGameRunning w
  /\ bestScore w' = bestScore w
  /\ isDrawing w' = isDrawing w
  /\ drawStartRef w' = drawStartRef w
  /\ drawCurrentRef w' = drawCurrentRef w
  /\ isGameRunningRef w' = isGameRunningRef w
  /\ gameOverRef w' = gameOverRef w
  /\ scoreRef w' = scoreRef w
  /\ bestScoreRef w' = bestScoreRef w
  /\ windEnergyRef w' = windEnergyRef w
  /\ isDrawingSeen w' = isDrawingSeen w.

(** ** The stroke

    The three cells of a stroke move together: either a stroke is being
    drawn and both of its ends are known, or none is and both are empty. *)
Definition stroke_ok (w : World) : Prop :=
  match drawStartRef w, drawCurrentRef w with
  | Some _, Some _ => isDrawing w = true
  | None, None => isDrawing w = false
  | _, _ => False
  end.

(** ** The energy bar of [drawUI]

    The width of the bar, the fraction that is filled and the width of the
    filling, as [drawUI] computes them from the mirror of the energy. *)
Definition barWidth (CANVAS_WIDTH : R) : R := Rmin 220 (CANVAS_WIDTH * 0.35).

Definition energyPercent (w : World) : R := windEnergyRef w / MAX_WIND_ENERGY.

Definition fillWidth (CANVAS_WIDTH : R) (w : World) : R :=
  barWidth CANVAS_WIDTH * energyPercent w.

(** ** Clouds

    What [updateClouds] does to one cloud in a tick: it keeps its size,
    speed and opacity, and either drifts to the left at its own height or,
    once beyond the left margin, re-enters at the right edge at a height
    drawn at random. *)
Definition drifted (CANVAS_WIDTH CANVAS_HEIGHT deltaTime : R)
    (source : nat -> R) (cloud cloud' : Cloud.t) : Prop :=
  let x := Cloud.x cloud - Cloud.speed cloud * deltaTime in
  Cloud.size cloud' = Cloud.size cloud
  /\ Cloud.speed cloud' = Cloud.speed cloud
  /\ Cloud.opacity cloud' = Cloud.opacity cloud
  /\ ((- Cloud.size cloud - 50 <= x
       /\ Cloud.x cloud' = x /\ Cloud.y cloud' = Cloud.y cloud)
      \/ (x < - Cloud.size cloud - 50
          /\ Cloud.x cloud' = CANVAS_WIDTH + Cloud.size cloud
          /\ exists k, Cloud.y cloud' = source k * CANVAS_HEIGHT * 0.4 + 50)).

(** * Rounding

    The embedding above computes on real numbers.  The program computes on
    IEEE 754 binary64 numbers, and each of its operations rounds; where a
    statement depends on that, it is made on one of the two readings of the
    code that follow. *)

(** ** The code on binary64 numbers

    The same code over Rocq's primitive floats, which are the binary64
    numbers with the operations of the processor, rounding to nearest.  A
    decimal literal denotes the nearest binary64 number, as it does in
    JavaScript. *)

#[local] Set Warnings "-inexact-float".

Module VecF.
Record t := mk { x : float; y : float }.
End VecF.

Module PipeF.
Record t := mk {
  x : float; topHeight : float; bottomY : float; width : float; gap : float;
  passed : bool; pipeColor : string; animationOffset : float
}.
End PipeF.

(** [Math.floor a] for [0 <= a < fuel]. *)
Fixpoint floorF (fuel : nat) (a : float) : nat :=
  match fuel with
  | O => O
  | S n => if (a <? 1)%float then O else S (floorF n (a - 1)%float)
  end.

(** [createPipe x], with the two draws of [Math.random ()] as [r1] and
    [r2]; [PIPE_COLORS.length] is 4. *)
Definition createPipeF (CANVAS_HEIGHT PIPE_GAP PIPE_WIDTH : float)
    (x r1 r2 : float) : PipeF.t :=
  let minTopHeight := (CANVAS_HEIGHT * 0.15)%float in
  let maxTopHeight :=
    (CANVAS_HEIGHT - PIPE_GAP - CANVAS_HEIGHT * 0.15)%float in
  let topHeight :=
    (r1 * (maxTopHeight - minTopHeight) + minTopHeight)%float in
  let pipeColor :=
    nth (floorF (List.length PIPE_COLORS) (r2 * 4)%float) PIPE_COLORS
        "undefined"%string in
  PipeF.mk x topHeight (topHeight + PIPE_GAP)%float PIPE_WIDTH PIPE_GAP false
    pipeColor 0%float.

(** [distance p1 p2], with [a ** 2] as [a * a]. *)
Definition distanceF (p1 p2 : VecF.t) : float :=
  PrimFloat.sqrt
    ((VecF.x p1 - VecF.x p2) * (VecF.x p1 - VecF.x p2)
     + (VecF.y p1 - VecF.y p2) * (VecF.y p1 - VecF.y p2))%float.

Definition normalizeF (vec : VecF.t) : VecF.t :=
  let len :=
    PrimFloat.sqrt (VecF.x vec * VecF.x vec + VecF.y vec * VecF.y vec)%float in
  if (0 <? len)%float
  then VecF.mk (VecF.x vec / len)%float (VecF.y vec / len)%float
  else VecF.mk 0%float 0%float.

(** The [life] of one gust or particle over several ticks of [updateGusts]
    or [updateParticles] ([life -= deltaTime; return life > 0]): the life
    after the ticks, or [None] once the filter has dropped the entity. *)
Fixpoint agesF (deltaTimes : list float) (life : float) : option float :=
  match deltaTimes with
  | [] => Some life
  | deltaTime :: rest =>
      let life := (life - deltaTime)%float in
      if (0 <? life)%float then agesF rest life else None
  end.

(** The real number a finite binary64 number stands for. *)
Definition valueF (a : float) : R :=
  match Prim2SF a with
  | S754_finite s m e => (if s then -1 else 1) * IZR (Z.pos m) * powerRZ 2 e
  | _ => 0
  end.

(** ** The code with a rounding after every operation

    [rnd] stands for the rounding of one operation.  In the standard model
    of floating-point arithmetic every operation returns its exact result
    with a relative error of at most the unit roundoff, [2 ^ -53] for
    binary64 (it holds of binary64 as long as no operation overflows or
    underflows).  A literal that is not a binary64 number is rounded where
    it is read. *)
Definition unit_roundoff : R := / 2 ^ 53.

Definition standard_model (rnd : R -> R) : Prop :=
  forall a, Rabs (rnd a - a) <= unit_roundoff * Rabs a.

Definition normalize_rnd (rnd : R -> R) (vec : Vec.t) : Vec.t :=
  let len :=
    rnd (sqrt (rnd (rnd (Vec.x vec * Vec.x vec)
                    + rnd (Vec.y vec * Vec.y vec)))) in
  if len >? 0 then Vec.mk (rnd (Vec.x vec / len)) (rnd (Vec.y vec / len))
  else Vec.mk 0 0.

Definition createPipe_rnd (rnd : R -> R)
    (CANVAS_HEIGHT PIPE_GAP PIPE_WIDTH : R) (x : R) (w : World)
    : Pipe.t * World :=
  let minTopHeight := rnd (CANVAS_HEIGHT * rnd 0.15) in
  let maxTopHeight :=
    rnd (rnd (CANVAS_HEIGHT - PIPE_GAP) - rnd (CANVAS_HEIGHT * rnd 0.15)) in
  let '(r1, w) := Math_random w in
  let topHeight :=
    rnd (rnd (r1 * rnd (maxTopHeight - minTopHeight)) + minTopHeight) in
  let '(r2, w) := Math_random w in
  let pipeColor :=
    nth (Z.to_nat (Zfloor (rnd (r2 * INR (List.length PIPE_COLORS)))))
        PIPE_COLORS "undefined"%string in
  (Pipe.mk x topHeight (rnd (topHeight + PIPE_GAP)) PIPE_WIDTH PIPE_GAP false
     pipeColor 0, w).

(** ** Obstacles as they stay on the field *)

(** An obstacle carries the gap and the width of its canvas and lies
    between the pruning line and the spawn line. *)
Definition pipe_placed (CANVAS_WIDTH CANVAS_HEIGHT : R) (pipe : Pipe.t)
    : Prop :=
  Pipe.gap pipe = PIPE_GAP CANVAS_HEIGHT
  /\ Pipe.width pipe = PIPE_WIDTH CANVAS_WIDTH
  /\ - Pipe.width pipe < Pipe.x pipe <= CANVAS_WIDTH + 50.

(** * Properties *)

(** ** Evaluating comparisons *)

Lemma Rltb_true (a b : R) : a < b -> (a <? b) = true.
Proof. intros H. unfold Rltb. destruct (Rlt_dec a b); [reflexivity | lra]. Qed.

Lemma Rltb_false (a b : R) : b <= a -> (a <? b) = false.
Proof. intros H. unfold Rltb. destruct (Rlt_dec a b); [lra | reflexivity]. Qed.

Lemma Rleb_true (a b : R) : a <= b -> (a <=? b) = true.
Proof. intros H. unfold Rleb. destruct (Rle_dec a b); [reflexivity | lra]. Qed.

Lemma Rleb_false (a b : R) : b < a -> (a <=? b) = false.
Proof. intros H. unfold Rleb. destruct (Rle_dec a b); [lra | reflexivity]. Qed.

Lemma Rltb_spec (a b : R) : reflect (a < b) (a <? b).
Proof.
  unfold Rltb. destruct (Rlt_dec a b); constructor; assumption.
Qed.

Lemma Rleb_spec (a b : R) : reflect (a <= b) (a <=? b).
Proof.
  unfold Rleb. destruct (Rle_dec a b); constructor; assumption.
Qed.

Lemma truthy_false (a : R) : a = 0 -> truthy a = false.
Proof. intros ->. unfold truthy. destruct (Req_dec_T 0 0); congruence. Qed.

Lemma truthy_true (a : R) : a <> 0 -> truthy a = true.
Proof. intros H. unfold truthy. destruct (Req_dec_T a 0); congruence. Qed.

(** Decide every comparison of the goal whose sides [lra] can order. *)
Ltac rcmp :=
  unfold Rgtb;
  repeat match goal with
    | |- context [?a <? ?b] =>
        first [ rewrite (Rltb_true a b) by lra
              | rewrite (Rltb_false a b) by lra ]
    | |- context [?a <=? ?b] =>
        first [ rewrite (Rleb_true a b) by lra
              | rewrite (Rleb_false a b) by lra ]
    | |- context [Rmin ?a ?b] =>
        first [ rewrite (Rmin_left a b) by lra
              | rewrite (Rmin_right a b) by lra ]
    | |- context [Rmax ?a ?b] =>
        first [ rewrite (Rmax_left a b) by lra
              | rewrite (Rmax_right a b) by lra ]
    end.

(** ** Frames whose time step is out of range *)

(** C2.  A frame whose [deltaTime] is not strictly between 0 and 0.1 runs
    no update at all: the only thing the frame changes is [lastTimeRef], so
    the bird, the obstacles, the gusts, the particles, the energy and the
    score are exactly those before the frame. *)
Theorem C2_out_of_range_frame_is_discarded
    (W H currentTime : R) (w : World) :
  frameDelta currentTime w <= 0 \/ frameDelta currentTime w >= 0.1 ->
  let w' := gameLoop W H currentTime w in
  w' = set_lastTimeRef currentTime w
  /\ birdRef w' = birdRef w
  /\ pipesRef w' = pipesRef w
  /\ gustsRef w' = gustsRef w
  /\ particlesRef w' = particlesRef w
  /\ windEnergy w' = windEnergy w
  /\ score w' = score w.
Proof.
  intros Hdt w'.
  assert (E : w' = set_lastTimeRef currentTime w).
  { subst w'. unfold gameLoop, Rgtb.
    destruct Hdt as [Hle | Hge].
    - rewrite (Rltb_false 0 (frameDelta currentTime w)) by lra.
      reflexivity.
    - rewrite (Rltb_false (frameDelta currentTime w) 0.1) by lra.
      rewrite andb_false_r. reflexivity. }
  rewrite E. destruct w. repeat split.
Qed.

Lemma C2_out_of_range_frame_witness :
  let w := sample false 50 (sampleBird 100 300 0 0) [] [sampleGust] in
  frameDelta 1250 w >= 0.1
  /\ gameLoop 800 600 1250 w = set_lastTimeRef 1250 w.
Proof.
  intros w.
  assert (Hd : frameDelta 1250 w >= 0.1).
  { unfold frameDelta. cbn. rewrite truthy_true by lra. lra. }
  split; [exact Hd |].
  exact (proj1 (C2_out_of_range_frame_is_discarded 800 600 1250 w
                  (or_intror Hd))).
Defined.

(** ** Gust creation and the energy pool *)

(** C5.  A gust request whose stroke is shorter than 20, or whose cost
    [min (strokeLength * 0.5) energy] is below 10, returns [null] and leaves
    the whole state as it was: no gust is pushed and the energy is not
    debited. *)
Theorem C5_rejected_gust_request
    (W radius : R) (start end_ : Vec.t) (w : World) :
  distance start end_ < 20
  \/ Rmin (distance start end_ * GUST_COST_PER_PIXEL) (windEnergyRef w) < 10 ->
  createGust radius start end_ w = (None, w)
  /\ pushGust W start end_ w = w
  /\ gustsRef (pushGust W start end_ w) = gustsRef w
  /\ windEnergy (pushGust W start end_ w) = windEnergy w.
Proof.
  intros Hrej.
  assert (E : forall r, createGust r start end_ w = (None, w)).
  { intros r. unfold createGust.
    destruct (Rltb_spec (distance start end_) 20) as [_ | Hlen];
      [reflexivity |].
    destruct Hrej as [Hshort | Hcheap]; [lra |].
    rewrite Rltb_true by exact Hcheap. reflexivity. }
  assert (P : pushGust W start end_ w = w).
  { unfold pushGust. rewrite E. reflexivity. }
  rewrite P. auto.
Qed.

Lemma C5_rejected_gust_request_witness :
  let w := sample false 8 (sampleBird 100 300 0 0) [] [] in
  let a := Vec.mk 100 100 in
  let b := Vec.mk 200 100 in
  Rmin (distance a b * GUST_COST_PER_PIXEL) (windEnergyRef w) < 10
  /\ pushGust 800 a b w = w.
Proof.
  intros w a b.
  assert (Hc : Rmin (distance a b * GUST_COST_PER_PIXEL) (windEnergyRef w)
               < 10).
  { cbn. apply Rle_lt_trans with 8; [apply Rmin_r | lra]. }
  split; [exact Hc |].
  exact (proj1 (proj2 (C5_rejected_gust_request 800 100 a b w
                         (or_intror Hc)))).
Defined.

(** ** Rounded arithmetic *)

Lemma unit_roundoff_small : 0 < unit_roundoff <= / 8.
Proof.
  unfold unit_roundoff. split.
  - apply Rinv_0_lt_compat, pow_lt. lra.
  - apply Rinv_le_contravar; [lra |].
    replace 8 with (2 ^ 3) by ring.
    apply Rle_pow; [lra | lia].
Qed.

Lemma exact_is_standard : standard_model (fun a => a).
Proof.
  intros a. replace (a - a) with 0 by ring. rewrite Rabs_R0.
  apply Rmult_le_pos; [apply Rlt_le, unit_roundoff_small | apply Rabs_pos].
Qed.

(** A rounding that is never exact: it errs away from zero by the unit
    roundoff. *)
Lemma upward_is_standard :
  standard_model (fun a => a * (1 + unit_roundoff)).
Proof.
  intros a. replace (a * (1 + unit_roundoff) - a)
    with (unit_roundoff * a) by ring.
  rewrite Rabs_mult, (Rabs_pos_eq unit_roundoff)
    by apply Rlt_le, unit_roundoff_small.
  apply Rle_refl.
Qed.

Section Rounded.

Variable rnd : R -> R.
Variable u : R.
Hypothesis u_small : 0 <= u <= / 8.
Hypothesis rnd_error : forall a, Rabs (rnd a - a) <= u * Rabs a.

Lemma rnd_pos (a : R) : 0 <= a -> a * (1 - u) <= rnd a <= a * (1 + u).
Proof.
  intros Ha. pose proof (rnd_error a) as E.
  rewrite (Rabs_pos_eq a Ha) in E.
  unfold Rabs in E. destruct (Rcase_abs (rnd a - a)); lra.
Qed.

Lemma rnd_sqr (a : R) :
  a * a * ((1 - u) * (1 - u)) <= rnd a * rnd a
  <= a * a * ((1 + u) * (1 + u)).
Proof.
  pose proof (rnd_error a) as E.
  assert (Hu : 0 <= 1 - u) by lra.
  destruct (Rle_or_lt 0 a) as [Ha | Ha].
  - destruct (rnd_pos a Ha) as [Hl Hh].
    assert (H0 : 0 <= a * (1 - u)) by (apply Rmult_le_pos; lra).
    split.
    + replace (a * a * ((1 - u) * (1 - u)))
        with (a * (1 - u) * (a * (1 - u))) by ring.
      apply Rmult_le_compat; lra.
    + replace (a * a * ((1 + u) * (1 + u)))
        with (a * (1 + u) * (a * (1 + u))) by ring.
      apply Rmult_le_compat; lra.
  - rewrite (Rabs_left a Ha) in E.
    assert (Hl : a * (1 + u) <= rnd a <= a * (1 - u)).
    { unfold Rabs in E. destruct (Rcase_abs (rnd a - a)); lra. }
    assert (H0 : 0 <= - a * (1 - u)) by (apply Rmult_le_pos; lra).
    replace (rnd a * rnd a) with (- rnd a * - rnd a) by ring.
    split.
    + replace (a * a * ((1 - u) * (1 - u)))
        with (- a * (1 - u) * (- a * (1 - u))) by ring.
      apply Rmult_le_compat; lra.
    + replace (a * a * ((1 + u) * (1 + u)))
        with (- a * (1 + u) * (- a * (1 + u))) by ring.
      apply Rmult_le_compat; lra.
Qed.

Lemma normalize_rnd_length (vec : Vec.t) :
  vec <> Vec.mk 0 0 ->
  Rabs (norm (normalize_rnd rnd vec) - 1) <= 4 * u.
Proof.
  intros Hnz. destruct vec as [x y]. unfold normalize_rnd, norm.
  cbn [Vec.x Vec.y].
  set (s := x * x + y * y).
  assert (Hs : 0 < s).
  { subst s. destruct (Req_dec x 0) as [-> | Hx].
    - destruct (Req_dec y 0) as [-> | Hy]; [congruence | nra].
    - nra. }
  set (A := rnd (x * x)). set (B := rnd (y * y)).
  assert (HA : x * x * (1 - u) <= A <= x * x * (1 + u))
    by (apply rnd_pos; nra).
  assert (HB : y * y * (1 - u) <= B <= y * y * (1 + u))
    by (apply rnd_pos; nra).
  assert (HAB : s * (1 - u) <= A + B <= s * (1 + u)) by (subst s; lra).
  assert (HAB0 : 0 < A + B) by nra.
  set (C := rnd (A + B)).
  assert (HC : (A + B) * (1 - u) <= C <= (A + B) * (1 + u))
    by (apply rnd_pos; lra).
  assert (HC0 : 0 < C) by nra.
  assert (HCs : s * ((1 - u) * (1 - u)) <= C <= s * ((1 + u) * (1 + u))).
  { split; nra. }
  set (Q := sqrt C).
  assert (HQ0 : 0 < Q) by (apply sqrt_lt_R0; exact HC0).
  assert (HQ2 : Q * Q = C) by (apply sqrt_sqrt; lra).
  set (L := rnd Q).
  assert (HL : Q * (1 - u) <= L <= Q * (1 + u)) by (apply rnd_pos; lra).
  assert (HL0 : 0 < L) by nra.
  unfold Rgtb. rewrite (Rltb_true 0 L) by exact HL0. cbn [Vec.x Vec.y].
  assert (HL2 : C * ((1 - u) * (1 - u)) <= L * L
                <= C * ((1 + u) * (1 + u))).
  { rewrite <- HQ2.
    assert (H0 : 0 <= Q * (1 - u)) by (apply Rmult_le_pos; lra).
    split.
    - replace (Q * Q * ((1 - u) * (1 - u)))
        with (Q * (1 - u) * (Q * (1 - u))) by ring.
      apply Rmult_le_compat; lra.
    - replace (Q * Q * ((1 + u) * (1 + u)))
        with (Q * (1 + u) * (Q * (1 + u))) by ring.
      apply Rmult_le_compat; lra. }
  set (p := (1 - u) * (1 - u)) in *. set (q := (1 + u) * (1 + u)) in *.
  assert (Hp : 0 < p) by (subst p; nra).
  assert (Hq : 0 < q) by (subst q; nra).
  assert (HLs : s * (p * p) <= L * L <= s * (q * q)).
  { split.
    - apply Rle_trans with (C * p); [| apply HL2].
      replace (s * (p * p)) with (s * p * p) by ring.
      apply Rmult_le_compat_r; lra.
    - apply Rle_trans with (C * q); [apply HL2 |].
      replace (s * (q * q)) with (s * q * q) by ring.
      apply Rmult_le_compat_r; lra. }
  set (dx := rnd (x / L)). set (dy := rnd (y / L)).
  pose proof (rnd_sqr (x / L)) as Hdx. fold dx p q in Hdx.
  pose proof (rnd_sqr (y / L)) as Hdy. fold dy p q in Hdy.
  set (N := dx * dx + dy * dy).
  assert (HxL : x / L * (x / L) * (L * L) = x * x) by (field; lra).
  assert (HyL : y / L * (y / L) * (L * L) = y * y) by (field; lra).
  assert (HLL : 0 < L * L) by nra.
  assert (HN : s * p <= N * (L * L) <= s * q).
  { subst N. split.
    - replace (s * p) with (x / L * (x / L) * (L * L) * p
                            + y / L * (y / L) * (L * L) * p)
        by (rewrite HxL, HyL; subst s; ring).
      replace ((dx * dx + dy * dy) * (L * L))
        with (dx * dx * (L * L) + dy * dy * (L * L)) by ring.
      apply Rplus_le_compat.
      + replace (x / L * (x / L) * (L * L) * p)
          with (x / L * (x / L) * p * (L * L)) by ring.
        apply Rmult_le_compat_r; lra.
      + replace (y / L * (y / L) * (L * L) * p)
          with (y / L * (y / L) * p * (L * L)) by ring.
        apply Rmult_le_compat_r; lra.
    - replace (s * q) with (x / L * (x / L) * (L * L) * q
                            + y / L * (y / L) * (L * L) * q)
        by (rewrite HxL, HyL; subst s; ring).
      replace ((dx * dx + dy * dy) * (L * L))
        with (dx * dx * (L * L) + dy * dy * (L * L)) by ring.
      apply Rplus_le_compat.
      + replace (x / L * (x / L) * (L * L) * q)
          with (x / L * (x / L) * q * (L * L)) by ring.
        apply Rmult_le_compat_r; lra.
      + replace (y / L * (y / L) * (L * L) * q)
          with (y / L * (y / L) * q * (L * L)) by ring.
        apply Rmult_le_compat_r; lra. }
  assert (Hlow : (1 - 4 * u) * (1 - 4 * u) * (q * q) <= p).
  { subst p q. nra. }
  assert (Hhigh : q <= (1 + 4 * u) * (1 + 4 * u) * (p * p)).
  { subst p q. nra. }
  assert (HN0 : 0 <= N) by (subst N; nra).
  assert (Hlo : (1 - 4 * u) * (1 - 4 * u) <= N).
  { apply Rmult_le_reg_r with (L * L); [exact HLL |].
    apply Rle_trans with (s * p); [| apply HN].
    apply Rle_trans with ((1 - 4 * u) * (1 - 4 * u) * (s * (q * q))).
    - apply Rmult_le_compat_l; [nra | apply HLs].
    - replace ((1 - 4 * u) * (1 - 4 * u) * (s * (q * q)))
        with (s * ((1 - 4 * u) * (1 - 4 * u) * (q * q))) by ring.
      apply Rmult_le_compat_l; lra. }
  assert (Hhi : N <= (1 + 4 * u) * (1 + 4 * u)).
  { apply Rmult_le_reg_r with (L * L); [exact HLL |].
    apply Rle_trans with (s * q); [apply HN |].
    apply Rle_trans with ((1 + 4 * u) * (1 + 4 * u) * (s * (p * p))).
    - replace ((1 + 4 * u) * (1 + 4 * u) * (s * (p * p)))
        with (s * ((1 + 4 * u) * (1 + 4 * u) * (p * p))) by ring.
      apply Rmult_le_compat_l; lra.
    - apply Rmult_le_compat_l; [nra | apply HLs]. }
  assert (Hsl : 1 - 4 * u <= sqrt N).
  { rewrite <- (sqrt_square (1 - 4 * u)) by lra.
    apply sqrt_le_1_alt. exact Hlo. }
  assert (Hsh : sqrt N <= 1 + 4 * u).
  { rewrite <- (sqrt_square (1 + 4 * u)) by lra.
    apply sqrt_le_1_alt. exact Hhi. }
  apply Rabs_le. lra.
Qed.

End Rounded.

(** ** Obstacle placement *)

Lemma valueF_finite (a : float) (s : bool) (m : positive) (e : Z) :
  Prim2SF a = S754_finite s m e ->
  valueF a = (if s then -1 else 1) * IZR (Z.pos m) * powerRZ 2 e.
Proof. intros E. unfold valueF. rewrite E. reflexivity. Qed.

Lemma createPipe_rnd_exact (H G width x : R) (w : World) :
  createPipe_rnd (fun a => a) H G width x w = createPipe H G width x w.
Proof. reflexivity. Qed.

(** C8.  For a canvas of height [H] and a gap [G <= 0.7 H], whatever the
    random source returns in [[0, 1)], a new obstacle has its [topHeight] in
    [[0.15 H, H - G - 0.15 H]] (in [[90, 360]] for [H = 600] and [G = 150],
    the gap [App] uses on a canvas 600 high), carries [G] in its [gap]
    field, and has [bottomY] assigned from [topHeight + G], so not above
    [topHeight] when [G] is not negative.  The sum is rounded: in the
    standard model of rounding [bottomY - topHeight] differs from [G] by at
    most the unit roundoff times [topHeight + G], and is [G] when the
    arithmetic is exact; on binary64 numbers [bottomY] is the floating-point
    sum of [topHeight] and the gap. *)
Theorem C8_obstacle_gap_placement
    (H G width x : R) (w : World) (rnd : R -> R) :
  G <= H * 0.7 ->
  0 <= randomSource w (randomCount w) < 1 ->
  standard_model rnd ->
  let pipe := fst (createPipe H G width x w) in
  let rounded := fst (createPipe_rnd rnd H G width x w) in
  (H * 0.15 <= Pipe.topHeight pipe <= H - G - H * 0.15)
  /\ Pipe.gap pipe = G
  /\ (0 <= G -> Pipe.topHeight pipe <= Pipe.bottomY pipe)
  /\ (H = 600 -> G = 150 -> 90 <= Pipe.topHeight pipe <= 360)
  /\ PIPE_GAP 600 = 150
  /\ Pipe.gap rounded = G
  /\ Rabs (Pipe.bottomY rounded - Pipe.topHeight rounded - G)
     <= unit_roundoff * Rabs (Pipe.topHeight rounded + G)
  /\ createPipe_rnd (fun a => a) H G width x w = createPipe H G width x w
  /\ (forall h g wd xf r1 r2 : float,
        let p := createPipeF h g wd xf r1 r2 in
        PipeF.gap p = g
        /\ PipeF.bottomY p = (PipeF.topHeight p + g)%float).
Proof.
  intros HG Hr Hrnd pipe rounded. subst pipe rounded. cbn.
  set (r := randomSource w (randomCount w)) in *.
  split; [nra |].
  split; [reflexivity |].
  split; [intros; lra |].
  split; [intros -> ->; nra |].
  split; [unfold PIPE_GAP; rcmp; lra |].
  split; [reflexivity |].
  split.
  - match goal with
    | |- Rabs (rnd (?t + G) - ?t - G) <= _ =>
        replace (rnd (t + G) - t - G) with (rnd (t + G) - (t + G)) by ring;
        apply Hrnd
    end.
  - split; [reflexivity |]. intros h g wd xf r1 r2. split; reflexivity.
Qed.

Lemma C8_obstacle_gap_placement_witness :
  let w := sample false 50 (sampleBird 100 300 0 0) [] [] in
  let pipe := fst (createPipe 600 150 60 850 w) in
  let rounded :=
    fst (createPipe_rnd (fun a => a * (1 + unit_roundoff)) 600 150 60 850 w) in
  90 <= Pipe.topHeight pipe <= 360
  /\ Pipe.topHeight pipe <= Pipe.bottomY pipe
  /\ Rabs (Pipe.bottomY rounded - Pipe.topHeight rounded - 150)
     <= unit_roundoff * Rabs (Pipe.topHeight rounded + 150).
Proof.
  intros w pipe rounded.
  assert (HG : 150 <= 600 * 0.7) by lra.
  assert (Hr : 0 <= randomSource w (randomCount w) < 1) by (cbn; lra).
  pose proof (C8_obstacle_gap_placement 600 150 60 850 w
                (fun a => a * (1 + unit_roundoff)) HG Hr upward_is_standard)
    as T.
  cbv zeta in T.
  destruct T as (_ & _ & Hup & Hin & _ & _ & Hgap & _).
  split; [exact (Hin eq_refl eq_refl) |].
  split; [apply Hup; lra | exact Hgap].
Defined.

(** C8 as stated fails of the program: on binary64 numbers, for a canvas
    600 high, the gap 150 and the draw 0.17, the new obstacle has
    [topHeight] 135.9 and [bottomY] 285.9 (the nearest binary64 numbers),
    within the range, and [bottomY - topHeight] computes to
    149.99999999999997, not 150; as real numbers the two differ by
    [150 - 2 ^ -45]. *)
Lemma C8_counterexample :
  let pipe := createPipeF 600 150 60 850 0.17 0.5 in
  (150 <=? 600 * 0.7)%float = true
  /\ (0 <=? 0.17)%float = true /\ (0.17 <? 1)%float = true
  /\ PipeF.topHeight pipe = 135.9%float
  /\ PipeF.bottomY pipe = 285.9%float
  /\ PipeF.gap pipe = 150%float
  /\ (PipeF.bottomY pipe - PipeF.topHeight pipe)%float
     = 149.99999999999997%float
  /\ (PipeF.bottomY pipe - PipeF.topHeight pipe =? 150)%float = false
  /\ (600 * 0.15 <=? PipeF.topHeight pipe)%float = true
  /\ (PipeF.topHeight pipe <=? 600 - 150 - 600 * 0.15)%float = true
  /\ valueF (PipeF.gap pipe) = 150
  /\ valueF (PipeF.bottomY pipe) - valueF (PipeF.topHeight pipe)
     = 150 - / 2 ^ 45.
Proof.
  intros pipe.
  repeat (split; [vm_compute; reflexivity |]).
  assert (Ep : 2 ^ 44 = 17592186044416) by lra.
  split.
  - rewrite (valueF_finite _ false 5277655813324800 (-45))
      by (vm_compute; reflexivity).
    change (powerRZ 2 (-45)) with (/ 2 ^ 45).
    replace (2 ^ 45) with (2 * 2 ^ 44) by ring. rewrite Ep. lra.
  - rewrite (valueF_finite (PipeF.bottomY pipe) false 5029605990098534 (-44))
      by (vm_compute; reflexivity).
    rewrite (valueF_finite (PipeF.topHeight pipe) false 4781556166872269
               (-45)) by (vm_compute; reflexivity).
    change (powerRZ 2 (-44)) with (/ 2 ^ 44).
    change (powerRZ 2 (-45)) with (/ 2 ^ 45).
    replace (2 ^ 45) with (2 * 2 ^ 44) by ring. rewrite Ep. lra.
Qed.

(** ** The force of a gust on the bird *)

Lemma Bird_eq (a b : Bird.t) :
  Bird.x a = Bird.x b -> Bird.y a = Bird.y b ->
  Bird.radius a = Bird.radius b -> Bird.color a = Bird.color b ->
  Bird.vy a = Bird.vy b -> Bird.vx a = Bird.vx b ->
  Bird.rotation a = Bird.rotation b -> a = b.
Proof.
  destruct a, b. cbn. intros. subst. reflexivity.
Qed.

Lemma applyGustForce_pushed (bird : Bird.t) (gust : Gust.t) (deltaTime : R) :
  applyGustForce bird gust deltaTime
  = pushed (gustForceAt (Bird.pos bird) gust) deltaTime bird.
Proof.
  unfold applyGustForce, gustForceAt, pushed.
  destruct (Rltb_spec (distance (Bird.pos bird) (Gust.pos gust))
              (Gust.radius gust)) as [Hin | Hout].
  - rewrite Rleb_false by exact Hin.
    destruct bird. apply Bird_eq; cbn; try reflexivity; ring.
  - rewrite Rleb_true by lra.
    destruct bird. apply Bird_eq; cbn; try reflexivity; ring.
Qed.

Lemma pushed_pos (force : Vec.t) (deltaTime : R) (bird : Bird.t) :
  Bird.pos (pushed force deltaTime bird) = Bird.pos bird.
Proof. destruct bird. reflexivity. Qed.

Lemma gusts_superpose (deltaTime : R) (gusts : list Gust.t) (bird : Bird.t) :
  fold_left (fun b gust => applyGustForce b gust deltaTime) gusts bird
  = pushed (totalForceAt (Bird.pos bird) gusts) deltaTime bird.
Proof.
  revert bird. induction gusts as [| g gusts IH]; intros bird.
  - destruct bird. apply Bird_eq; cbn; try reflexivity; ring.
  - cbn [fold_left]. rewrite IH, applyGustForce_pushed, pushed_pos.
    unfold totalForceAt. destruct bird.
    apply Bird_eq; cbn; try reflexivity; ring.
Qed.

Lemma sqrt_sq_sum (a : R) : 0 <= a -> forall e, e = a * a -> sqrt e = a.
Proof. intros Ha e ->. apply sqrt_square. exact Ha. Qed.

(** The velocity after the motion part of [updateBird]: gravity and the
    gusts act on [vy], which is not damped; [vx] is damped by 0.98 after the
    gusts, unless a side wall zeroes it. *)
Lemma moveBird_velocity (W deltaTime : R) (gusts : list Gust.t)
    (bird : Bird.t) :
  let force := totalForceAt (Bird.pos bird) gusts in
  let bird' := moveBird W deltaTime gusts bird in
  Bird.vy bird' = Bird.vy bird + GRAVITY * deltaTime + Vec.y force * deltaTime
  /\ (Bird.vx bird' = (Bird.vx bird + Vec.x force * deltaTime) * 0.98
      \/ Bird.vx bird' = 0).
Proof.
  intros force bird'. subst bird'. unfold moveBird.
  rewrite gusts_superpose.
  replace (Bird.pos (Bird.with_vy (Bird.vy bird + GRAVITY * deltaTime) bird))
    with (Bird.pos bird) by (destruct bird; reflexivity).
  fold force. destruct bird. unfold pushed. cbn.
  destruct (_ <? _); cbn; destruct (_ >? _); cbn; split; auto; ring.
Qed.

(** C7.  What one gust adds to the bird's velocity in a tick is
    [gustForceAt] times [deltaTime]: nothing at distance [>= radius], and
    [magnitude * (1 - (d / radius)^2)] along [direction] inside; the gusts
    of a tick add up, on top of gravity in [updateBird].  For the gust at
    (400, 300) with radius 100, magnitude 1200 and direction (1, 0), a bird
    at (350, 300) gains [900 * deltaTime] of [vx], and a bird at (600, 300)
    gains nothing. *)
Theorem C7_gust_force_contribution
    (W : R) (bird : Bird.t) (gust : Gust.t) (gusts : list Gust.t)
    (deltaTime : R) :
  applyGustForce bird gust deltaTime
  = pushed (gustForceAt (Bird.pos bird) gust) deltaTime bird
  /\ fold_left (fun b g => applyGustForce b g deltaTime) gusts bird
     = pushed (totalForceAt (Bird.pos bird) gusts) deltaTime bird
  /\ Bird.vy (moveBird W deltaTime gusts bird)
     = Bird.vy bird + GRAVITY * deltaTime
       + Vec.y (totalForceAt (Bird.pos bird) gusts) * deltaTime
  /\ (forall vx vy : R,
        applyGustForce (sampleBird 350 300 vx vy) sampleGust deltaTime
        = sampleBird 350 300 (vx + 900 * deltaTime) vy)
  /\ (forall vx vy : R,
        applyGustForce (sampleBird 600 300 vx vy) sampleGust deltaTime
        = sampleBird 600 300 vx vy).
Proof.
  split; [apply applyGustForce_pushed |].
  split; [apply gusts_superpose |].
  split; [apply moveBird_velocity |].
  split; intros vx vy; unfold applyGustForce, distance; cbn.
  - rewrite (sqrt_sq_sum 50) by lra.
    rewrite Rltb_true by lra.
    apply Bird_eq; cbn; try reflexivity; lra.
  - rewrite (sqrt_sq_sum 200) by lra.
    rewrite Rltb_false by lra.
    reflexivity.
Qed.

(** ** The shape of the effects *)

Lemma createParticle_spec (x y : R) (color : string) (w : World) :
  createParticle x y color w
  = set_particlesRef
      (particlesRef w
       ++ [particleOf x y color (randomSource w) (randomCount w)])
      (set_randomCount (5 + randomCount w) w).
Proof. destruct w. reflexivity. Qed.

Lemma createParticles_spec (x y : R) (count : nat) (color : string)
    (w : World) :
  createParticles x y count color w
  = set_particlesRef
      (particlesRef w
       ++ burst x y count color (randomSource w) (randomCount w))
      (set_randomCount (5 * count + randomCount w) w).
Proof.
  revert w. induction count as [| n IH]; intros w.
  - destruct w. cbn. rewrite app_nil_r. reflexivity.
  - cbn [createParticles]. rewrite IH, createParticle_spec.
    destruct w. cbn [set_particlesRef set_randomCount particlesRef
                       randomSource randomCount burst].
    rewrite <- app_assoc. cbn [app].
    replace (5 * n + (5 + randomCount0))%nat
      with (5 * S n + randomCount0)%nat by lia.
    reflexivity.
Qed.

Arguments createParticles : simpl never.
Arguments burst : simpl never.

Lemma endRun_spec (x y : R) (w : World) :
  endRun x y w
  = set_particlesRef
      (particlesRef w ++ burst x y 10 "#FF0000" (randomSource w)
                           (randomCount w))
      (set_randomCount (50 + randomCount w)
         (set_shakeRef
            (Shake.mk (Shake.x (shakeRef w)) (Shake.y (shakeRef w))
               (Rmax (Shake.intensity (shakeRef w)) 15))
            (set_audio (Sound.mk 150 0.5 square :: audio w)
               (set_gameOver true w)))).
Proof.
  unfold endRun. rewrite createParticles_spec. destruct w. reflexivity.
Qed.

Lemma flap_spec (w : World) :
  flap w
  = set_particlesRef
      (particlesRef w
       ++ burst (Bird.x (birdRef w)) (Bird.y (birdRef w)) 3 "#FFD700"
            (randomSource w) (randomCount w))
      (set_randomCount (15 + randomCount w)
         (set_audio (Sound.mk 440 0.1 sine :: audio w)
            (set_birdRef (Bird.with_vy FLAP_POWER (birdRef w)) w))).
Proof.
  unfold flap. rewrite createParticles_spec.
  destruct w as [? ? ? ? ? ? ? ? ? ? ? ? ? ? ? ? ? ? bird ? ? ? ? ? ? ?].
  destruct bird. reflexivity.
Qed.

Lemma repeat_snoc_cons {A : Type} (a : A) (n : nat) (l : list A) :
  repeat a n ++ a :: l = a :: repeat a n ++ l.
Proof.
  induction n as [| n IH]; cbn; [reflexivity | rewrite IH; reflexivity].
Qed.

(** The callback of [updatePipes], as a function of the obstacle and of the
    state. *)
Lemma updatePipe_spec (W deltaTime : R) (pipe : Pipe.t) (w : World) :
  updatePipe W deltaTime pipe w
  = (scrollPipe W deltaTime (Bird.x (birdRef w)) pipe,
     if passesNow W deltaTime (Bird.x (birdRef w)) pipe then
       set_particlesRef
         (particlesRef w
          ++ burst (Pipe.x pipe - PIPE_SPEED W * deltaTime + Pipe.width pipe)
               (Pipe.topHeight pipe + Pipe.gap pipe / 2) 5 "#4CAF50"
               (randomSource w) (randomCount w))
         (set_randomCount (25 + randomCount w)
            (set_audio (Sound.mk 523 0.2 sine :: audio w)
               (set_score (score w + 1)%Z w)))
     else w).
Proof.
  unfold updatePipe, scrollPipe.
  fold (passesNow W deltaTime (Bird.x (birdRef w)) pipe).
  destruct (passesNow W deltaTime (Bird.x (birdRef w)) pipe).
  - rewrite createParticles_spec, orb_true_r. destruct w. reflexivity.
  - rewrite orb_false_r. reflexivity.
Qed.

Lemma forEach_updatePipe_spec (W deltaTime : R) (pipes : list Pipe.t)
    (w : World) :
  let birdX := Bird.x (birdRef w) in
  let n := passedNow W deltaTime birdX pipes in
  exists particles count,
    forEach (updatePipe W deltaTime) pipes w
    = (map (scrollPipe W deltaTime birdX) pipes,
       set_particlesRef particles
         (set_randomCount count
            (set_audio (repeat (Sound.mk 523 0.2 sine) n ++ audio w)
               (set_score (score w + Z.of_nat n)%Z w)))).
Proof.
  revert w. induction pipes as [| pipe pipes IH]; intros w birdX n.
  - exists (particlesRef w), (randomCount w). subst n. cbn.
    rewrite Z.add_0_r. destruct w. reflexivity.
  - cbn [forEach map]. subst n. unfold passedNow. cbn [filter].
    rewrite updatePipe_spec. fold birdX.
    destruct (passesNow W deltaTime birdX pipe) eqn:Hp.
    + match goal with
      | |- context [forEach _ pipes ?w1] =>
          destruct (IH w1) as (ps & rc & E)
      end.
      cbv zeta in E.
      replace (Bird.x (birdRef _)) with birdX in E
        by (subst birdX; destruct w; reflexivity).
      rewrite E. exists ps, rc. unfold passedNow.
      cbn [List.length repeat]. f_equal.
      destruct w. cbn. rewrite repeat_snoc_cons.
      f_equal. lia.
    + destruct (IH w) as (ps & rc & E).
      cbv zeta in E. fold birdX in E. rewrite E.
      exists ps, rc. reflexivity.
Qed.

Lemma forEach_updateCloud_spec (W H deltaTime : R) (clouds : list Cloud.t)
    (w : World) :
  exists clouds' count,
    forEach (updateCloud W H deltaTime) clouds w
    = (clouds', set_randomCount count w).
Proof.
  revert w. induction clouds as [| cloud clouds IH]; intros w.
  - exists [], (randomCount w). destruct w. reflexivity.
  - cbn [forEach]. unfold updateCloud at 1.
    destruct (_ <? _).
    + unfold Math_random.
      destruct (IH (set_randomCount (S (randomCount w)) w))
        as (cs & rc & E).
      rewrite E. eexists _, rc. destruct w. reflexivity.
    + destruct (IH w) as (cs & rc & E). rewrite E.
      eexists _, rc. reflexivity.
Qed.

Lemma updateScreenShake_spec (deltaTime : R) (w : World) :
  exists shake count,
    updateScreenShake deltaTime w
    = set_shakeRef shake (set_randomCount count w).
Proof.
  unfold updateScreenShake.
  destruct (_ >? _);
    [| exists (shakeRef w), (randomCount w); destruct w; reflexivity].
  unfold Math_random.
  destruct w. cbn. destruct (_ <? _); eexists _, _; reflexivity.
Qed.

(** The two updates that run in every state only touch the decoration:
    the shake, the clouds and the random counter. *)
Lemma ambient_spec (W H deltaTime : R) (w : World) :
  exists shake clouds count,
    updateClouds W H deltaTime (updateScreenShake deltaTime w)
    = set_shakeRef shake (set_cloudsRef clouds (set_randomCount count w)).
Proof.
  unfold updateClouds.
  destruct (updateScreenShake_spec deltaTime w) as (s & rc & ->).
  destruct (forEach_updateCloud_spec W H deltaTime
              (cloudsRef (set_shakeRef s (set_randomCount rc w)))
              (set_shakeRef s (set_randomCount rc w))) as (cs & rc' & ->).
  exists s, cs, rc'. destruct w. reflexivity.
Qed.

(** ** What leaves the energy and the gusts alone *)

Lemma keeps_endRun (x y : R) : keeps (endRun x y).
Proof. intros w. rewrite endRun_spec. destruct w. repeat split. Qed.

Lemma keeps_flap : keeps flap.
Proof. intros w. rewrite flap_spec. destruct w. repeat split. Qed.

Lemma keeps_compose (f g : World -> World) :
  keeps f -> keeps g -> keeps (fun w => g (f w)).
Proof.
  intros Hf Hg w.
  destruct (Hf w) as (f1 & f2 & f3 & f4 & f5).
  destruct (Hg (f w)) as (g1 & g2 & g3 & g4 & g5).
  repeat split; congruence.
Qed.

Lemma keeps_updateBird (W H deltaTime : R) : keeps (updateBird W H deltaTime).
Proof.
  intros w. unfold updateBird.
  destruct (gameOverRef w) eqn:Hover; [repeat split; exact Hover |].
  cbv zeta.
  set (bird := moveBird W deltaTime (gustsRef w) (birdRef w)).
  assert (Hset : keeps (set_birdRef bird))
    by (intros w0; destruct w0; repeat split).
  destruct (outOfBounds H bird).
  - pose proof (keeps_compose _ _ Hset
                  (keeps_endRun (Bird.x bird) (Bird.y bird)) w) as K.
    cbv beta in K. rewrite Hover in K. exact K.
  - pose proof (Hset w) as K. rewrite Hover in K. exact K.
Qed.

Lemma keeps_updatePipes (W H deltaTime : R) :
  keeps (updatePipes W H deltaTime).
Proof.
  intros w. unfold updatePipes.
  destruct (gameOverRef w) eqn:Hover; [repeat split; exact Hover |].
  destruct (forEach_updatePipe_spec W deltaTime (pipesRef w) w)
    as (ps & rc & ->).
  destruct w. cbn in Hover. cbn. destruct (_ <=? _); cbn.
  - destruct (existsb _ _); [rewrite endRun_spec |]; cbn; repeat split;
      exact Hover.
  - destruct (existsb _ _); [rewrite endRun_spec |]; cbn; repeat split;
      exact Hover.
Qed.

Lemma keeps_ambient (W H deltaTime : R) :
  keeps (fun w => updateClouds W H deltaTime (updateScreenShake deltaTime w)).
Proof.
  intros w. destruct (ambient_spec W H deltaTime w) as (s & c & rc & ->).
  destruct w. repeat split.
Qed.

Lemma keeps_updateGameTime (deltaTime : R) : keeps (updateGameTime deltaTime).
Proof.
  intros w. unfold updateGameTime.
  destruct (isGameRunningRef w) eqn:E; [| repeat split; exact E].
  destruct w. cbn in *. repeat split. exact E.
Qed.

Lemma keeps_updateParticles (deltaTime : R) :
  keeps (updateParticles deltaTime).
Proof. intros w. destruct w. repeat split. Qed.

(** The part of a running frame before the gusts decay. *)
Lemma keeps_frame_head (W H deltaTime : R) :
  keeps (fun w =>
           updatePipes W H deltaTime
             (updateBird W H deltaTime
                (updateGameTime deltaTime
                   (updateClouds W H deltaTime
                      (updateScreenShake deltaTime w))))).
Proof.
  apply (keeps_compose _ (updatePipes W H deltaTime));
    [| apply keeps_updatePipes].
  apply (keeps_compose _ (updateBird W H deltaTime));
    [| apply keeps_updateBird].
  apply (keeps_compose _ (updateGameTime deltaTime));
    [| apply keeps_updateGameTime].
  apply keeps_ambient.
Qed.

(** The end of a running frame: gusts decay, particles move, energy
    regenerates, the frame time is recorded. *)
Lemma frame_tail_energy_gusts (deltaTime currentTime : R) (w : World) :
  let w' :=
    set_lastTimeRef currentTime
      (updateWindEnergy deltaTime
         (updateParticles deltaTime (updateGusts deltaTime w))) in
  gustsRef w'
  = filter (fun gust => Gust.life gust >? 0)
      (map (updateGust deltaTime) (gustsRef w))
  /\ windEnergy w'
     = (if windEnergyRef w <? MAX_WIND_ENERGY
        then Rmin MAX_WIND_ENERGY (windEnergy w + WIND_REGEN_RATE * deltaTime)
        else windEnergy w).
Proof.
  destruct w. unfold updateWindEnergy, updateParticles, updateGusts. cbn.
  destruct (_ <? _); split; reflexivity.
Qed.

Lemma set_lastTimeRef_energy_gusts (currentTime : R) (w : World) :
  gustsRef (set_lastTimeRef currentTime w) = gustsRef w
  /\ windEnergy (set_lastTimeRef currentTime w) = windEnergy w.
Proof. destruct w. split; reflexivity. Qed.

(** The gusts and the energy after a frame. *)
Lemma gameLoop_energy_gusts (W H currentTime : R) (w : World) :
  let deltaTime := frameDelta currentTime w in
  let ticks :=
    (deltaTime >? 0) && (deltaTime <? 0.1) && isGameRunningRef w in
  let w' := gameLoop W H currentTime w in
  gustsRef w'
  = (if ticks
     then filter (fun gust => Gust.life gust >? 0)
            (map (updateGust deltaTime) (gustsRef w))
     else gustsRef w)
  /\ windEnergy w'
     = (if ticks && (windEnergyRef w <? MAX_WIND_ENERGY)
        then Rmin MAX_WIND_ENERGY
               (windEnergy w + WIND_REGEN_RATE * deltaTime)
        else windEnergy w).
Proof.
  intros deltaTime ticks w'. subst w' ticks. unfold gameLoop.
  fold deltaTime.
  destruct ((deltaTime >? 0) && (deltaTime <? 0.1)); cbn [andb];
    [| apply set_lastTimeRef_energy_gusts].
  pose proof (keeps_compose _ _ (keeps_ambient W H deltaTime)
                (keeps_updateGameTime deltaTime) w) as K.
  cbv beta in K. destruct K as (k1 & k2 & _ & k4 & _).
  rewrite k4.
  destruct (isGameRunningRef w); cbn [andb].
  - destruct (keeps_frame_head W H deltaTime w) as (h1 & h2 & h3 & _).
    rewrite <- h1, <- h2, <- h3.
    apply frame_tail_energy_gusts.
  - rewrite <- k1, <- k2. apply set_lastTimeRef_energy_gusts.
Qed.

(** ** Gusts as they are created *)

Lemma stroke_as_norm (a b : Vec.t) :
  distance a b = norm (Vec.mk (Vec.x b - Vec.x a) (Vec.y b - Vec.y a)).
Proof.
  unfold distance, norm. cbn. f_equal. ring.
Qed.

(** When the arithmetic is exact, a normalized vector has length 1. *)
Lemma normalize_unit (v : Vec.t) : 0 < norm v -> norm (normalize v) = 1.
Proof.
  intros Hpos. unfold normalize. fold (norm v).
  unfold Rgtb. rewrite Rltb_true by exact Hpos.
  unfold norm at 1. cbn.
  assert (Hsq : norm v * norm v = Vec.x v * Vec.x v + Vec.y v * Vec.y v).
  { unfold norm. apply sqrt_sqrt. nra. }
  replace (Vec.x v / norm v * (Vec.x v / norm v)
           + Vec.y v / norm v * (Vec.y v / norm v))
    with 1.
  - apply sqrt_1.
  - transitivity ((Vec.x v * Vec.x v + Vec.y v * Vec.y v)
                  / (norm v * norm v)).
    + rewrite <- Hsq. field. lra.
    + field. lra.
Qed.

(** What a successful [createGust] returns and does. *)
Lemma createGust_some (radius : R) (a b : Vec.t) (w w' : World)
    (g : Gust.t) :
  createGust radius a b w = (Some g, w') ->
  let cost := Rmin (distance a b * GUST_COST_PER_PIXEL) (windEnergyRef w) in
  20 <= distance a b
  /\ 10 <= cost
  /\ g = Gust.mk (Vec.x a) (Vec.y a)
           (normalize (Vec.mk (Vec.x b - Vec.x a) (Vec.y b - Vec.y a)))
           (Rmin (distance a b * 2) GUST_BASE_POWER) radius GUST_LIFE
           GUST_LIFE
  /\ windEnergy w' = Rmax 0 (windEnergy w - cost)
  /\ gustsRef w' = gustsRef w.
Proof.
  unfold createGust.
  destruct (Rltb_spec (distance a b) 20) as [| Hlen]; [discriminate |].
  destruct (Rltb_spec
              (Rmin (distance a b * GUST_COST_PER_PIXEL) (windEnergyRef w))
              10) as [| Hcost]; [discriminate |].
  unfold Math_random. rewrite createParticles_spec.
  intros E. inversion E; subst; clear E.
  destruct w. cbn in *. repeat split; lra.
Qed.

Lemma createGust_none (radius : R) (a b : Vec.t) (w w' : World) :
  createGust radius a b w = (None, w') -> w' = w.
Proof.
  unfold createGust.
  destruct (_ <? 20); [intros E; inversion E; reflexivity |].
  destruct (_ <? 10); [intros E; inversion E; reflexivity |].
  unfold Math_random. discriminate.
Qed.

Lemma created_gust_ok (radius : R) (a b : Vec.t) (w w' : World)
    (g : Gust.t) :
  createGust radius a b w = (Some g, w') -> gust_ok g.
Proof.
  intros E. destruct (createGust_some _ _ _ _ _ _ E) as (Hlen & _ & -> & _).
  unfold gust_ok. cbn [Gust.magnitude Gust.direction].
  split.
  { unfold GUST_BASE_POWER. unfold Rmin. destruct (Rle_dec _ _); lra. }
  assert (Hn : norm (normalize
                       (Vec.mk (Vec.x b - Vec.x a) (Vec.y b - Vec.y a))) = 1).
  { apply normalize_unit. rewrite <- stroke_as_norm. lra. }
  revert Hn. unfold norm.
  destruct (normalize _) as [dx dy]. cbn [Vec.x Vec.y]. intros Hn.
  assert (Hs : dx * dx + dy * dy = 1).
  { rewrite <- (sqrt_sqrt (dx * dx + dy * dy)) by nra.
    rewrite Hn. ring. }
  split; [nra |]. split; [nra |].
  intros E0. injection E0 as -> ->. lra.
Qed.

(** [pushGust] either changes nothing or debits the pool and appends one
    well-formed gust. *)
Lemma pushGust_cases (W : R) (a b : Vec.t) (w : World) :
  pushGust W a b w = w
  \/ exists g cost,
       gust_ok g /\ 10 <= cost
       /\ gustsRef (pushGust W a b w) = gustsRef w ++ [g]
       /\ windEnergy (pushGust W a b w) = Rmax 0 (windEnergy w - cost).
Proof.
  unfold pushGust.
  destruct (createGust (GUST_RADIUS W) a b w) as [[g |] w'] eqn:E.
  - right.
    destruct (createGust_some _ _ _ _ _ _ E) as (_ & Hc & _ & He & Hg).
    exists g, (Rmin (distance a b * GUST_COST_PER_PIXEL) (windEnergyRef w)).
    rewrite <- Hg, <- He. destruct w'. cbn.
    repeat split; try lra; try reflexivity;
      apply (created_gust_ok _ _ _ _ _ _ E).
  - left. apply (createGust_none _ _ _ _ _ E).
Qed.

Lemma updateGust_aged (deltaTime : R) (g : Gust.t) :
  0 <= deltaTime -> aged g (updateGust deltaTime g).
Proof.
  intros Hd. unfold aged. cbn. repeat split; try reflexivity. lra.
Qed.

Lemma aged_ok (g g' : Gust.t) : aged g g' -> gust_ok g -> gust_ok g'.
Proof.
  intros (_ & _ & Hd & Hm & _) Hok. unfold gust_ok.
  rewrite Hd, Hm. exact Hok.
Qed.

(** ** The energy and the gusts along a session *)

Lemma energy_ok_debit (e cost : R) :
  0 <= e <= MAX_WIND_ENERGY -> 10 <= cost ->
  0 <= Rmax 0 (e - cost) <= MAX_WIND_ENERGY.
Proof.
  unfold MAX_WIND_ENERGY. intros He Hc. unfold Rmax.
  destruct (Rle_dec _ _); lra.
Qed.

Lemma energy_ok_regen (e deltaTime : R) :
  0 <= e <= MAX_WIND_ENERGY -> 0 < deltaTime ->
  0 <= Rmin MAX_WIND_ENERGY (e + WIND_REGEN_RATE * deltaTime)
    <= MAX_WIND_ENERGY.
Proof.
  unfold MAX_WIND_ENERGY, WIND_REGEN_RATE. intros He Hd. unfold Rmin.
  destruct (Rle_dec _ _); lra.
Qed.

Lemma pool_ok_same (w w' : World) :
  windEnergy w' = windEnergy w -> gustsRef w' = gustsRef w ->
  (energy_ok w -> energy_ok w')
  /\ (Forall gust_ok (gustsRef w) -> Forall gust_ok (gustsRef w')).
Proof.
  unfold energy_ok. intros -> ->. auto.
Qed.

Lemma pool_keeps (f : World -> World) (w : World) :
  keeps f ->
  (energy_ok w -> energy_ok (f w))
  /\ (Forall gust_ok (gustsRef w) -> Forall gust_ok (gustsRef (f w))).
Proof.
  intros K. destruct (K w) as (k1 & k2 & _). apply pool_ok_same; assumption.
Qed.

Lemma keeps_startDrawing (pos : Vec.t) : keeps (startDrawing pos).
Proof. intros w. destruct w. repeat split. Qed.

Lemma keeps_stopDrawing : keeps stopDrawing.
Proof. intros w. destruct w. repeat split. Qed.

Lemma keeps_set_drawCurrentRef (v : option Vec.t) :
  keeps (set_drawCurrentRef v).
Proof. intros w. destruct w. repeat split. Qed.

Lemma pool_pushGust (W : R) (a b : Vec.t) (w : World) :
  (energy_ok w -> energy_ok (pushGust W a b w))
  /\ (Forall gust_ok (gustsRef w)
      -> Forall gust_ok (gustsRef (pushGust W a b w))).
Proof.
  destruct (pushGust_cases W a b w)
    as [-> | (g & cost & Hg & Hc & Egs & Een)]; [auto |].
  unfold energy_ok. rewrite Egs, Een. split.
  - intros He. apply energy_ok_debit; assumption.
  - intros Hall. apply Forall_app. split; [assumption |].
    constructor; [assumption | constructor].
Qed.

Lemma pool_stop_pushGust (W : R) (a b : Vec.t) (w : World) :
  (energy_ok w -> energy_ok (stopDrawing (pushGust W a b w)))
  /\ (Forall gust_ok (gustsRef w)
      -> Forall gust_ok (gustsRef (stopDrawing (pushGust W a b w)))).
Proof.
  destruct (pool_pushGust W a b w) as [He Hg].
  destruct (pool_keeps stopDrawing (pushGust W a b w) keeps_stopDrawing)
    as [He' Hg'].
  split; auto.
Qed.

Lemma pool_handleCanvasClick (W H : R) (w : World) :
  (energy_ok w -> energy_ok (handleCanvasClick W H w))
  /\ (Forall gust_ok (gustsRef w)
      -> Forall gust_ok (gustsRef (handleCanvasClick W H w))).
Proof.
  unfold handleCanvasClick, flap, energy_ok, MAX_WIND_ENERGY.
  destruct w. cbn.
  destruct isDrawingSeen0; [auto |].
  destruct gameOverRef0; cbn.
  - split; intros; [lra | constructor].
  - destruct isGameRunningRef0; cbn; rewrite createParticles_spec; cbn;
      auto.
Qed.

Lemma pool_gameLoop (W H currentTime : R) (w : World) :
  (energy_ok w -> energy_ok (gameLoop W H currentTime w))
  /\ (Forall gust_ok (gustsRef w)
      -> Forall gust_ok (gustsRef (gameLoop W H currentTime w))).
Proof.
  destruct (gameLoop_energy_gusts W H currentTime w) as [Eg Ee].
  unfold energy_ok. rewrite Eg, Ee. clear Eg Ee.
  set (deltaTime := frameDelta currentTime w).
  unfold Rgtb.
  destruct (Rltb_spec 0 deltaTime) as [Hpos |]; cbn [andb]; [| auto].
  destruct (deltaTime <? 0.1); cbn [andb]; [| auto].
  destruct (isGameRunningRef w); cbn [andb]; [| auto].
  split.
  - intros He. destruct (_ <? _); [| exact He].
    apply energy_ok_regen; assumption.
  - intros Hall. apply Forall_forall. intros g' Hin.
    apply filter_In in Hin. destruct Hin as [Hin _].
    apply in_map_iff in Hin. destruct Hin as (g & <- & Hin).
    apply (aged_ok g); [apply updateGust_aged; lra |].
    rewrite Forall_forall in Hall. apply Hall. exact Hin.
Qed.

Lemma keeps_commit_pool (w : World) :
  windEnergy (commit w) = windEnergy w /\ gustsRef (commit w) = gustsRef w.
Proof.
  unfold commit. destruct w. cbn. destruct (_ <? _)%Z; split; reflexivity.
Qed.

Lemma pool_flap_unless_over (w : World) :
  (energy_ok w -> energy_ok (if negb (gameOverRef w) then flap w else w))
  /\ (Forall gust_ok (gustsRef w)
      -> Forall gust_ok
           (gustsRef (if negb (gameOverRef w) then flap w else w))).
Proof.
  destruct (negb (gameOverRef w)); [apply pool_keeps, keeps_flap | auto].
Qed.

Lemma pool_step (W H : R) (w : World) (e : Event) :
  (energy_ok w -> energy_ok (step W H w e))
  /\ (Forall gust_ok (gustsRef w) -> Forall gust_ok (gustsRef (step W H w e))).
Proof.
  destruct e; cbn [step].
  - apply pool_gameLoop.
  - destruct (keeps_commit_pool w). apply pool_ok_same; assumption.
  - apply pool_handleCanvasClick.
  - unfold handleMouseDown.
    destruct (negb (isGameRunningRef w) || gameOverRef w); [auto |].
    apply pool_keeps, keeps_startDrawing.
  - unfold handleMouseMove.
    destruct (isDrawingSeen w); [| auto].
    destruct (drawStartRef w); [| auto].
    apply pool_keeps, keeps_set_drawCurrentRef.
  - unfold handleMouseUp.
    destruct (isDrawingSeen w); [| auto].
    destruct (drawStartRef w) as [a |]; [| auto].
    destruct (drawCurrentRef w) as [b |]; [| auto].
    apply pool_stop_pushGust.
  - unfold handleTouchStart.
    destruct (negb (isGameRunningRef w) || gameOverRef w).
    + apply pool_handleCanvasClick.
    + apply pool_keeps, keeps_startDrawing.
  - unfold handleTouchMove.
    destruct (isDrawingSeen w); [| auto].
    destruct (drawStartRef w); [| auto].
    apply pool_keeps, keeps_set_drawCurrentRef.
  - unfold handleTouchEnd.
    destruct (negb (isGameRunningRef w)); [auto |].
    destruct (isDrawingSeen w); [| apply pool_flap_unless_over].
    destruct (drawStartRef w) as [a |]; [| apply pool_flap_unless_over].
    destruct (drawCurrentRef w) as [b |]; [| apply pool_flap_unless_over].
    cbv zeta. destruct (_ >? 20).
    + apply pool_stop_pushGust.
    + destruct (pool_flap_unless_over w) as [He Hg].
      destruct (pool_keeps stopDrawing
                  (if negb (gameOverRef w) then flap w else w)
                  keeps_stopDrawing) as [He' Hg'].
      split; auto.
Qed.

Lemma energy_ok_run (W H : R) (es : list Event) (w : World) :
  energy_ok w -> energy_ok (run W H es w).
Proof.
  revert w. induction es as [| e es IH]; intros w Hw; [exact Hw |].
  cbn [run fold_left]. apply IH. apply pool_step. exact Hw.
Qed.

Lemma gust_ok_run (W H : R) (es : list Event) (w : World) :
  Forall gust_ok (gustsRef w) -> Forall gust_ok (gustsRef (run W H es w)).
Proof.
  revert w. induction es as [| e es IH]; intros w Hw; [exact Hw |].
  cbn [run fold_left]. apply IH. apply pool_step. exact Hw.
Qed.

(** C6.  From an energy within [[0, 100]], whatever the player and the frame
    clock do (gust creations debit [min (strokeLength * 0.5) energy],
    running frames add [15 * deltaTime] capped at 100, a restart refills),
    the energy stays within [[0, 100]]. *)
Theorem C6_energy_within_bounds (W H : R) (es : list Event) (w : World) :
  0 <= windEnergy w <= MAX_WIND_ENERGY ->
  0 <= windEnergy (run W H es w) <= MAX_WIND_ENERGY
  /\ (forall a b, 0 <= windEnergy (pushGust W a b w) <= MAX_WIND_ENERGY)
  /\ (forall deltaTime,
        0 < deltaTime ->
        0 <= windEnergy (updateWindEnergy deltaTime w) <= MAX_WIND_ENERGY).
Proof.
  intros Hw. split; [exact (energy_ok_run W H es w Hw) |]. split.
  - intros a b. exact (proj1 (pool_pushGust W a b w) Hw).
  - intros deltaTime Hd. unfold updateWindEnergy.
    destruct (_ <? _); [| exact Hw].
    destruct w. cbn in *. apply energy_ok_regen; assumption.
Qed.

Lemma C6_energy_within_bounds_witness :
  let w := initialWorld 800 600 (fun _ => 0.5) [] 0%Z in
  0 <= windEnergy w <= MAX_WIND_ENERGY
  /\ 0 <= windEnergy (run 800 600 sampleSession w) <= MAX_WIND_ENERGY.
Proof.
  intros w.
  assert (Hw : 0 <= windEnergy w <= MAX_WIND_ENERGY).
  { unfold MAX_WIND_ENERGY. cbn. lra. }
  split; [exact Hw |].
  exact (proj1 (C6_energy_within_bounds 800 600 sampleSession w Hw)).
Defined.

Lemma gameLoop_gusts_aged (W H currentTime : R) (w : World) :
  Forall (fun g' => exists g, In g (gustsRef w) /\ aged g g')
    (gustsRef (gameLoop W H currentTime w)).
Proof.
  destruct (gameLoop_energy_gusts W H currentTime w) as [-> _].
  set (deltaTime := frameDelta currentTime w).
  apply Forall_forall. intros g' Hin.
  unfold Rgtb in Hin.
  assert (Hsame : forall g : Gust.t, aged g g).
  { intros g. unfold aged. repeat split; try reflexivity; lra. }
  destruct (Rltb_spec 0 deltaTime) as [Hpos |]; cbn [andb] in Hin;
    [| exists g'; auto].
  destruct ((deltaTime <? 0.1) && isGameRunningRef w); [| exists g'; auto].
  apply filter_In in Hin. destruct Hin as [Hin _].
  apply in_map_iff in Hin. destruct Hin as (g & <- & Hin).
  exists g. split; [exact Hin | apply updateGust_aged; lra].
Qed.

(** C10.  In every state a session can reach, each active gust has a
    magnitude in [[40, 1200]] and a direction that is not the zero vector and
    has both components in [[-1, 1]], as every gust that [createGust]
    returns has: its stroke is at least 20 long and its direction is that
    stroke, normalized.  A frame keeps, for each gust it leaves active, the
    origin, direction, magnitude, radius and maximal life, and does not
    increase its life.  The length of a normalized vector is 1 up to
    rounding: with a rounding after every operation of [normalize], in the
    standard model, the length of the result is within four unit roundoffs
    of 1 for every vector but the zero vector, and it is the result of
    [normalize] when the arithmetic is exact. *)
Theorem C10_gusts_direction_and_magnitude
    (W H : R) (es : list Event) (source : nat -> R) (clouds : list Cloud.t)
    (best : Z) (currentTime : R) (rnd : R -> R) (vec : Vec.t) :
  standard_model rnd ->
  vec <> Vec.mk 0 0 ->
  let w := run W H es (initialWorld W H source clouds best) in
  Forall gust_ok (gustsRef w)
  /\ (forall radius a b w0 w1 g,
        createGust radius a b w0 = (Some g, w1) ->
        20 <= distance a b
        /\ gust_ok g
        /\ Gust.direction g
           = normalize (Vec.mk (Vec.x b - Vec.x a) (Vec.y b - Vec.y a)))
  /\ Forall (fun g' => exists g, In g (gustsRef w) /\ aged g g')
       (gustsRef (gameLoop W H currentTime w))
  /\ Rabs (norm (normalize_rnd rnd vec) - 1) <= 4 * unit_roundoff
  /\ normalize_rnd (fun a => a) vec = normalize vec.
Proof.
  intros Hrnd Hvec w.
  split.
  { apply gust_ok_run. constructor. }
  split.
  { intros radius a b w0 w1 g E.
    split; [apply (createGust_some _ _ _ _ _ _ E) |].
    split; [apply (created_gust_ok _ _ _ _ _ _ E) |].
    destruct (createGust_some _ _ _ _ _ _ E) as (_ & _ & -> & _).
    reflexivity. }
  split; [apply gameLoop_gusts_aged |].
  split; [| reflexivity].
  apply (normalize_rnd_length rnd unit_roundoff); [| exact Hrnd | exact Hvec].
  split; [apply Rlt_le |]; apply unit_roundoff_small.
Qed.

(** ** Scoring *)

Lemma passesNow_iff (W deltaTime birdX : R) (pipe : Pipe.t) :
  passesNow W deltaTime birdX pipe = true
  <-> Pipe.passed pipe = false
      /\ Pipe.x pipe - PIPE_SPEED W * deltaTime + Pipe.width pipe < birdX.
Proof.
  unfold passesNow. rewrite andb_true_iff, negb_true_iff.
  destruct (Rltb_spec
              (Pipe.x pipe - PIPE_SPEED W * deltaTime + Pipe.width pipe)
              birdX); intuition congruence.
Qed.

Lemma awards_passed (W : R) (ticks : list (R * R)) (pipe : Pipe.t) :
  Pipe.passed pipe = true -> awards W ticks pipe = 0%nat.
Proof.
  revert pipe. induction ticks as [| [deltaTime birdX] rest IH];
    intros pipe Hp; [reflexivity |].
  cbn [awards]. unfold passesNow at 1. rewrite Hp. cbn [negb andb].
  rewrite IH; [reflexivity |]. cbn. rewrite Hp. reflexivity.
Qed.

Lemma awards_once (W : R) (ticks : list (R * R)) (pipe : Pipe.t) :
  awards W ticks pipe
  = if negb (Pipe.passed pipe) && everBehind W ticks pipe then 1%nat
    else 0%nat.
Proof.
  revert pipe. induction ticks as [| [deltaTime birdX] rest IH];
    intros pipe.
  - cbn. rewrite andb_false_r. reflexivity.
  - destruct (Pipe.passed pipe) eqn:Hp.
    + rewrite awards_passed by exact Hp. reflexivity.
    + cbn [awards everBehind negb andb]. unfold passesNow at 1.
      rewrite Hp. cbn [negb andb].
      destruct (_ <? birdX) eqn:Hb; cbn [orb].
      * rewrite awards_passed; [reflexivity |].
        cbn. unfold passesNow. rewrite Hp, Hb. reflexivity.
      * rewrite IH. cbn. unfold passesNow. rewrite Hp, Hb. reflexivity.
Qed.

Lemma updatePipes_score_pipes (W H deltaTime : R) (w : World) :
  gameOverRef w = false ->
  let birdX := Bird.x (birdRef w) in
  score (updatePipes W H deltaTime w)
  = (score w + Z.of_nat (passedNow W deltaTime birdX (pipesRef w)))%Z
  /\ exists spawned,
       pipesRef (updatePipes W H deltaTime w)
       = filter (fun pipe => Pipe.x pipe >? - Pipe.width pipe)
           (map (scrollPipe W deltaTime birdX) (pipesRef w))
         ++ spawned
       /\ Forall (fun pipe => Pipe.passed pipe = false) spawned.
Proof.
  intros Hover birdX. unfold updatePipes. rewrite Hover.
  destruct (forEach_updatePipe_spec W deltaTime (pipesRef w) w)
    as (ps & rc & ->).
  fold birdX. destruct w. cbn. destruct (_ <=? _); cbn.
  - destruct (existsb _ _); [rewrite endRun_spec |]; cbn;
      (split; [reflexivity |]); eexists [_];
      (split; [reflexivity | repeat constructor]).
  - destruct (existsb _ _); [rewrite endRun_spec |]; cbn;
      (split; [reflexivity |]); exists [];
      (split; [rewrite app_nil_r; reflexivity | constructor]).
Qed.

(** C9.  In a tick [updatePipes] adds to the score exactly the number of
    obstacles that were not yet passed and whose trailing edge is now behind
    the bird, and marks each of them passed (new obstacles start unpassed).
    An obstacle that is passed stays passed and adds nothing; over any
    sequence of ticks an obstacle earns one point if it starts unpassed and
    its trailing edge is behind the bird at one of the ticks, and none
    otherwise. *)
Theorem C9_score_once_per_obstacle
    (W H deltaTime birdX : R) (w : World) (pipe : Pipe.t)
    (ticks : list (R * R)) :
  (score (updatePipes W H deltaTime w)
   = if gameOverRef w then score w
     else (score w
           + Z.of_nat (passedNow W deltaTime (Bird.x (birdRef w))
                         (pipesRef w)))%Z)
  /\ (gameOverRef w = false ->
      exists spawned,
        pipesRef (updatePipes W H deltaTime w)
        = filter (fun p => Pipe.x p >? - Pipe.width p)
            (map (scrollPipe W deltaTime (Bird.x (birdRef w))) (pipesRef w))
          ++ spawned
        /\ Forall (fun p => Pipe.passed p = false) spawned)
  /\ (passesNow W deltaTime birdX pipe = true
      <-> Pipe.passed pipe = false
          /\ Pipe.x pipe - PIPE_SPEED W * deltaTime + Pipe.width pipe
             < birdX)
  /\ Pipe.passed (scrollPipe W deltaTime birdX pipe)
     = (Pipe.passed pipe || passesNow W deltaTime birdX pipe)
  /\ (Pipe.passed pipe = true ->
      passesNow W deltaTime birdX pipe = false
      /\ awards W ticks pipe = 0%nat)
  /\ awards W ticks pipe
     = (if negb (Pipe.passed pipe) && everBehind W ticks pipe then 1%nat
        else 0%nat).
Proof.
  split.
  { destruct (gameOverRef w) eqn:Hover.
    - unfold updatePipes. rewrite Hover. reflexivity.
    - apply (updatePipes_score_pipes W H deltaTime w Hover). }
  split.
  { intros Hover. apply (updatePipes_score_pipes W H deltaTime w Hover). }
  split; [apply passesNow_iff |].
  split; [reflexivity |].
  split; [| apply awards_once].
  intros Hp. split; [| apply awards_passed; exact Hp].
  unfold passesNow. rewrite Hp. reflexivity.
Qed.

(** ** Frames after the run has ended *)

(** Once the game-over flag has reached its mirror, the bird and the
    obstacle updates of a frame return at once. *)
Lemma frame_head_over (W H deltaTime : R) (w : World) :
  gameOverRef w = true ->
  exists shake clouds count,
    updatePipes W H deltaTime
      (updateBird W H deltaTime
         (updateGameTime deltaTime
            (updateClouds W H deltaTime (updateScreenShake deltaTime w))))
    = updateGameTime deltaTime
        (set_shakeRef shake (set_cloudsRef clouds (set_randomCount count w))).
Proof.
  intros Hover.
  destruct (ambient_spec W H deltaTime w) as (s & c & rc & ->).
  exists s, c, rc.
  assert (G : gameOverRef
                (updateGameTime deltaTime
                   (set_shakeRef s (set_cloudsRef c (set_randomCount rc w))))
              = true).
  { unfold updateGameTime. destruct w. cbn in *.
    destruct isGameRunningRef0; exact Hover. }
  unfold updateBird. rewrite G. unfold updatePipes. rewrite G. reflexivity.
Qed.

(** What a frame leaves alone once the run is over, and what it does to the
    game time. *)
Lemma gameLoop_over (W H currentTime : R) (w : World) :
  gameOverRef w = true ->
  let w' := gameLoop W H currentTime w in
  birdRef w' = birdRef w
  /\ pipesRef w' = pipesRef w
  /\ nextPipeTimeRef w' = nextPipeTimeRef w
  /\ score w' = score w
  /\ gameOver w' = gameOver w
  /\ audio w' = audio w
  /\ gameTimeRef w'
     = (if (frameDelta currentTime w >? 0) && (frameDelta currentTime w <? 0.1)
           && isGameRunningRef w
        then gameTimeRef w + frameDelta currentTime w
        else gameTimeRef w).
Proof.
  intros Hover w'. subst w'. unfold gameLoop.
  set (deltaTime := frameDelta currentTime w).
  destruct ((deltaTime >? 0) && (deltaTime <? 0.1)); cbn [andb];
    [| destruct w; repeat split].
  pose proof (keeps_compose _ _ (keeps_ambient W H deltaTime)
                (keeps_updateGameTime deltaTime) w) as K.
  cbv beta in K. destruct K as (_ & _ & _ & k4 & _).
  rewrite k4.
  destruct (isGameRunningRef w) eqn:Hrun.
  - destruct (frame_head_over W H deltaTime w Hover) as (s & c & rc & ->).
    unfold updateWindEnergy, updateParticles, updateGusts, updateGameTime.
    destruct w. cbn in *. rewrite Hrun. cbn.
    destruct (_ <? _); cbn; repeat split.
  - destruct (ambient_spec W H deltaTime w) as (s & c & rc & ->).
    unfold updateGameTime. destruct w. cbn in *. rewrite Hrun. cbn.
    repeat split.
Qed.

Lemma sample_frameDelta (over : bool) (energy : R) (bird : Bird.t)
    (pipes : list Pipe.t) (gusts : list Gust.t) (currentTime : R) :
  frameDelta currentTime (sample over energy bird pipes gusts)
  = (currentTime - 1000) / 1000.
Proof.
  unfold frameDelta. cbn. rewrite truthy_true by lra. reflexivity.
Qed.

(** C1, as the code has it.  Once the run is over (the flag has reached
    its mirror), a frame leaves the bird, the obstacles, the spawn countdown,
    the score and the flag as they are, and adds no gust.  The gusts, the
    energy and the game time are not suspended: a frame with
    [0 < deltaTime < 0.1] ages every gust by [deltaTime] and drops the
    expired ones, regenerates the energy while its mirror is below 100, and
    advances the game time by [deltaTime]. *)
Theorem C1_over_suspends_bird_and_obstacles_only
    (W H currentTime : R) (w : World) :
  gameOverRef w = true ->
  let deltaTime := frameDelta currentTime w in
  let w' := gameLoop W H currentTime w in
  (birdRef w' = birdRef w
   /\ pipesRef w' = pipesRef w
   /\ nextPipeTimeRef w' = nextPipeTimeRef w
   /\ score w' = score w
   /\ gameOver w' = gameOver w)
  /\ Forall (fun g' => exists g, In g (gustsRef w) /\ aged g g') (gustsRef w')
  /\ (isGameRunningRef w = true -> 0 < deltaTime < 0.1 ->
      gustsRef w'
      = filter (fun gust => Gust.life gust >? 0)
          (map (updateGust deltaTime) (gustsRef w))
      /\ windEnergy w'
         = (if windEnergyRef w <? MAX_WIND_ENERGY
            then Rmin MAX_WIND_ENERGY
                   (windEnergy w + WIND_REGEN_RATE * deltaTime)
            else windEnergy w)
      /\ gameTimeRef w' = gameTimeRef w + deltaTime).
Proof.
  intros Hover deltaTime w'.
  destruct (gameLoop_over W H currentTime w Hover)
    as (Hb & Hp & Hn & Hs & Hg & _ & Ht).
  split; [auto |].
  split; [apply gameLoop_gusts_aged |].
  intros Hrun Hd.
  destruct (gameLoop_energy_gusts W H currentTime w) as [Egusts Eenergy].
  fold deltaTime in Egusts, Eenergy, Ht. fold w' in Egusts, Eenergy.
  unfold Rgtb in *.
  rewrite Hrun, (Rltb_true 0 deltaTime), (Rltb_true deltaTime 0.1)
    in Egusts, Eenergy, Ht by lra.
  cbn [andb] in *. auto.
Qed.

Lemma C1_over_suspends_bird_and_obstacles_only_witness :
  let w := sample true 50 (sampleBird 100 580 0 0) [samplePipe 400 false]
             [sampleGust] in
  gameOverRef w = true
  /\ birdRef (gameLoop 800 600 1016 w) = birdRef w
  /\ pipesRef (gameLoop 800 600 1016 w) = pipesRef w.
Proof.
  intros w.
  assert (Hover : gameOverRef w = true) by reflexivity.
  split; [exact Hover |].
  pose proof (C1_over_suspends_bird_and_obstacles_only 800 600 1016 w Hover)
    as T.
  cbv zeta in T. destruct T as ((Hb & Hp & _) & _).
  split; [exact Hb | exact Hp].
Defined.

(** C1 as stated fails: in the Over state a frame of 16 ms takes the gust's
    life from 1.2 to 1.184, the energy from 50 to 50.24 and the game time
    from 3 to 3.016. *)
Lemma C1_counterexample :
  let w := sample true 50 (sampleBird 100 580 0 0) [] [sampleGust] in
  let w' := gameLoop 800 600 1016 w in
  gameOver w = true /\ gameOverRef w = true
  /\ gustsRef w' = [Gust.mk 400 300 (Vec.mk 1 0) 1200 100 1.184 1.2]
  /\ windEnergy w' = 50.24
  /\ gameTimeRef w' = 3.016
  /\ ~ (gustsRef w' = gustsRef w
        /\ windEnergy w' = windEnergy w
        /\ gameTimeRef w' = gameTimeRef w).
Proof.
  intros w w'.
  assert (Hover : gameOverRef w = true) by reflexivity.
  destruct (gameLoop_over 800 600 1016 w Hover) as (_ & _ & _ & _ & _ & _ & Ht).
  destruct (gameLoop_energy_gusts 800 600 1016 w) as [Egusts Eenergy].
  fold w' in Egusts, Eenergy, Ht.
  assert (Etime : gameTimeRef w' = 3.016).
  { rewrite Ht. unfold w. rewrite sample_frameDelta. cbn. rcmp. cbn. lra. }
  assert (Een : windEnergy w' = 50.24).
  { rewrite Eenergy. unfold w. rewrite sample_frameDelta. cbn.
    unfold MAX_WIND_ENERGY, WIND_REGEN_RATE. rcmp. cbn. rcmp. lra. }
  assert (Egs : gustsRef w' = [Gust.mk 400 300 (Vec.mk 1 0) 1200 100 1.184 1.2]).
  { rewrite Egusts. unfold w. rewrite sample_frameDelta. cbn. rcmp. cbn.
    rcmp. unfold updateGust, sampleGust. cbn. do 2 f_equal. lra. }
  repeat split; try assumption.
  intros (_ & Hsame & _). rewrite Een in Hsame. cbn in Hsame. lra.
Qed.

(** ** The end of a run *)

Lemma outOfBounds_iff (H : R) (bird : Bird.t) :
  outOfBounds H bird = true
  <-> Bird.y bird < Bird.radius bird \/ Bird.y bird > H - Bird.radius bird.
Proof.
  unfold outOfBounds, Rgtb. rewrite orb_true_iff.
  destruct (Rltb_spec (Bird.y bird) (Bird.radius bird));
    destruct (Rltb_spec (H - Bird.radius bird) (Bird.y bird));
    intuition (try discriminate; try lra).
Qed.

Lemma commit_mirrors (w : World) :
  gameOverRef (commit w) = gameOver w /\ birdRef (commit w) = birdRef w.
Proof.
  unfold commit. destruct w. cbn. destruct (_ <? _)%Z; split; reflexivity.
Qed.

(** [updateBird] when the moved bird is out of bounds. *)
Lemma updateBird_out (W H deltaTime : R) (w : World) :
  gameOverRef w = false ->
  let bird := moveBird W deltaTime (gustsRef w) (birdRef w) in
  outOfBounds H bird = true ->
  updateBird W H deltaTime w
  = endRun (Bird.x bird) (Bird.y bird) (set_birdRef bird w).
Proof.
  intros Hover bird Hout. unfold updateBird. rewrite Hover. cbv zeta.
  fold bird. rewrite Hout. reflexivity.
Qed.

(** C3, as the code has it.  When the bird, moved by the tick, has
    [y < radius] or [y > canvasHeight - radius], the tick sets the game-over
    flag and plays the collision sound; the bird keeps the velocities the
    tick computed (they are not zeroed), and it is frozen from then on
    because, once the flag is mirrored, [updateBird] returns at once. *)
Theorem C3_out_of_bounds_ends_run
    (W H deltaTime : R) (w : World) :
  gameOverRef w = false ->
  let bird := moveBird W deltaTime (gustsRef w) (birdRef w) in
  Bird.y bird < Bird.radius bird \/ Bird.y bird > H - Bird.radius bird ->
  let w' := updateBird W H deltaTime w in
  gameOver w' = true
  /\ birdRef w' = bird
  /\ audio w' = Sound.mk 150 0.5 square :: audio w
  /\ (forall later, birdRef (updateBird W H later (commit w')) = bird).
Proof.
  intros Hover bird Hout w'.
  apply outOfBounds_iff in Hout.
  assert (E : w' = endRun (Bird.x bird) (Bird.y bird) (set_birdRef bird w))
    by (apply updateBird_out; assumption).
  rewrite endRun_spec in E.
  assert (P : gameOver w' = true /\ birdRef w' = bird
              /\ audio w' = Sound.mk 150 0.5 square :: audio w).
  { rewrite E. destruct w. repeat split. }
  destruct P as (Pg & Pb & Pa). repeat split; try assumption.
  intros later. destruct (commit_mirrors w') as [Cg Cb].
  unfold updateBird. rewrite Cg, Pg, Cb. exact Pb.
Qed.

Lemma sample_moveBird (vx : R) :
  0 <= vx <= 100 ->
  moveBird 800 0.016 [] (sampleBird 100 575 vx 400)
  = Bird.mk (100 + vx * 0.98 * 0.016) (575 + (400 + 800 * 0.016) * 0.016) 20
      "#FFD700" (400 + 800 * 0.016) (vx * 0.98)
      (Rmax (- PI / 3) (Rmin (PI / 2) ((400 + 800 * 0.016) * 0.003))).
Proof.
  intros Hvx.
  unfold moveBird, sampleBird, GRAVITY. cbn. rcmp. cbn. rcmp. reflexivity.
Qed.

Lemma C3_out_of_bounds_ends_run_witness :
  let w := sample false 50 (sampleBird 100 575 10 400) [] [] in
  gameOver (updateBird 800 600 0.016 w) = true
  /\ birdRef (updateBird 800 600 0.016 w)
     = moveBird 800 0.016 [] (sampleBird 100 575 10 400).
Proof.
  intros w.
  assert (Hover : gameOverRef w = false) by reflexivity.
  assert (Hout : let bird := moveBird 800 0.016 (gustsRef w) (birdRef w) in
                 Bird.y bird < Bird.radius bird
                 \/ Bird.y bird > 600 - Bird.radius bird).
  { cbn. rewrite sample_moveBird by lra. cbn. right. lra. }
  pose proof (C3_out_of_bounds_ends_run 800 600 0.016 w Hover Hout) as T.
  cbv zeta in T. destruct T as (Tg & Tb & _).
  split; [exact Tg | exact Tb].
Defined.

(** C3 as stated fails: a bird at [y = 575] falling at 400 and drifting at
    10 leaves the canvas in a tick of 16 ms; the run is flagged over, and the
    bird keeps [vx = 9.8] and [vy = 412.8]. *)
Lemma C3_counterexample :
  let w := sample false 50 (sampleBird 100 575 10 400) [] [] in
  let w' := updateBird 800 600 0.016 w in
  Bird.y (birdRef w') > 600 - Bird.radius (birdRef w')
  /\ gameOver w' = true
  /\ Bird.vx (birdRef w') = 9.8
  /\ Bird.vy (birdRef w') = 412.8
  /\ ~ (Bird.vx (birdRef w') = 0 /\ Bird.vy (birdRef w') = 0).
Proof.
  intros w w'.
  assert (E : w' = endRun (100 + 10 * 0.98 * 0.016)
                     (575 + (400 + 800 * 0.016) * 0.016)
                     (set_birdRef
                        (moveBird 800 0.016 [] (sampleBird 100 575 10 400))
                        w)).
  { subst w'. rewrite updateBird_out; try reflexivity.
    - cbn. rewrite sample_moveBird by lra. reflexivity.
    - cbn. rewrite sample_moveBird by lra. apply outOfBounds_iff. cbn.
      right. lra. }
  rewrite endRun_spec, sample_moveBird in E by lra. rewrite E. cbn.
  repeat split; lra.
Qed.

(** ** Two endings in one frame *)

Lemma forEach_updatePipe_none (W deltaTime : R) (pipes : list Pipe.t)
    (w : World) :
  passedNow W deltaTime (Bird.x (birdRef w)) pipes = 0%nat ->
  forEach (updatePipe W deltaTime) pipes w
  = (map (scrollPipe W deltaTime (Bird.x (birdRef w))) pipes, w).
Proof.
  induction pipes as [| pipe pipes IH]; intros Hnone; [reflexivity |].
  cbn [forEach map]. rewrite updatePipe_spec.
  unfold passedNow in Hnone. cbn [filter] in Hnone.
  destruct (passesNow W deltaTime (Bird.x (birdRef w)) pipe);
    [discriminate |].
  rewrite IH by exact Hnone. reflexivity.
Qed.

(** [updatePipes] when nothing is passed or spawned and the bird hits an
    obstacle. *)
Lemma updatePipes_collision (W H deltaTime : R) (w : World) :
  gameOverRef w = false ->
  passedNow W deltaTime (Bird.x (birdRef w)) (pipesRef w) = 0%nat ->
  0 < nextPipeTimeRef w - deltaTime ->
  let pipes :=
    filter (fun pipe => Pipe.x pipe >? - Pipe.width pipe)
      (map (scrollPipe W deltaTime (Bird.x (birdRef w))) (pipesRef w)) in
  existsb (checkCollision (birdRef w)) pipes = true ->
  updatePipes W H deltaTime w
  = endRun (Bird.x (birdRef w)) (Bird.y (birdRef w))
      (set_nextPipeTimeRef (nextPipeTimeRef w - deltaTime)
         (set_pipesRef pipes w)).
Proof.
  intros Hover Hnone Hnext pipes Hhit. unfold updatePipes.
  rewrite Hover, forEach_updatePipe_none by exact Hnone.
  fold pipes. destruct w. cbn in *. fold pipes.
  rewrite Rleb_false by lra. cbn.
  change (existsb (checkCollision birdRef0) pipes = true) in Hhit.
  rewrite Hhit. reflexivity.
Qed.

(** The end of a frame leaves the sounds and the flag alone and moves the
    particles. *)
Lemma frame_tail_effects (deltaTime currentTime : R) (w : World) :
  let w' :=
    set_lastTimeRef currentTime
      (updateWindEnergy deltaTime
         (updateParticles deltaTime (updateGusts deltaTime w))) in
  audio w' = audio w
  /\ gameOver w' = gameOver w
  /\ gameOverRef w' = gameOverRef w
  /\ particlesRef w'
     = filter (fun p => Particle.life p >? 0)
         (map (updateParticle deltaTime) (particlesRef w)).
Proof.
  destruct w. unfold updateWindEnergy, updateParticles, updateGusts. cbn.
  destruct (_ <? _); repeat split.
Qed.

Lemma burst_fresh (x y : R) (count : nat) (color : string)
    (source : nat -> R) (k : nat) :
  List.length (burst x y count color source k) = count
  /\ Forall (fun p => Particle.life p = 0.5 /\ Particle.color p = color)
       (burst x y count color source k).
Proof.
  revert k. induction count as [| n IH]; intros k.
  - split; [reflexivity | constructor].
  - change (burst x y (S n) color source k)
      with (particleOf x y color source k
            :: burst x y n color source (5 + k)).
    destruct (IH (5 + k)%nat) as [Hlen Hall]. split.
    + cbn [List.length]. rewrite Hlen. reflexivity.
    + constructor; [split; reflexivity | exact Hall].
Qed.

Lemma young_particles_survive (deltaTime : R) (ps : list Particle.t) :
  deltaTime < 0.5 ->
  Forall (fun p => Particle.life p = 0.5) ps ->
  List.length
    (filter (fun p => Particle.life p >? 0)
       (map (updateParticle deltaTime) ps))
  = List.length ps.
Proof.
  intros Hd Hall. induction Hall as [| p ps Hp Hall IH]; [reflexivity |].
  cbn [map filter].
  assert (Halive : (Particle.life (updateParticle deltaTime p) >? 0) = true).
  { unfold updateParticle. cbn [Particle.life]. unfold Rgtb.
    apply Rltb_true. lra. }
  rewrite Halive. cbn [List.length]. rewrite IH. reflexivity.
Qed.

Arguments updateBird : simpl never.
Arguments updatePipes : simpl never.
Arguments updateGusts : simpl never.
Arguments updateParticles : simpl never.
Arguments updateWindEnergy : simpl never.
Arguments moveBird : simpl never.
Arguments endRun : simpl never.

(** C4 fails on this frame.  Before it the run is not over and the bird
    touches no obstacle; during it the bird leaves the canvas and
    [updateBird] ends the run, and then, the mirror of the flag being
    unchanged until React commits, [updatePipes] scrolls an obstacle into the
    bird and ends the run again: the collision sound is requested twice and
    twenty red particles are created. *)
Lemma C4_game_over_fires_twice_in_one_frame :
  let w := sample false 50 (sampleBird 100 575 0 400) [samplePipe 122 false]
             [] in
  let w' := gameLoop 800 600 1016 w in
  gameOver w = false
  /\ gameOverRef w = false
  /\ existsb (checkCollision (birdRef w)) (pipesRef w) = false
  /\ gameOver w' = true
  /\ gameOverRef w' = false
  /\ audio w' = [Sound.mk 150 0.5 square; Sound.mk 150 0.5 square]
  /\ List.length (particlesRef w') = 20%nat.
Proof.
  intros w w'.
  assert (Hd : frameDelta 1016 w = 0.016)
    by (unfold w; rewrite sample_frameDelta; lra).
  assert (Hbefore : existsb (checkCollision (birdRef w)) (pipesRef w) = false).
  { unfold checkCollision. cbn. rcmp. reflexivity. }
  assert (Ha : updateGameTime 0.016
                 (updateClouds 800 600 0.016 (updateScreenShake 0.016 w))
               = set_gameTimeRef (3 + 0.016) w).
  { unfold updateScreenShake. cbn. rcmp. reflexivity. }
  assert (Hb : updateBird 800 600 0.016 (set_gameTimeRef (3 + 0.016) w)
               = endRun (100 + 0 * 0.98 * 0.016)
                   (575 + (400 + 800 * 0.016) * 0.016)
                   (set_birdRef (moveBird 800 0.016 [] (sampleBird 100 575 0 400))
                      (set_gameTimeRef (3 + 0.016) w))).
  { rewrite updateBird_out; try reflexivity.
    - cbn. rewrite sample_moveBird by lra. reflexivity.
    - cbn. rewrite sample_moveBird by lra. apply outOfBounds_iff. cbn.
      right. lra. }
  assert (E : w'
              = set_lastTimeRef 1016
                  (updateWindEnergy 0.016
                     (updateParticles 0.016
                        (updateGusts 0.016
                           (updatePipes 800 600 0.016
                              (updateBird 800 600 0.016
                                 (set_gameTimeRef (3 + 0.016) w))))))).
  { subst w'. unfold gameLoop. rewrite Hd. rcmp. cbn [andb]. rewrite Ha.
    reflexivity. }
  rewrite Hb in E. clear Ha Hb.
  rewrite updatePipes_collision in E.
  - rewrite !endRun_spec, sample_moveBird in E by lra. cbn in E.
    match type of E with
    | w' = set_lastTimeRef _ (updateWindEnergy _ (updateParticles _
             (updateGusts _ ?w3))) =>
        destruct (frame_tail_effects 0.016 1016 w3) as (Ta & Tg & Tm & Tp)
    end.
    rewrite <- E in Ta, Tg, Tm, Tp. cbn in Ta, Tg, Tm, Tp.
    repeat split; try assumption; try reflexivity.
    rewrite Tp. rewrite young_particles_survive; [| lra |].
    + rewrite length_app.
      rewrite (proj1 (burst_fresh _ _ _ _ _ _)).
      rewrite (proj1 (burst_fresh _ _ _ _ _ _)). reflexivity.
    + apply Forall_app. split.
      * eapply Forall_impl; [| apply burst_fresh]. cbn. tauto.
      * eapply Forall_impl; [| apply burst_fresh]. cbn. tauto.
  - rewrite endRun_spec. reflexivity.
  - rewrite endRun_spec, sample_moveBird by lra.
    unfold passedNow, passesNow, PIPE_SPEED. cbn. rcmp. reflexivity.
  - rewrite endRun_spec. cbn. lra.
  - rewrite endRun_spec, sample_moveBird by lra.
    unfold scrollPipe, passesNow, checkCollision, PIPE_SPEED. cbn. rcmp.
    cbn. rcmp. reflexivity.
Qed.

(** ** The run has been started whenever it is over *)

Lemma flags_step_refl (w : World) : flags_step w w.
Proof. unfold flags_step. auto. Qed.

Lemma flags_step_trans (w1 w2 w3 : World) :
  flags_step w1 w2 -> flags_step w2 w3 -> flags_step w1 w3.
Proof.
  unfold flags_step. intros (a1 & a2 & a3 & a4) (b1 & b2 & b3 & b4).
  repeat split; try congruence.
  destruct b4 as [b4 | b4]; [rewrite b4; exact a4 | right; exact b4].
Qed.

Lemma flags_endRun (x y : R) (w : World) : flags_step w (endRun x y w).
Proof.
  rewrite endRun_spec. destruct w. unfold flags_step. cbn. auto.
Qed.

Lemma flags_updateBird (W H deltaTime : R) (w : World) :
  flags_step w (updateBird W H deltaTime w).
Proof.
  unfold updateBird. destruct (gameOverRef w); [apply flags_step_refl |].
  cbv zeta. set (bird := moveBird W deltaTime (gustsRef w) (birdRef w)).
  assert (Hset : flags_step w (set_birdRef bird w))
    by (destruct w; unfold flags_step; cbn; auto).
  destruct (outOfBounds H bird); [| exact Hset].
  apply (flags_step_trans _ _ _ Hset), flags_endRun.
Qed.

Lemma flags_updatePipes (W H deltaTime : R) (w : World) :
  flags_step w (updatePipes W H deltaTime w).
Proof.
  unfold updatePipes. destruct (gameOverRef w); [apply flags_step_refl |].
  destruct (forEach_updatePipe_spec W deltaTime (pipesRef w) w)
    as (ps & rc & ->).
  destruct w. unfold flags_step. cbn. destruct (_ <=? _); cbn.
  - destruct (existsb _ _); [rewrite endRun_spec |]; cbn; auto.
  - destruct (existsb _ _); [rewrite endRun_spec |]; cbn; auto.
Qed.

Lemma flags_frame_head (W H deltaTime : R) (w : World) :
  flags_step w
    (updateGameTime deltaTime
       (updateClouds W H deltaTime (updateScreenShake deltaTime w))).
Proof.
  destruct (ambient_spec W H deltaTime w) as (s & c & rc & ->).
  unfold updateGameTime. destruct w. unfold flags_step. cbn.
  destruct isGameRunningRef0; cbn; auto.
Qed.

Lemma flags_frame_tail (deltaTime currentTime : R) (w : World) :
  flags_step w
    (set_lastTimeRef currentTime
       (updateWindEnergy deltaTime
          (updateParticles deltaTime (updateGusts deltaTime w)))).
Proof.
  unfold updateWindEnergy, updateParticles, updateGusts.
  destruct w. unfold flags_step. cbn. destruct (_ <? _); cbn; auto.
Qed.

(** A frame can only raise the game-over flag, and only in a started run. *)
Lemma flags_gameLoop (W H currentTime : R) (w : World) :
  flags_step w (gameLoop W H currentTime w)
  /\ (isGameRunningRef w = false ->
      gameOver (gameLoop W H currentTime w) = gameOver w).
Proof.
  unfold gameLoop. set (deltaTime := frameDelta currentTime w).
  destruct ((deltaTime >? 0) && (deltaTime <? 0.1)).
  - pose proof (flags_frame_head W H deltaTime w) as Hh.
    set (w1 := updateGameTime deltaTime
                 (updateClouds W H deltaTime
                    (updateScreenShake deltaTime w))) in *.
    assert (Hr : isGameRunningRef w1 = isGameRunningRef w)
      by (apply Hh).
    rewrite Hr. destruct (isGameRunningRef w) eqn:Hrun.
    + split; [| discriminate].
      apply (flags_step_trans _ _ _ Hh).
      apply (flags_step_trans _ _ _ (flags_updateBird W H deltaTime w1)).
      apply (flags_step_trans _ _ _
               (flags_updatePipes W H deltaTime
                  (updateBird W H deltaTime w1))).
      apply flags_frame_tail.
    + assert (Hg : gameOver w1 = gameOver w).
      { subst w1.
        destruct (ambient_spec W H deltaTime w) as (s & c & rc & ->).
        unfold updateGameTime. destruct w. cbn in *. rewrite Hrun.
        reflexivity. }
      destruct Hh as (h1 & h2 & h3 & _).
      destruct w1. unfold flags_step. cbn in *.
      repeat split; intros; try congruence. left. exact Hg.
  - destruct w. unfold flags_step. cbn. repeat split; auto.
Qed.

Lemma flags_pushGust (W : R) (a b : Vec.t) (w : World) :
  flags_step w (pushGust W a b w).
Proof.
  unfold pushGust, createGust.
  destruct (_ <? 20); [apply flags_step_refl |].
  destruct (_ <? 10); [apply flags_step_refl |].
  unfold Math_random. rewrite createParticles_spec.
  destruct w. unfold flags_step. cbn. auto.
Qed.

Lemma flags_flap (w : World) : flags_step w (flap w).
Proof.
  rewrite flap_spec. destruct w. unfold flags_step. cbn. auto.
Qed.

Lemma flags_stopDrawing (w : World) : flags_step w (stopDrawing w).
Proof. destruct w. unfold flags_step. cbn. auto. Qed.

Lemma flags_startDrawing (pos : Vec.t) (w : World) :
  flags_step w (startDrawing pos w).
Proof. destruct w. unfold flags_step. cbn. auto. Qed.

(** A step that can only raise the flag, and leaves it alone unless the run
    is started, keeps [flags_ok]. *)
Lemma flags_ok_step_rel (w w' : World) :
  flags_step w w' ->
  (isGameRunningRef w = false -> gameOver w' = gameOver w) ->
  flags_ok w -> flags_ok w'.
Proof.
  unfold flags_step, flags_ok.
  intros (s1 & s2 & s3 & s4) Hidle (i1 & i2 & i3).
  rewrite s1, s2, s3. repeat split; try assumption.
  intros Hover. destruct (isGameRunningRef w) eqn:Hrun.
  - apply i1. reflexivity.
  - apply i2. rewrite <- Hidle; [exact Hover | reflexivity].
Qed.

Lemma flags_ok_unchanged (w w' : World) :
  flags_step w w' -> gameOver w' = gameOver w -> flags_ok w -> flags_ok w'.
Proof.
  intros Hs Hg. apply flags_ok_step_rel; [exact Hs | intros _; exact Hg].
Qed.

Ltac flags_tac :=
  unfold flags_ok in *; cbn in *; rewrite ?createParticles_spec; cbn;
  try assumption; try (intuition congruence).

Lemma flags_ok_flap_unless_over (w : World) :
  flags_ok w -> flags_ok (if negb (gameOverRef w) then flap w else w).
Proof.
  intros Hok. unfold flap. destruct w. cbn in *.
  destruct gameOverRef0; flags_tac.
Qed.

Lemma flags_ok_pushGust (W : R) (a b : Vec.t) (w : World) :
  flags_ok w -> flags_ok (stopDrawing (pushGust W a b w)).
Proof.
  intros Hok. unfold pushGust, createGust, Math_random.
  destruct (_ <? 20); [destruct w; flags_tac |].
  destruct (_ <? 10); [destruct w; flags_tac |].
  destruct w. flags_tac.
Qed.

Lemma flags_ok_handleCanvasClick (W H : R) (w : World) :
  flags_ok w -> flags_ok (handleCanvasClick W H w).
Proof.
  intros Hok. unfold handleCanvasClick, flap. destruct w. cbn in *.
  destruct isDrawingSeen0; [exact Hok |].
  destruct gameOverRef0; [flags_tac |].
  destruct isGameRunningRef0; flags_tac.
Qed.

Lemma flags_ok_step (W H : R) (w : World) (e : Event) :
  flags_ok w -> flags_ok (step W H w e).
Proof.
  intros Hok. destruct e; cbn [step].
  - destruct (flags_gameLoop W H currentTime w) as [Hs Hidle].
    exact (flags_ok_step_rel _ _ Hs Hidle Hok).
  - unfold commit. destruct w. cbn in *.
    destruct (_ <? _)%Z; flags_tac.
  - apply flags_ok_handleCanvasClick. exact Hok.
  - unfold handleMouseDown.
    destruct (negb (isGameRunningRef w) || gameOverRef w); [exact Hok |].
    destruct w. flags_tac.
  - unfold handleMouseMove.
    destruct (isDrawingSeen w); [| exact Hok].
    destruct (drawStartRef w); [| exact Hok].
    destruct w. flags_tac.
  - unfold handleMouseUp.
    destruct (isDrawingSeen w); [| exact Hok].
    destruct (drawStartRef w) as [a |]; [| exact Hok].
    destruct (drawCurrentRef w) as [b |]; [| exact Hok].
    apply flags_ok_pushGust. exact Hok.
  - unfold handleTouchStart.
    destruct (negb (isGameRunningRef w) || gameOverRef w).
    + apply flags_ok_handleCanvasClick. exact Hok.
    + destruct w. flags_tac.
  - unfold handleTouchMove.
    destruct (isDrawingSeen w); [| exact Hok].
    destruct (drawStartRef w); [| exact Hok].
    destruct w. flags_tac.
  - unfold handleTouchEnd.
    destruct (negb (isGameRunningRef w)); [exact Hok |].
    destruct (isDrawingSeen w);
      [| apply flags_ok_flap_unless_over; exact Hok].
    destruct (drawStartRef w) as [a |];
      [| apply flags_ok_flap_unless_over; exact Hok].
    destruct (drawCurrentRef w) as [b |];
      [| apply flags_ok_flap_unless_over; exact Hok].
    cbv zeta. destruct (_ >? 20).
    + apply flags_ok_pushGust. exact Hok.
    + pose proof (flags_ok_flap_unless_over w Hok) as Hf.
      destruct (if negb (gameOverRef w) then flap w else w). flags_tac.
Qed.

(** In every state of a session, a run that is over has been started: its
    frames keep running the gust, particle and energy updates. *)
Lemma over_run_is_started (W H : R) (es : list Event) (source : nat -> R)
    (clouds : list Cloud.t) (best : Z) :
  flags_ok (run W H es (initialWorld W H source clouds best)).
Proof.
  assert (Hrun : forall w, flags_ok w -> flags_ok (run W H es w)).
  { induction es as [| e es IH]; intros w Hw; [exact Hw |].
    cbn [run fold_left]. apply IH. apply flags_ok_step. exact Hw. }
  apply Hrun. unfold flags_ok. cbn. intuition discriminate.
Qed.


(** ** A gust as a session makes it

    A drag of 100 pixels released in a running game with 80 of energy:
    the gust enters the collection and 50 is debited. *)
Lemma sample_drag_creates_gust :
  let w :=
    set_isDrawingSeen true
      (set_drawStartRef (Some (Vec.mk 100 100))
         (set_drawCurrentRef (Some (Vec.mk 200 100))
            (sample false 80 (sampleBird 100 300 0 0) [] []))) in
  gustsRef (handleMouseUp 800 w)
  = [Gust.mk 100 100 (Vec.mk 1 0) 200 100 1.2 1.2]
  /\ windEnergy (handleMouseUp 800 w) = 30.
Proof.
  intros w. subst w. unfold handleMouseUp, sample. cbn.
  unfold pushGust, createGust, distance, normalize, Math_random,
    GUST_COST_PER_PIXEL, GUST_BASE_POWER, GUST_RADIUS, GUST_LIFE.
  cbn. rewrite !(sqrt_sq_sum 100) by lra. rcmp. cbn.
  rewrite createParticles_spec. cbn. rcmp.
  split; [| lra]. do 3 f_equal; lra.
Qed.

(** ** The theorems on scoring and on gusts at a sample state *)

Lemma C9_score_once_per_obstacle_witness :
  let w := sample false 50 (sampleBird 100 300 0 0) [samplePipe 42 false] [] in
  let ticks := [(0.016, 100); (0.016, 100)] in
  score w = 0%Z
  /\ score (updatePipes 800 600 0.016 w) = 1%Z
  /\ awards 800 ticks (samplePipe 42 false) = 1%nat
  /\ awards 800 ticks (samplePipe 42 true) = 0%nat.
Proof.
  intros w ticks.
  destruct (C9_score_once_per_obstacle 800 600 0.016 100 w
              (samplePipe 42 false) ticks) as (Hs & _ & _ & _ & _ & Ha).
  destruct (C9_score_once_per_obstacle 800 600 0.016 100 w
              (samplePipe 42 true) ticks) as (_ & _ & _ & _ & Hp & _).
  split; [reflexivity |]. split; [| split].
  - rewrite Hs. cbn. unfold passedNow, passesNow, PIPE_SPEED. cbn. rcmp.
    reflexivity.
  - rewrite Ha. unfold ticks. cbn. unfold PIPE_SPEED. rcmp. reflexivity.
  - apply Hp. reflexivity.
Defined.

Lemma C10_gusts_direction_and_magnitude_witness :
  let w :=
    run 800 600 sampleSession (initialWorld 800 600 (fun _ => 0.5) [] 0%Z) in
  Forall gust_ok (gustsRef w)
  /\ Rabs (norm (normalize_rnd (fun a => a * (1 + unit_roundoff))
                   (Vec.mk 100 100)) - 1)
     <= 4 * unit_roundoff.
Proof.
  intros w.
  assert (Hvec : Vec.mk 100 100 <> Vec.mk 0 0).
  { intros E. injection E as E _. lra. }
  destruct (C10_gusts_direction_and_magnitude 800 600 sampleSession
              (fun _ => 0.5) [] 0%Z 1048 (fun a => a * (1 + unit_roundoff))
              (Vec.mk 100 100) upward_is_standard Hvec)
    as (Hok & _ & _ & Hlen & _).
  split; [exact Hok | exact Hlen].
Defined.

(** C10 as stated fails of the program: on binary64 numbers, the stroke
    from (100, 100) to (200, 200), which is long enough for a gust, is
    normalized to (0.7071067811865475, 0.7071067811865475), whose length
    computes to 0.9999999999999999; as real numbers too, the squares of the
    two components add up to less than 1. *)
Lemma C10_counterexample :
  let start := VecF.mk 100 100 in
  let end_ := VecF.mk 200 200 in
  let direction :=
    normalizeF
      (VecF.mk (VecF.x end_ - VecF.x start) (VecF.y end_ - VecF.y start)) in
  let length :=
    PrimFloat.sqrt (VecF.x direction * VecF.x direction
                    + VecF.y direction * VecF.y direction)%float in
  (distanceF start end_ <? 20)%float = false
  /\ direction = VecF.mk 0.7071067811865475 0.7071067811865475
  /\ length = 0.9999999999999999%float
  /\ (length =? 1)%float = false
  /\ (length <? 1)%float = true
  /\ valueF (VecF.x direction) * valueF (VecF.x direction)
     + valueF (VecF.y direction) * valueF (VecF.y direction) < 1.
Proof.
  intros start end_ direction length.
  repeat (split; [vm_compute; reflexivity |]).
  rewrite (valueF_finite (VecF.x direction) false 6369051672525772 (-53))
    by (vm_compute; reflexivity).
  rewrite (valueF_finite (VecF.y direction) false 6369051672525772 (-53))
    by (vm_compute; reflexivity).
  change (powerRZ 2 (-53)) with (/ 2 ^ 53).
  assert (Ep : 2 ^ 53 = 9007199254740992) by lra.
  rewrite Ep. lra.
Qed.

(** * Further properties of the frame, the handlers and the session *)

(** ** The bird between the walls *)

Lemma rotation_range (v : R) :
  - PI / 3 <= Rmax (- PI / 3) (Rmin (PI / 2) v) <= PI / 2.
Proof.
  pose proof PI_RGT_0 as Hpi. split; [apply Rmax_l |].
  apply Rmax_lub; [lra | apply Rmin_l].
Qed.

(** X1.  Whatever the gusts and the time step, the motion part of
    [updateBird] leaves the bird between the side walls (when the canvas is
    at least as wide as the bird), keeps its radius and colour, and gives it
    a rotation between -PI/3 and PI/2. *)
Theorem X1_moveBird_between_walls
    (W deltaTime : R) (gusts : list Gust.t) (bird : Bird.t) :
  2 * Bird.radius bird <= W ->
  let bird' := moveBird W deltaTime gusts bird in
  Bird.radius bird <= Bird.x bird' <= W - Bird.radius bird
  /\ Bird.radius bird' = Bird.radius bird
  /\ Bird.color bird' = Bird.color bird
  /\ - PI / 3 <= Bird.rotation bird' <= PI / 2.
Proof.
  intros Hwide bird'. subst bird'. unfold moveBird.
  rewrite gusts_superpose.
  set (force := totalForceAt _ gusts).
  destruct bird as [x y r c vy vx rot]. unfold pushed. cbn in *.
  match goal with
  | |- context [Rmax (- PI / 3) (Rmin (PI / 2) ?v)] =>
      pose proof (rotation_range v) as Hrot
  end.
  destruct (Rltb_spec (x + (vx + Vec.x force * deltaTime) * 0.98 * deltaTime)
              r) as [Hl | Hl]; cbn.
  - unfold Rgtb. destruct (Rltb_spec (W - r) r); cbn; repeat split;
      try reflexivity; try lra.
  - unfold Rgtb.
    destruct (Rltb_spec (W - r)
                (x + (vx + Vec.x force * deltaTime) * 0.98 * deltaTime));
      cbn; repeat split; try reflexivity; try lra.
Qed.

Lemma X1_moveBird_between_walls_witness :
  let bird' := moveBird 800 0.016 [sampleGust] (sampleBird 350 300 0 0) in
  20 <= Bird.x bird' <= 780 /\ - PI / 3 <= Bird.rotation bird' <= PI / 2.
Proof.
  intros bird'.
  assert (Hwide : 2 * Bird.radius (sampleBird 350 300 0 0) <= 800)
    by (cbn; lra).
  pose proof (X1_moveBird_between_walls 800 0.016 [sampleGust]
                (sampleBird 350 300 0 0) Hwide) as T.
  cbv zeta in T. destruct T as (Hx & _ & _ & Hrot).
  cbn in Hx. split; [| exact Hrot]. fold bird' in Hx. lra.
Defined.

(** ** Free fall *)

Lemma moveBird_still (W deltaTime : R) (bird : Bird.t) :
  Bird.vx bird = 0 ->
  Bird.radius bird <= Bird.x bird <= W - Bird.radius bird ->
  let bird' := moveBird W deltaTime [] bird in
  Bird.x bird' = Bird.x bird
  /\ Bird.vx bird' = 0
  /\ Bird.radius bird' = Bird.radius bird
  /\ Bird.vy bird' = Bird.vy bird + GRAVITY * deltaTime
  /\ Bird.y bird' = Bird.y bird + (Bird.vy bird + GRAVITY * deltaTime) * deltaTime.
Proof.
  intros Hvx Hx bird'. subst bird'. unfold moveBird.
  destruct bird as [x y r c vy vx rot]. cbn in *. subst vx.
  rewrite (Rltb_false (x + 0 * 0.98 * deltaTime) r) by lra. cbn.
  unfold Rgtb. rewrite Rltb_false by lra. cbn.
  repeat split; try reflexivity; lra.
Qed.

(** X2.  Without gusts, a bird with no horizontal speed that stands between
    the walls and is not rising falls straight: after [n] ticks of the same
    positive length its [x] is unchanged, [vx] is still 0, [vy] has grown by
    [n * GRAVITY * deltaTime], and [y] has not decreased; every further tick
    increases [y] strictly. *)
Theorem X2_free_fall
    (W deltaTime : R) (n : nat) (bird : Bird.t) :
  0 < deltaTime ->
  Bird.vx bird = 0 ->
  0 <= Bird.vy bird ->
  Bird.radius bird <= Bird.x bird <= W - Bird.radius bird ->
  let fall := fun k => Nat.iter k (moveBird W deltaTime []) bird in
  Bird.x (fall n) = Bird.x bird
  /\ Bird.vx (fall n) = 0
  /\ Bird.vy (fall n) = Bird.vy bird + INR n * GRAVITY * deltaTime
  /\ Bird.y bird <= Bird.y (fall n)
  /\ Bird.y (fall n) < Bird.y (fall (S n)).
Proof.
  intros Hd Hvx Hvy Hx fall.
  assert (Inv : forall k,
             Bird.x (fall k) = Bird.x bird
             /\ Bird.vx (fall k) = 0
             /\ Bird.radius (fall k) = Bird.radius bird
             /\ Bird.vy (fall k) = Bird.vy bird + INR k * GRAVITY * deltaTime
             /\ Bird.y bird <= Bird.y (fall k)).
  { induction k as [| k IH].
    - subst fall. cbn. repeat split; try reflexivity; lra.
    - destruct IH as (Ix & Ivx & Ir & Ivy & Iy).
      assert (Hk : Bird.radius (fall k) <= Bird.x (fall k)
                   <= W - Bird.radius (fall k)) by (rewrite Ix, Ir; exact Hx).
      destruct (moveBird_still W deltaTime (fall k) Ivx Hk)
        as (Sx & Svx & Sr & Svy & Sy).
      change (fall (S k)) with (moveBird W deltaTime [] (fall k)).
      rewrite Sx, Svx, Sr, Svy, Sy, Ivy, Ix, Ir, S_INR.
      pose proof (pos_INR k) as Hk0. unfold GRAVITY in *.
      repeat split; try reflexivity; try lra. nra. }
  destruct (Inv n) as (Ix & Ivx & Ir & Ivy & Iy).
  repeat split; try assumption.
  assert (Hk : Bird.radius (fall n) <= Bird.x (fall n)
               <= W - Bird.radius (fall n)) by (rewrite Ix, Ir; exact Hx).
  destruct (moveBird_still W deltaTime (fall n) Ivx Hk)
    as (_ & _ & _ & _ & Sy).
  change (fall (S n)) with (moveBird W deltaTime [] (fall n)).
  rewrite Sy, Ivy. pose proof (pos_INR n) as Hn0. unfold GRAVITY. nra.
Qed.

Lemma X2_free_fall_witness :
  let fall := fun k => Nat.iter k (moveBird 800 0.016 []) (sampleBird 100 300 0 0) in
  Bird.x (fall 50%nat) = 100 /\ Bird.vx (fall 50%nat) = 0
  /\ 300 <= Bird.y (fall 50%nat).
Proof.
  intros fall.
  assert (Hd : 0 < 0.016) by lra.
  assert (Hvx : Bird.vx (sampleBird 100 300 0 0) = 0) by reflexivity.
  assert (Hvy : 0 <= Bird.vy (sampleBird 100 300 0 0)) by (cbn; lra).
  assert (Hx : Bird.radius (sampleBird 100 300 0 0)
               <= Bird.x (sampleBird 100 300 0 0)
               <= 800 - Bird.radius (sampleBird 100 300 0 0)) by (cbn; lra).
  pose proof (X2_free_fall 800 0.016 50 (sampleBird 100 300 0 0)
                Hd Hvx Hvy Hx) as T.
  cbv zeta in T. destruct T as (Tx & Tvx & _ & Ty & _).
  split; [exact Tx |]. split; [exact Tvx | exact Ty].
Defined.

(** ** Frames before the first flap *)

(** X3.  While the run has not been started, a frame only animates the
    decoration: it changes the shake, the clouds, the random counter and the
    recorded frame time, and nothing else -- the bird, the obstacles, the
    gusts, the particles, the energy, the score, the spawn countdown and the
    game time are those before the frame. *)
Theorem X3_idle_frame_only_animates_decoration
    (W H currentTime : R) (w : World) :
  isGameRunningRef w = false ->
  let w' := gameLoop W H currentTime w in
  (exists shake clouds count,
      w' = set_lastTimeRef currentTime
             (set_shakeRef shake
                (set_cloudsRef clouds (set_randomCount count w))))
  /\ birdRef w' = birdRef w
  /\ pipesRef w' = pipesRef w
  /\ gustsRef w' = gustsRef w
  /\ particlesRef w' = particlesRef w
  /\ windEnergy w' = windEnergy w
  /\ score w' = score w
  /\ nextPipeTimeRef w' = nextPipeTimeRef w
  /\ gameTimeRef w' = gameTimeRef w
  /\ audio w' = audio w.
Proof.
  intros Hidle w'.
  assert (E : exists shake clouds count,
             w' = set_lastTimeRef currentTime
                    (set_shakeRef shake
                       (set_cloudsRef clouds (set_randomCount count w)))).
  { subst w'. unfold gameLoop.
    destruct ((frameDelta currentTime w >? 0)
              && (frameDelta currentTime w <? 0.1)).
    - destruct (ambient_spec W H (frameDelta currentTime w) w)
        as (s & c & rc & ->).
      exists s, c, rc. unfold updateGameTime.
      destruct w. cbn in *. rewrite Hidle. reflexivity.
    - exists (shakeRef w), (cloudsRef w), (randomCount w).
      destruct w. reflexivity. }
  split; [exact E |].
  destruct E as (s & c & rc & ->). destruct w. repeat split.
Qed.

Lemma X3_idle_frame_only_animates_decoration_witness :
  let w := set_lastTimeRef 1000 (initialWorld 800 600 (fun _ => 0.5) [] 0%Z) in
  isGameRunningRef w = false
  /\ birdRef (gameLoop 800 600 1016 w) = birdRef w
  /\ windEnergy (gameLoop 800 600 1016 w) = windEnergy w.
Proof.
  intros w.
  assert (Hidle : isGameRunningRef w = false) by reflexivity.
  pose proof (X3_idle_frame_only_animates_decoration 800 600 1016 w Hidle)
    as T.
  cbv zeta in T. destruct T as (_ & Tb & _ & _ & _ & Te & _).
  split; [exact Hidle |]. split; [exact Tb | exact Te].
Defined.

(** ** Starting, flapping and restarting with a click *)

(** X4.  A click on a finished run (when no stroke is being drawn) restarts
    it, and the state after React has committed is that of a fresh run
    whatever the finished run looked like: not over, started, score 0,
    energy 100 (state and mirror), the bird at its initial place with zero
    velocity, no obstacle, gust or particle, the spawn countdown at 2 and the
    game time at 0; the best score has not decreased, and one 440 Hz sound
    was requested. *)
Theorem X4_restart_gives_fresh_run (W H : R) (w : World) :
  gameOverRef w = true ->
  isDrawingSeen w = false ->
  let w' := commit (handleCanvasClick W H w) in
  (gameOver w' = false /\ gameOverRef w' = false
   /\ isGameRunning w' = true /\ isGameRunningRef w' = true)
  /\ (score w' = 0%Z /\ windEnergy w' = 100 /\ windEnergyRef w' = 100)
  /\ birdRef w' = initialBird W H
  /\ (pipesRef w' = [] /\ gustsRef w' = [] /\ particlesRef w' = [])
  /\ (nextPipeTimeRef w' = 2 /\ gameTimeRef w' = 0)
  /\ (bestScore w <= bestScore w')%Z
  /\ audio w' = Sound.mk 440 0.1 sine :: audio w.
Proof.
  intros Hover Hdraw w'. subst w'. unfold handleCanvasClick, commit.
  rewrite Hdraw, Hover. destruct w. cbn.
  match goal with
  | |- context [(?a <? ?b)%Z] => destruct (Z.ltb_spec a b)
  end; cbn; repeat split; try reflexivity; lia.
Qed.

Lemma X4_restart_gives_fresh_run_witness :
  let w := sample true 50 (sampleBird 100 581 0 412) [samplePipe 90 true]
             [sampleGust] in
  let w' := commit (handleCanvasClick 800 600 w) in
  birdRef w' = initialBird 800 600 /\ pipesRef w' = [] /\ gustsRef w' = [].
Proof.
  intros w w'.
  assert (Hover : gameOverRef w = true) by reflexivity.
  assert (Hdraw : isDrawingSeen w = false) by reflexivity.
  pose proof (X4_restart_gives_fresh_run 800 600 w Hover Hdraw) as T.
  cbv zeta in T. destruct T as (_ & _ & Tb & (Tp & Tg & _) & _).
  split; [exact Tb |]. split; [exact Tp | exact Tg].
Defined.

(** X5.  A click on a run that is not over (when no stroke is being drawn)
    is a flap: the bird's [vy] becomes -300 whatever it was, the rest of the
    bird is unchanged, three particles are added and a 440 Hz sound is
    requested; the obstacles, the gusts, the energy and the score are
    untouched.  If the run was not started yet, the click also starts it and
    sets the spawn countdown to 2, after a 330 Hz sound. *)
Theorem X5_click_flaps_and_starts (W H : R) (w : World) :
  gameOverRef w = false ->
  isDrawingSeen w = false ->
  let w' := handleCanvasClick W H w in
  birdRef w' = Bird.with_vy FLAP_POWER (birdRef w)
  /\ Bird.vy (birdRef w') = -300
  /\ List.length (particlesRef w') = (List.length (particlesRef w) + 3)%nat
  /\ (pipesRef w' = pipesRef w /\ gustsRef w' = gustsRef w
      /\ windEnergy w' = windEnergy w /\ score w' = score w
      /\ gameOver w' = gameOver w)
  /\ (if isGameRunningRef w
      then isGameRunning w' = isGameRunning w
           /\ nextPipeTimeRef w' = nextPipeTimeRef w
           /\ audio w' = Sound.mk 440 0.1 sine :: audio w
      else isGameRunning w' = true
           /\ nextPipeTimeRef w' = 2
           /\ audio w'
              = Sound.mk 440 0.1 sine :: Sound.mk 330 0.1 sine :: audio w).
Proof.
  intros Hover Hdraw w'. subst w'. unfold handleCanvasClick.
  rewrite Hdraw, Hover.
  assert (Hvy : forall b, Bird.vy (Bird.with_vy FLAP_POWER b) = -300)
    by (intros b; destruct b; unfold FLAP_POWER; reflexivity).
  destruct (isGameRunningRef w) eqn:Hrun; cbn [negb].
  - rewrite Hover. cbn [negb]. rewrite flap_spec.
    destruct w. cbn. rewrite length_app, (proj1 (burst_fresh _ _ _ _ _ _)).
    repeat split; try reflexivity. apply Hvy.
  - replace (gameOverRef _) with false by (destruct w; cbn in *; congruence).
    cbn [negb]. rewrite flap_spec.
    destruct w. cbn. rewrite length_app, (proj1 (burst_fresh _ _ _ _ _ _)).
    repeat split; try reflexivity. apply Hvy.
Qed.

Lemma X5_click_flaps_and_starts_witness :
  let w := initialWorld 800 600 (fun _ => 0.5) [] 0%Z in
  let w' := handleCanvasClick 800 600 w in
  Bird.vy (birdRef w') = -300 /\ isGameRunning w' = true
  /\ nextPipeTimeRef w' = 2.
Proof.
  intros w w'.
  assert (Hover : gameOverRef w = false) by reflexivity.
  assert (Hdraw : isDrawingSeen w = false) by reflexivity.
  pose proof (X5_click_flaps_and_starts 800 600 w Hover Hdraw) as T.
  cbv zeta in T. destruct T as (_ & Tvy & _ & _ & Tstart).
  change (isGameRunningRef w) with false in Tstart.
  destruct Tstart as (Tr & Tn & _).
  split; [exact Tvy |]. split; [exact Tr | exact Tn].
Defined.

(** ** The obstacle pipeline, tick by tick *)

(** What [updatePipes] does to the obstacles, the countdown, the bird and
    the game-over flag of a run that is not flagged over. *)
Lemma updatePipes_spec (W H deltaTime : R) (w : World) :
  gameOverRef w = false ->
  let kept :=
    filter (fun pipe => Pipe.x pipe >? - Pipe.width pipe)
      (map (scrollPipe W deltaTime (Bird.x (birdRef w))) (pipesRef w)) in
  let spawn := nextPipeTimeRef w - deltaTime <=? 0 in
  let w' := updatePipes W H deltaTime w in
  exists pipe,
    pipesRef w' = kept ++ (if spawn then [pipe] else [])
    /\ (Pipe.x pipe = W + 50 /\ Pipe.passed pipe = false
        /\ Pipe.animationOffset pipe = 0
        /\ Pipe.width pipe = PIPE_WIDTH W /\ Pipe.gap pipe = PIPE_GAP H
        /\ Pipe.bottomY pipe - Pipe.topHeight pipe = PIPE_GAP H)
    /\ nextPipeTimeRef w'
       = (if spawn then 2.5 else nextPipeTimeRef w - deltaTime)
    /\ birdRef w' = birdRef w
    /\ gameOver w'
       = (gameOver w || existsb (checkCollision (birdRef w)) (pipesRef w'))
    /\ audio w'
       = (if existsb (checkCollision (birdRef w)) (pipesRef w')
          then [Sound.mk 150 0.5 square] else [])
         ++ repeat (Sound.mk 523 0.2 sine)
              (passedNow W deltaTime (Bird.x (birdRef w)) (pipesRef w))
         ++ audio w.
Proof.
  intros Hover kept spawn w'. subst w'. unfold updatePipes. rewrite Hover.
  destruct (forEach_updatePipe_spec W deltaTime (pipesRef w) w)
    as (ps & rc & ->).
  subst kept spawn. destruct w. cbn.
  destruct (_ <=? _); cbn.
  - eexists (Pipe.mk _ _ _ _ _ _ _ _).
    destruct (existsb _ _) eqn:Hhit; [rewrite endRun_spec |]; cbn;
      rewrite ?Hhit, ?orb_true_r, ?orb_false_r;
      repeat split; try reflexivity; ring.
  - exists (Pipe.mk (W + 50) 0 (PIPE_GAP H) (PIPE_WIDTH W) (PIPE_GAP H) false
              "" 0).
    rewrite app_nil_r.
    destruct (existsb _ _) eqn:Hhit; [rewrite endRun_spec |]; cbn;
      rewrite ?app_nil_r, ?Hhit, ?orb_true_r, ?orb_false_r;
      repeat split; try reflexivity; ring.
Qed.

(** X6.  In a run that is not flagged over, [updatePipes] raises the
    game-over flag exactly when the bird, where [updateBird] left it,
    overlaps one of the obstacles that the tick leaves on the field (after
    scrolling, pruning and spawning); it never moves the bird, and a hit
    requests the 150 Hz collision sound. *)
Theorem X6_updatePipes_ends_run_iff_hit (W H deltaTime : R) (w : World) :
  gameOverRef w = false ->
  let w' := updatePipes W H deltaTime w in
  let hit := existsb (checkCollision (birdRef w)) (pipesRef w') in
  gameOver w' = (gameOver w || hit)
  /\ birdRef w' = birdRef w
  /\ (hit = true ->
      exists rest, audio w' = Sound.mk 150 0.5 square :: rest)
  /\ (hit = false -> gameOver w' = gameOver w).
Proof.
  intros Hover w' hit.
  destruct (updatePipes_spec W H deltaTime w Hover)
    as (pipe & Hp & _ & _ & Hb & Hg & Ha).
  fold w' in Hp, Hb, Hg, Ha. fold hit in Hg, Ha.
  split; [exact Hg |]. split; [exact Hb |]. split.
  - intros Hhit. rewrite Ha, Hhit. eexists. reflexivity.
  - intros Hhit. rewrite Hg, Hhit. apply orb_false_r.
Qed.

Lemma X6_updatePipes_ends_run_iff_hit_witness :
  let w := sample false 50 (sampleBird 100 300 0 0) [samplePipe 300 false] [] in
  gameOverRef w = false
  /\ gameOver (updatePipes 800 600 0.016 w)
     = (gameOver w
        || existsb (checkCollision (birdRef w))
             (pipesRef (updatePipes 800 600 0.016 w))).
Proof.
  intros w.
  assert (Hover : gameOverRef w = false) by reflexivity.
  split; [exact Hover |].
  exact (proj1 (X6_updatePipes_ends_run_iff_hit 800 600 0.016 w Hover)).
Defined.

(** X7.  In a run that is not flagged over, the obstacles after
    [updatePipes] are the scrolled obstacles that are not fully off the left
    edge, followed by one new obstacle exactly when the spawn countdown,
    lowered by the tick, has reached 0.  The new obstacle stands at
    [CANVAS_WIDTH + 50], unpassed, and the countdown restarts at 2.5;
    otherwise the countdown is just lowered.  On a canvas of non-negative
    width every obstacle left on the field has [x > - width]. *)
Theorem X7_updatePipes_prunes_and_spawns
    (W H deltaTime : R) (w : World) :
  gameOverRef w = false ->
  0 <= W ->
  let kept :=
    filter (fun pipe => Pipe.x pipe >? - Pipe.width pipe)
      (map (scrollPipe W deltaTime (Bird.x (birdRef w))) (pipesRef w)) in
  let w' := updatePipes W H deltaTime w in
  (if nextPipeTimeRef w - deltaTime <=? 0
   then (exists pipe,
            pipesRef w' = kept ++ [pipe]
            /\ Pipe.x pipe = W + 50 /\ Pipe.passed pipe = false)
        /\ nextPipeTimeRef w' = 2.5
   else pipesRef w' = kept
        /\ nextPipeTimeRef w' = nextPipeTimeRef w - deltaTime)
  /\ Forall (fun pipe => - Pipe.width pipe < Pipe.x pipe) (pipesRef w')
  /\ (List.length (pipesRef w') <= S (List.length (pipesRef w)))%nat.
Proof.
  intros Hover HW kept w'.
  destruct (updatePipes_spec W H deltaTime w Hover)
    as (pipe & Hp & (Hx & Hpassed & _ & Hwd & _) & Hn & _).
  fold kept in Hp. fold w' in Hp, Hn.
  assert (Hkept : Forall (fun p => - Pipe.width p < Pipe.x p) kept).
  { apply Forall_forall. intros p Hin. subst kept.
    apply filter_In in Hin. destruct Hin as [_ Hin]. unfold Rgtb in Hin.
    destruct (Rltb_spec (- Pipe.width p) (Pipe.x p)); [assumption |].
    discriminate. }
  assert (Hlen : (List.length kept <= List.length (pipesRef w))%nat).
  { subst kept.
    etransitivity; [apply filter_length_le | rewrite length_map; lia]. }
  destruct (nextPipeTimeRef w - deltaTime <=? 0).
  - split; [split; [exists pipe; auto | exact Hn] |]. rewrite Hp. split.
    + apply Forall_app. split; [exact Hkept |].
      constructor; [| constructor]. rewrite Hx, Hwd. unfold PIPE_WIDTH.
      pose proof (Rmax_l 40 (W * 0.075)). lra.
    + rewrite length_app. cbn. lia.
  - rewrite app_nil_r in Hp. split; [split; assumption |]. rewrite Hp.
    split; [exact Hkept | lia].
Qed.

Lemma X7_updatePipes_prunes_and_spawns_witness :
  let w := sample false 50 (sampleBird 100 300 0 0) [samplePipe (-59) true] [] in
  Forall (fun pipe => - Pipe.width pipe < Pipe.x pipe)
    (pipesRef (updatePipes 800 600 0.016 w)).
Proof.
  intros w.
  assert (Hover : gameOverRef w = false) by reflexivity.
  assert (HW : 0 <= 800) by lra.
  pose proof (X7_updatePipes_prunes_and_spawns 800 600 0.016 w Hover HW) as T.
  cbv zeta in T. exact (proj1 (proj2 T)).
Defined.

(** ** The shape of a frame *)

(** A frame is discarded, or idle, or runs the whole simulation. *)
Lemma gameLoop_cases (W H currentTime : R) (w : World) :
  let deltaTime := frameDelta currentTime w in
  gameLoop W H currentTime w = set_lastTimeRef currentTime w
  \/ exists shake clouds count,
       0 < deltaTime < 0.1
       /\ shakeRef (updateScreenShake deltaTime w) = shake
       /\ ((isGameRunningRef w = false
            /\ gameLoop W H currentTime w
               = set_lastTimeRef currentTime
                   (set_shakeRef shake
                      (set_cloudsRef clouds (set_randomCount count w))))
           \/ (isGameRunningRef w = true
               /\ gameLoop W H currentTime w
                  = set_lastTimeRef currentTime
                      (updateWindEnergy deltaTime
                         (updateParticles deltaTime
                            (updateGusts deltaTime
                               (updatePipes W H deltaTime
                                  (updateBird W H deltaTime
                                     (set_gameTimeRef
                                        (gameTimeRef w + deltaTime)
                                        (set_shakeRef shake
                                           (set_cloudsRef clouds
                                              (set_randomCount count
                                                 w))))))))))).
Proof.
  intros deltaTime. unfold gameLoop. fold deltaTime. unfold Rgtb.
  destruct (Rltb_spec 0 deltaTime) as [Hpos |]; [| left; reflexivity].
  destruct (Rltb_spec deltaTime 0.1) as [Hsmall |]; [| left; reflexivity].
  right. cbn [andb]. unfold updateClouds.
  destruct (updateScreenShake_spec deltaTime w) as (s & rc & Es).
  rewrite Es.
  destruct (forEach_updateCloud_spec W H deltaTime
              (cloudsRef (set_shakeRef s (set_randomCount rc w)))
              (set_shakeRef s (set_randomCount rc w))) as (cs & rc' & ->).
  exists s, cs, rc'. split; [lra |].
  split; [destruct w; reflexivity |].
  unfold updateGameTime.
  destruct (isGameRunningRef w) eqn:Hrun; [right | left];
    (split; [reflexivity |]); destruct w; cbn in *; rewrite Hrun;
    reflexivity.
Qed.

Lemma updateBird_cases (W H deltaTime : R) (w : World) :
  updateBird W H deltaTime w = w
  \/ exists bird,
       Bird.radius bird = Bird.radius (birdRef w)
       /\ (updateBird W H deltaTime w = set_birdRef bird w
           \/ updateBird W H deltaTime w
              = endRun (Bird.x bird) (Bird.y bird) (set_birdRef bird w)).
Proof.
  unfold updateBird. destruct (gameOverRef w); [left; reflexivity |].
  right. exists (moveBird W deltaTime (gustsRef w) (birdRef w)). split.
  - unfold moveBird. rewrite gusts_superpose.
    destruct (birdRef w). unfold pushed. cbn.
    destruct (_ <? _); cbn; destruct (_ >? _); reflexivity.
  - cbv zeta. destruct (outOfBounds H _); [right | left]; reflexivity.
Qed.

Lemma burst_particles (x y : R) (count : nat) (color : string)
    (source : nat -> R) (k : nat) :
  Forall (fun p => Particle.life p = 0.5 /\ Particle.maxLife p = 0.5)
    (burst x y count color source k).
Proof.
  revert k. induction count as [| n IH]; intros k; [constructor |].
  change (burst x y (S n) color source k)
    with (particleOf x y color source k :: burst x y n color source (5 + k)).
  constructor; [split; reflexivity | apply IH].
Qed.

(** The callback of [updatePipes] over all obstacles, with the particles it
    adds. *)
Lemma forEach_updatePipe_particles (W deltaTime : R) (pipes : list Pipe.t)
    (w : World) :
  let birdX := Bird.x (birdRef w) in
  let n := passedNow W deltaTime birdX pipes in
  exists extra count,
    forEach (updatePipe W deltaTime) pipes w
    = (map (scrollPipe W deltaTime birdX) pipes,
       set_particlesRef (particlesRef w ++ extra)
         (set_randomCount count
            (set_audio (repeat (Sound.mk 523 0.2 sine) n ++ audio w)
               (set_score (score w + Z.of_nat n)%Z w))))
    /\ Forall (fun p => Particle.life p = 0.5 /\ Particle.maxLife p = 0.5)
         extra
    /\ List.length extra = (5 * n)%nat.
Proof.
  revert w. induction pipes as [| pipe pipes IH]; intros w birdX n.
  - exists [], (randomCount w). subst n. cbn.
    rewrite Z.add_0_r, app_nil_r. destruct w.
    split; [reflexivity | split; [constructor | reflexivity]].
  - cbn [forEach map]. subst n. unfold passedNow. cbn [filter].
    rewrite updatePipe_spec. fold birdX.
    destruct (passesNow W deltaTime birdX pipe) eqn:Hp.
    + match goal with
      | |- context [forEach _ pipes ?w1] =>
          destruct (IH w1) as (extra & rc & E & Hall & Hlen)
      end.
      cbv zeta in E.
      replace (Bird.x (birdRef _)) with birdX in E, Hlen
        by (subst birdX; destruct w; reflexivity).
      rewrite E.
      eexists (burst _ _ 5 "#4CAF50" (randomSource w) (randomCount w)
               ++ extra), rc.
      split; [| split].
      * unfold passedNow. cbn [List.length repeat]. f_equal.
        destruct w. cbn. rewrite repeat_snoc_cons, <- app_assoc.
        f_equal. lia.
      * apply Forall_app. split; [apply burst_particles | exact Hall].
      * rewrite length_app, (proj1 (burst_fresh _ _ _ _ _ _)), Hlen.
        unfold passedNow. cbn [List.length]. lia.
    + destruct (IH w) as (extra & rc & E & Hall & Hlen).
      cbv zeta in E. fold birdX in E, Hlen. rewrite E.
      exists extra, rc. split; [reflexivity | split; assumption].
Qed.

(** ** Tidiness is kept by every step *)

Lemma burst_live (x y : R) (count : nat) (color : string)
    (source : nat -> R) (k : nat) :
  Forall particle_live (burst x y count color source k).
Proof.
  eapply Forall_impl; [| apply burst_particles].
  intros p [Hl Hm]. unfold particle_live. rewrite Hl, Hm. lra.
Qed.

Lemma tidy_endRun (W H x y : R) (w : World) :
  tidy W H w -> tidy W H (endRun x y w).
Proof.
  rewrite endRun_spec. destruct w. unfold tidy. cbn.
  intros (Hp & Hg & Hq & Hs & Hk & Ht & Hn).
  repeat split; try assumption; try apply Hn.
  - apply Forall_app. split; [exact Hq | apply burst_live].
  - right. cbn. pose proof (Rmax_r (Shake.intensity shakeRef0) 15). lra.
Qed.

Lemma tidy_flap (W H : R) (w : World) : tidy W H w -> tidy W H (flap w).
Proof.
  rewrite flap_spec. destruct w. unfold tidy. cbn.
  intros (Hp & Hg & Hq & Hs & Hk & Ht & Hn).
  repeat split; try assumption; try apply Hn.
  apply Forall_app. split; [exact Hq | apply burst_live].
Qed.

Lemma tidy_set_birdRef (W H : R) (bird : Bird.t) (w : World) :
  tidy W H w -> tidy W H (set_birdRef bird w).
Proof. destruct w. exact (fun T => T). Qed.

Lemma tidy_updateBird (W H deltaTime : R) (w : World) :
  tidy W H w -> tidy W H (updateBird W H deltaTime w).
Proof.
  intros T.
  destruct (updateBird_cases W H deltaTime w)
    as [-> | (bird & _ & [-> | ->])].
  - exact T.
  - apply tidy_set_birdRef, T.
  - apply tidy_endRun, tidy_set_birdRef, T.
Qed.

Lemma scrollPipe_ok (W H deltaTime birdX : R) (pipe : Pipe.t) :
  0 < deltaTime ->
  pipe_ok W H pipe ->
  (Pipe.x (scrollPipe W deltaTime birdX pipe)
   >? - Pipe.width (scrollPipe W deltaTime birdX pipe)) = true ->
  pipe_ok W H (scrollPipe W deltaTime birdX pipe).
Proof.
  intros Hd (Hgap & Hg & Hw & Hx) Hkeep. unfold Rgtb in Hkeep.
  destruct (Rltb_spec (- Pipe.width (scrollPipe W deltaTime birdX pipe))
              (Pipe.x (scrollPipe W deltaTime birdX pipe))) as [Hin |];
    [| discriminate].
  unfold pipe_ok, scrollPipe in *. cbn in *.
  assert (Hspeed : 150 <= PIPE_SPEED W) by apply Rmax_l.
  repeat split; try assumption; nra.
Qed.

Lemma tidy_updatePipes (W H deltaTime : R) (w : World) :
  0 <= W -> 0 < deltaTime ->
  tidy W H w -> tidy W H (updatePipes W H deltaTime w).
Proof.
  intros HW Hd T. unfold updatePipes.
  destruct (gameOverRef w); [exact T |].
  destruct (forEach_updatePipe_particles W deltaTime (pipesRef w) w)
    as (extra & rc & -> & Hextra & _).
  assert (Hkept : Forall (pipe_ok W H)
                    (filter (fun pipe => Pipe.x pipe >? - Pipe.width pipe)
                       (map (scrollPipe W deltaTime (Bird.x (birdRef w)))
                          (pipesRef w)))).
  { apply Forall_forall. intros p Hin.
    apply filter_In in Hin. destruct Hin as [Hin Hkeep].
    apply in_map_iff in Hin. destruct Hin as (q & <- & Hq).
    apply scrollPipe_ok; [exact Hd | | exact Hkeep].
    destruct T as (Hp & _). rewrite Forall_forall in Hp. apply Hp, Hq. }
  assert (Hlive : Forall particle_live (particlesRef w ++ extra)).
  { apply Forall_app. split; [apply T |].
    eapply Forall_impl; [| exact Hextra].
    intros p [Hl Hm]. unfold particle_live. rewrite Hl, Hm. lra. }
  destruct T as (_ & Hg & _ & Hs & Hk & Ht & Hn).
  destruct w. cbn in *.
  match goal with
  | |- tidy W H (if existsb ?c (pipesRef ?w1) then _ else _) =>
      assert (T1 : tidy W H w1); [| destruct (existsb c (pipesRef w1));
                                     [apply tidy_endRun |]; exact T1]
  end.
  destruct (Rleb_spec (nextPipeTimeRef0 - deltaTime) 0) as [Hle | Hgt];
    unfold tidy; cbn; repeat split; try assumption; try lia; try lra.
  apply Forall_app. split; [exact Hkept |].
  constructor; [| constructor]. unfold pipe_ok. cbn.
  assert (Hwidth : 40 <= PIPE_WIDTH W) by apply Rmax_l.
  repeat split; try reflexivity; lra.
Qed.

Lemma tidy_frame_tail (W H deltaTime currentTime : R) (w : World) :
  0 < deltaTime ->
  tidy W H w ->
  tidy W H
    (set_lastTimeRef currentTime
       (updateWindEnergy deltaTime
          (updateParticles deltaTime (updateGusts deltaTime w)))).
Proof.
  intros Hd (Hp & Hg & Hq & Hs & Hk & Ht & Hn).
  assert (Hg' : Forall (gust_live W)
                  (filter (fun gust => Gust.life gust >? 0)
                     (map (updateGust deltaTime) (gustsRef w)))).
  { apply Forall_forall. intros g' Hin.
    apply filter_In in Hin. destruct Hin as [Hin Halive].
    apply in_map_iff in Hin. destruct Hin as (g & <- & Hin).
    rewrite Forall_forall in Hg. destruct (Hg g Hin) as (Hl & Hm & Hr).
    unfold Rgtb in Halive.
    destruct (Rltb_spec 0 (Gust.life (updateGust deltaTime g)));
      [| discriminate].
    unfold gust_live, updateGust in *. cbn in *.
    repeat split; try assumption; lra. }
  assert (Hq' : Forall particle_live
                  (filter (fun p => Particle.life p >? 0)
                     (map (updateParticle deltaTime) (particlesRef w)))).
  { apply Forall_forall. intros p' Hin.
    apply filter_In in Hin. destruct Hin as [Hin Halive].
    apply in_map_iff in Hin. destruct Hin as (p & <- & Hin).
    rewrite Forall_forall in Hq. destruct (Hq p Hin) as (Hl & Hm).
    unfold Rgtb in Halive.
    destruct (Rltb_spec 0 (Particle.life (updateParticle deltaTime p)));
      [| discriminate].
    unfold particle_live, updateParticle in *. cbn in *.
    repeat split; try assumption; lra. }
  unfold updateWindEnergy, updateParticles, updateGusts.
  destruct w. unfold tidy. cbn in *.
  destruct (_ <? _); cbn; repeat split; try assumption; apply Hn.
Qed.

Lemma updateScreenShake_ok (deltaTime : R) (w : World) :
  shake_ok (shakeRef w) -> shake_ok (shakeRef (updateScreenShake deltaTime w)).
Proof.
  intros Hk. unfold updateScreenShake.
  destruct (_ >? _); [| exact Hk].
  unfold Math_random. destruct w. cbn.
  match goal with
  | |- context [?a <? 0.1] => destruct (Rltb_spec a 0.1)
  end; unfold shake_ok; cbn; [left; auto | right; lra].
Qed.

Lemma tidy_gameLoop (W H currentTime : R) (w : World) :
  0 <= W -> tidy W H w -> tidy W H (gameLoop W H currentTime w).
Proof.
  intros HW T.
  destruct (gameLoop_cases W H currentTime w)
    as [-> | (s & c & rc & Hd & Hs & [[_ ->] | [_ ->]])].
  - destruct w. exact T.
  - pose proof (updateScreenShake_ok (frameDelta currentTime w) w
                  (proj1 (proj2 (proj2 (proj2 (proj2 T)))))) as Hk.
    rewrite Hs in Hk. destruct T as (Hp & Hg & Hq & Hsc & _ & Ht & Hn).
    destruct w. unfold tidy. cbn in *. repeat split; try assumption;
      apply Hn.
  - apply tidy_frame_tail; [lra |].
    apply tidy_updatePipes; [exact HW | lra |].
    apply tidy_updateBird.
    pose proof (updateScreenShake_ok (frameDelta currentTime w) w
                  (proj1 (proj2 (proj2 (proj2 (proj2 T)))))) as Hk.
    rewrite Hs in Hk. destruct T as (Hp & Hg & Hq & Hsc & _ & Ht & Hn).
    destruct w. unfold tidy. cbn in *. repeat split; try assumption;
      try apply Hn. lra.
Qed.

Lemma tidy_pushGust (W H : R) (a b : Vec.t) (w : World) :
  tidy W H w -> tidy W H (pushGust W a b w).
Proof.
  intros T. unfold pushGust, createGust.
  destruct (_ <? 20); [exact T |].
  destruct (_ <? 10); [exact T |].
  unfold Math_random. rewrite createParticles_spec.
  destruct T as (Hp & Hg & Hq & Hs & Hk & Ht & Hn).
  destruct w. unfold tidy. cbn in *.
  repeat split; try assumption; try apply Hn.
  - apply Forall_app. split; [exact Hg |].
    constructor; [| constructor]. unfold gust_live, GUST_LIFE. cbn.
    repeat split; try reflexivity; lra.
  - apply Forall_app. split; [exact Hq | apply burst_live].
Qed.

Lemma tidy_light (W H : R) (w w' : World) :
  pipesRef w' = pipesRef w -> gustsRef w' = gustsRef w ->
  particlesRef w' = particlesRef w -> score w' = score w ->
  shakeRef w' = shakeRef w -> gameTimeRef w' = gameTimeRef w ->
  nextPipeTimeRef w' = nextPipeTimeRef w ->
  tidy W H w -> tidy W H w'.
Proof.
  unfold tidy. intros -> -> -> -> -> -> ->. exact (fun T => T).
Qed.

Lemma tidy_stopDrawing (W H : R) (w : World) :
  tidy W H w -> tidy W H (stopDrawing w).
Proof. apply tidy_light; destruct w; reflexivity. Qed.

Lemma tidy_startDrawing (W H : R) (pos : Vec.t) (w : World) :
  tidy W H w -> tidy W H (startDrawing pos w).
Proof. apply tidy_light; destruct w; reflexivity. Qed.

Lemma tidy_flap_unless_over (W H : R) (w : World) :
  tidy W H w -> tidy W H (if negb (gameOverRef w) then flap w else w).
Proof.
  intros T. destruct (negb (gameOverRef w)); [apply tidy_flap |]; exact T.
Qed.

Lemma tidy_handleCanvasClick (W H : R) (w : World) :
  tidy W H w -> tidy W H (handleCanvasClick W H w).
Proof.
  intros T. unfold handleCanvasClick.
  destruct (isDrawingSeen w); [exact T |].
  destruct (gameOverRef w) eqn:Hover.
  - destruct T as (_ & _ & _ & _ & Hk & _).
    destruct w. unfold tidy. cbn in *.
    repeat split; try assumption; try lia; try lra; constructor.
  - destruct (isGameRunningRef w); cbn [negb].
    + rewrite Hover. apply tidy_flap, T.
    + replace (gameOverRef _) with false
        by (destruct w; cbn in *; congruence).
      apply tidy_flap.
      destruct T as (Hp & Hg & Hq & Hs & Hk & Ht & _).
      destruct w. unfold tidy. cbn in *.
      repeat split; try assumption; lra.
Qed.

Lemma tidy_step (W H : R) (w : World) (e : Event) :
  0 <= W -> tidy W H w -> tidy W H (step W H w e).
Proof.
  intros HW T. destruct e; cbn [step].
  - apply tidy_gameLoop; assumption.
  - revert T. apply tidy_light; unfold commit; destruct w; cbn;
      destruct (_ <? _)%Z; reflexivity.
  - apply tidy_handleCanvasClick, T.
  - unfold handleMouseDown.
    destruct (negb (isGameRunningRef w) || gameOverRef w); [exact T |].
    apply tidy_startDrawing, T.
  - unfold handleMouseMove.
    destruct (isDrawingSeen w); [| exact T].
    destruct (drawStartRef w); [| exact T].
    revert T. apply tidy_light; destruct w; reflexivity.
  - unfold handleMouseUp.
    destruct (isDrawingSeen w); [| exact T].
    destruct (drawStartRef w) as [a |]; [| exact T].
    destruct (drawCurrentRef w) as [b |]; [| exact T].
    apply tidy_stopDrawing, tidy_pushGust, T.
  - unfold handleTouchStart.
    destruct (negb (isGameRunningRef w) || gameOverRef w).
    + apply tidy_handleCanvasClick, T.
    + apply tidy_startDrawing, T.
  - unfold handleTouchMove.
    destruct (isDrawingSeen w); [| exact T].
    destruct (drawStartRef w); [| exact T].
    revert T. apply tidy_light; destruct w; reflexivity.
  - unfold handleTouchEnd.
    destruct (negb (isGameRunningRef w)); [exact T |].
    destruct (isDrawingSeen w); [| apply tidy_flap_unless_over, T].
    destruct (drawStartRef w) as [a |]; [| apply tidy_flap_unless_over, T].
    destruct (drawCurrentRef w) as [b |];
      [| apply tidy_flap_unless_over, T].
    cbv zeta. apply tidy_stopDrawing. destruct (_ >? 20).
    + apply tidy_pushGust, T.
    + apply tidy_flap_unless_over, T.
Qed.

Lemma tidy_run (W H : R) (es : list Event) (w : World) :
  0 <= W -> tidy W H w -> tidy W H (run W H es w).
Proof.
  intros HW. revert w. induction es as [| e es IH]; intros w T; [exact T |].
  cbn [run fold_left]. apply IH, tidy_step; assumption.
Qed.

Lemma tidy_initialWorld (W H : R) (source : nat -> R)
    (clouds : list Cloud.t) (best : Z) :
  tidy W H (initialWorld W H source clouds best).
Proof.
  unfold tidy, shake_ok. cbn.
  repeat split; try lia; try lra; try (left; auto; fail); constructor.
Qed.

(** ** Obstacles on the field *)

Lemma updateBird_pipes (W H deltaTime : R) (w : World) :
  pipesRef (updateBird W H deltaTime w) = pipesRef w
  /\ nextPipeTimeRef (updateBird W H deltaTime w) = nextPipeTimeRef w.
Proof.
  destruct (updateBird_cases W H deltaTime w)
    as [-> | (bird & _ & [-> | ->])].
  - split; reflexivity.
  - destruct w. split; reflexivity.
  - rewrite endRun_spec. destruct w. split; reflexivity.
Qed.

(** The obstacles after a frame: those [updatePipes] leaves, on a state with
    the obstacles, the countdown and the game-over mirror of the state
    before the frame, when the frame is simulated and the run has started;
    otherwise those before the frame. *)
Lemma gameLoop_pipes (W H currentTime : R) (w : World) :
  let deltaTime := frameDelta currentTime w in
  exists w1,
    pipesRef w1 = pipesRef w
    /\ nextPipeTimeRef w1 = nextPipeTimeRef w
    /\ gameOverRef w1 = gameOverRef w
    /\ pipesRef (gameLoop W H currentTime w)
       = if (deltaTime >? 0) && (deltaTime <? 0.1) && isGameRunningRef w
         then pipesRef (updatePipes W H deltaTime w1)
         else pipesRef w.
Proof.
  intros deltaTime. unfold gameLoop. fold deltaTime.
  destruct ((deltaTime >? 0) && (deltaTime <? 0.1)); cbn [andb];
    [| exists w; repeat split; destruct w; reflexivity].
  unfold updateClouds.
  destruct (updateScreenShake_spec deltaTime w) as (s & rc & Es).
  rewrite Es.
  destruct (forEach_updateCloud_spec W H deltaTime
              (cloudsRef (set_shakeRef s (set_randomCount rc w)))
              (set_shakeRef s (set_randomCount rc w))) as (cs & rc' & ->).
  unfold updateGameTime.
  destruct (isGameRunningRef w) eqn:Hrun.
  - set (w0 := set_gameTimeRef (gameTimeRef w + deltaTime)
                 (set_shakeRef s (set_cloudsRef cs (set_randomCount rc' w)))).
    exists (updateBird W H deltaTime w0).
    destruct (updateBird_pipes W H deltaTime w0) as [Ep En].
    destruct (keeps_updateBird W H deltaTime w0) as (_ & _ & _ & _ & Eo).
    split; [rewrite Ep; subst w0; destruct w; reflexivity |].
    split; [rewrite En; subst w0; destruct w; reflexivity |].
    split; [rewrite Eo; subst w0; destruct w; reflexivity |].
    match goal with
    | |- pipesRef (set_lastTimeRef currentTime ?big) = _ =>
        assert (E : big
                    = updateWindEnergy deltaTime
                        (updateParticles deltaTime
                           (updateGusts deltaTime
                              (updatePipes W H deltaTime
                                 (updateBird W H deltaTime w0)))))
          by (subst w0; destruct w; cbn in *; rewrite Hrun; reflexivity);
        rewrite E
    end.
    unfold updateWindEnergy, updateParticles, updateGusts.
    generalize (updatePipes W H deltaTime (updateBird W H deltaTime w0)).
    intros w3. destruct w3. cbn. destruct (_ <? _); reflexivity.
  - exists w. repeat split.
    destruct w. cbn in *. rewrite Hrun. reflexivity.
Qed.

Lemma scrollPipe_placed (W H deltaTime birdX : R) (pipe : Pipe.t) :
  0 <= deltaTime ->
  pipe_placed W H pipe ->
  (Pipe.x (scrollPipe W deltaTime birdX pipe)
   >? - Pipe.width (scrollPipe W deltaTime birdX pipe)) = true ->
  pipe_placed W H (scrollPipe W deltaTime birdX pipe).
Proof.
  intros Hd (Hg & Hw & Hx) Hkeep. unfold Rgtb in Hkeep.
  destruct (Rltb_spec (- Pipe.width (scrollPipe W deltaTime birdX pipe))
              (Pipe.x (scrollPipe W deltaTime birdX pipe))) as [Hin |];
    [| discriminate].
  unfold pipe_placed, scrollPipe in *. cbn in *.
  assert (Hspeed : 150 <= PIPE_SPEED W) by apply Rmax_l.
  repeat split; try assumption; nra.
Qed.

Lemma updatePipes_placed (W H deltaTime : R) (w : World) :
  0 <= W -> 0 <= deltaTime ->
  Forall (pipe_placed W H) (pipesRef w) ->
  Forall (pipe_placed W H) (pipesRef (updatePipes W H deltaTime w)).
Proof.
  intros HW Hd Hp.
  destruct (gameOverRef w) eqn:Hover.
  - unfold updatePipes. rewrite Hover. exact Hp.
  - destruct (updatePipes_spec W H deltaTime w Hover)
      as (pipe & -> & (Hx & _ & _ & Hwd & Hg & _) & _).
    apply Forall_app. split.
    + apply Forall_forall. intros p Hin.
      apply filter_In in Hin. destruct Hin as [Hin Hkeep].
      apply in_map_iff in Hin. destruct Hin as (q & <- & Hq).
      apply scrollPipe_placed; [exact Hd | | exact Hkeep].
      rewrite Forall_forall in Hp. apply Hp, Hq.
    + destruct (_ <=? _); constructor; [| constructor].
      unfold pipe_placed. rewrite Hx, Hwd, Hg.
      assert (Hwidth : 40 <= PIPE_WIDTH W) by apply Rmax_l.
      repeat split; lra.
Qed.

Lemma flap_unless_over_pipes (w : World) :
  pipesRef (if negb (gameOverRef w) then flap w else w) = pipesRef w.
Proof.
  destruct (negb (gameOverRef w)); [| reflexivity].
  rewrite flap_spec. destruct w. reflexivity.
Qed.

Lemma pushGust_pipes (W : R) (a b : Vec.t) (w : World) :
  pipesRef (pushGust W a b w) = pipesRef w.
Proof.
  unfold pushGust, createGust.
  destruct (_ <? _); [reflexivity |].
  destruct (_ <? _); [reflexivity |].
  unfold Math_random. rewrite createParticles_spec.
  destruct w. reflexivity.
Qed.

Lemma handleCanvasClick_pipes (W H : R) (w : World) :
  pipesRef (handleCanvasClick W H w) = pipesRef w
  \/ pipesRef (handleCanvasClick W H w) = [].
Proof.
  unfold handleCanvasClick.
  destruct (isDrawingSeen w); [left; reflexivity |].
  destruct (gameOverRef w) eqn:Hover; [right; destruct w; reflexivity |].
  left. destruct (isGameRunningRef w); cbn [negb].
  - rewrite Hover. cbn [negb]. rewrite flap_spec. destruct w. reflexivity.
  - match goal with
    | |- pipesRef (if negb (gameOverRef ?w1) then _ else _) = _ =>
        rewrite (flap_unless_over_pipes w1)
    end.
    destruct w. reflexivity.
Qed.

Lemma stopDrawing_pipes (w : World) : pipesRef (stopDrawing w) = pipesRef w.
Proof. destruct w. reflexivity. Qed.

Lemma step_placed (W H : R) (w : World) (e : Event) :
  0 <= W ->
  Forall (pipe_placed W H) (pipesRef w) ->
  Forall (pipe_placed W H) (pipesRef (step W H w e)).
Proof.
  intros HW Hp. destruct e; cbn [step].
  - destruct (gameLoop_pipes W H currentTime w)
      as (w1 & E1 & _ & _ & ->).
    cbv zeta. unfold Rgtb.
    destruct (Rltb_spec 0 (frameDelta currentTime w)); cbn [andb];
      [| exact Hp].
    destruct (_ <? 0.1); cbn [andb]; [| exact Hp].
    destruct (isGameRunningRef w); [| exact Hp].
    apply updatePipes_placed; [exact HW | lra | rewrite E1; exact Hp].
  - unfold commit. destruct w. cbn in *.
    destruct (_ <? _)%Z; exact Hp.
  - destruct (handleCanvasClick_pipes W H w) as [-> | ->];
      [exact Hp | constructor].
  - unfold handleMouseDown. destruct (_ || _); [exact Hp |].
    destruct w. exact Hp.
  - unfold handleMouseMove.
    destruct (isDrawingSeen w), (drawStartRef w); try exact Hp.
    destruct w. exact Hp.
  - unfold handleMouseUp.
    destruct (isDrawingSeen w), (drawStartRef w) as [a |],
      (drawCurrentRef w) as [b |]; try exact Hp.
    rewrite stopDrawing_pipes, pushGust_pipes. exact Hp.
  - unfold handleTouchStart. destruct (_ || _).
    + destruct (handleCanvasClick_pipes W H w) as [-> | ->];
        [exact Hp | constructor].
    + destruct w. exact Hp.
  - unfold handleTouchMove.
    destruct (isDrawingSeen w), (drawStartRef w); try exact Hp.
    destruct w. exact Hp.
  - unfold handleTouchEnd.
    destruct (negb (isGameRunningRef w)); [exact Hp |].
    destruct (isDrawingSeen w), (drawStartRef w) as [a |],
      (drawCurrentRef w) as [b |];
      try (rewrite flap_unless_over_pipes; exact Hp).
    cbv zeta. rewrite stopDrawing_pipes. destruct (_ >? _).
    + rewrite pushGust_pipes. exact Hp.
    + rewrite flap_unless_over_pipes. exact Hp.
Qed.

(** X8.  On a canvas of non-negative width, the obstacles stay placed
    along any sequence of events: if every obstacle on the field carries the
    gap and the width of the canvas in its [gap] and [width] fields and lies
    with [- width < x <= CANVAS_WIDTH + 50], then so does every obstacle on
    the field after the events, among them those spawned on the way.  The
    field is empty when the component is mounted, so this holds in every
    state of a session. *)
Theorem X8_obstacles_stay_placed
    (W H : R) (es : list Event) (w : World) (source : nat -> R)
    (clouds : list Cloud.t) (best : Z) :
  0 <= W ->
  Forall (pipe_placed W H) (pipesRef w) ->
  Forall (pipe_placed W H) (pipesRef (run W H es w))
  /\ Forall (pipe_placed W H)
       (pipesRef (run W H es (initialWorld W H source clouds best))).
Proof.
  intros HW Hp.
  assert (Hrun : forall v, Forall (pipe_placed W H) (pipesRef v) ->
                           Forall (pipe_placed W H) (pipesRef (run W H es v))).
  { induction es as [| e es IH]; intros v Hv; [exact Hv |].
    cbn [run fold_left]. apply IH. apply step_placed; assumption. }
  split; [apply Hrun, Hp | apply Hrun; constructor].
Qed.

(** A frame of 16 ms on a field with one obstacle at 300 and 10 ms left on
    the countdown: the obstacle moves to 296.8 and a second one is
    spawned. *)
Lemma X8_obstacles_stay_placed_witness :
  let w :=
    set_nextPipeTimeRef 0.01
      (sample false 50 (sampleBird 100 300 0 0) [samplePipe 300 false] []) in
  let w' := run 800 600 [Frame 1016] w in
  List.length (pipesRef w') = 2%nat
  /\ Forall (pipe_placed 800 600) (pipesRef w').
Proof.
  intros w w'.
  assert (HW : 0 <= 800) by lra.
  assert (Hp : Forall (pipe_placed 800 600) (pipesRef w)).
  { constructor; [| constructor].
    unfold pipe_placed, PIPE_GAP, PIPE_WIDTH, Rmax. cbn.
    repeat destruct (Rle_dec _ _); repeat split; lra. }
  split;
    [| exact (proj1 (X8_obstacles_stay_placed 800 600 [Frame 1016] w
                       (fun _ => 0.5) [] 0%Z HW Hp))].
  subst w'. cbn [run fold_left step].
  destruct (gameLoop_pipes 800 600 1016 w) as (w1 & E1 & E2 & E3 & ->).
  cbv zeta.
  assert (Ed : frameDelta 1016 w = 0.016).
  { unfold frameDelta. cbn. rewrite truthy_true by lra. lra. }
  rewrite Ed. unfold Rgtb.
  rewrite (Rltb_true 0 0.016), (Rltb_true 0.016 0.1) by lra.
  cbn [andb isGameRunningRef w sample set_nextPipeTimeRef].
  destruct (updatePipes_spec 800 600 0.016 w1 E3) as (pipe & -> & _).
  rewrite E1, E2. cbn [pipesRef nextPipeTimeRef w sample set_nextPipeTimeRef].
  rewrite (Rleb_true (0.01 - 0.016) 0) by lra.
  rewrite length_app. cbn [map filter List.length].
  match goal with
  | |- context [?a >? ?b] => unfold Rgtb; rewrite (Rltb_true b a)
  end.
  - reflexivity.
  - unfold scrollPipe, samplePipe, PIPE_SPEED, Rmax. cbn.
    destruct (Rle_dec _ _); lra.
Defined.

(** ** Session invariants *)

(** X9.  On a canvas of non-negative width, in any state of a session every
    active gust and every particle is alive and within its maximal life
    ([0 < life <= maxLife], with [maxLife] 1.2 for a gust and 0.5 for a
    particle), and every gust has the radius of the canvas. *)
Theorem X9_gusts_and_particles_are_alive
    (W H : R) (es : list Event) (source : nat -> R) (clouds : list Cloud.t)
    (best : Z) :
  0 <= W ->
  let w := run W H es (initialWorld W H source clouds best) in
  Forall (gust_live W) (gustsRef w) /\ Forall particle_live (particlesRef w).
Proof.
  intros HW w.
  destruct (tidy_run W H es _ HW (tidy_initialWorld W H source clouds best))
    as (_ & Hg & Hq & _).
  split; assumption.
Qed.

Lemma X9_gusts_and_particles_are_alive_witness :
  let w := run 800 600 sampleSession
             (initialWorld 800 600 (fun _ => 0.5) [] 0%Z) in
  Forall (gust_live 800) (gustsRef w) /\ Forall particle_live (particlesRef w).
Proof.
  assert (HW : 0 <= 800) by lra.
  exact (X9_gusts_and_particles_are_alive 800 600 sampleSession
           (fun _ => 0.5) [] 0%Z HW).
Defined.

(** X10.  On a canvas of non-negative width, in any state of a session the
    score is not negative, the spawn countdown is within [[0, 2.5]], the game
    time is not negative, and the screen shake is either off, with zero
    offsets, or at least 0.1 strong. *)
Theorem X10_bookkeeping_stays_in_range
    (W H : R) (es : list Event) (source : nat -> R) (clouds : list Cloud.t)
    (best : Z) :
  0 <= W ->
  let w := run W H es (initialWorld W H source clouds best) in
  (0 <= score w)%Z
  /\ 0 <= nextPipeTimeRef w <= 2.5
  /\ 0 <= gameTimeRef w
  /\ shake_ok (shakeRef w).
Proof.
  intros HW w.
  destruct (tidy_run W H es _ HW (tidy_initialWorld W H source clouds best))
    as (_ & _ & _ & Hs & Hk & Ht & Hn).
  repeat split; try assumption; apply Hn.
Qed.

Lemma X10_bookkeeping_stays_in_range_witness :
  let w := run 800 600 sampleSession
             (initialWorld 800 600 (fun _ => 0.5) [] 0%Z) in
  (0 <= score w)%Z /\ 0 <= nextPipeTimeRef w <= 2.5.
Proof.
  intros w.
  assert (HW : 0 <= 800) by lra.
  pose proof (X10_bookkeeping_stays_in_range 800 600 sampleSession
                (fun _ => 0.5) [] 0%Z HW) as T.
  cbv zeta in T. destruct T as (Ts & Tn & _).
  split; [exact Ts | exact Tn].
Defined.

(** ** Gusts over several ticks *)

Lemma updateGusts_gusts (deltaTime : R) (w : World) :
  gustsRef (updateGusts deltaTime w)
  = filter (fun gust => Gust.life gust >? 0)
      (map (updateGust deltaTime) (gustsRef w)).
Proof. destruct w. reflexivity. Qed.

(** A tick keeps exactly the gusts that have more life than the tick is
    long. *)
Lemma updateGusts_keeps (deltaTime : R) (gusts : list Gust.t) :
  filter (fun gust => Gust.life gust >? 0) (map (updateGust deltaTime) gusts)
  = map (updateGust deltaTime)
      (filter (fun gust => deltaTime <? Gust.life gust) gusts).
Proof.
  induction gusts as [| g gusts IH]; [reflexivity |].
  cbn [map filter]. rewrite IH. unfold Rgtb.
  destruct (Rltb_spec deltaTime (Gust.life g)) as [Hl | Hl].
  - rewrite (Rltb_true 0 (Gust.life (updateGust deltaTime g)))
      by (destruct g; cbn in *; lra).
    reflexivity.
  - rewrite (Rltb_false 0 (Gust.life (updateGust deltaTime g)))
      by (destruct g; cbn in *; lra).
    reflexivity.
Qed.

Lemma aged_trans (g1 g2 g3 : Gust.t) : aged g1 g2 -> aged g2 g3 -> aged g1 g3.
Proof.
  unfold aged.
  intros (a1 & a2 & a3 & a4 & a5 & a6 & a7) (b1 & b2 & b3 & b4 & b5 & b6 & b7).
  repeat split; try congruence. lra.
Qed.

Lemma updateGusts_from (deltaTimes : list R) (w : World) :
  Forall (fun d => 0 <= d) deltaTimes ->
  Forall (fun g' =>
            exists g, In g (gustsRef w) /\ aged g g'
                      /\ Forall (fun d => d < Gust.life g) deltaTimes)
    (gustsRef (fold_left (fun w d => updateGusts d w) deltaTimes w)).
Proof.
  intros Hpos. revert w. induction Hpos as [| d ds Hd Hds IH]; intros w.
  - cbn [fold_left]. apply Forall_forall. intros g Hg. exists g.
    split; [exact Hg |]. split; [| constructor].
    unfold aged. repeat split; lra.
  - cbn [fold_left]. specialize (IH (updateGusts d w)).
    apply Forall_forall. intros g' Hin.
    rewrite Forall_forall in IH.
    destruct (IH g' Hin) as (g1 & Hg1 & Ha & Hall).
    rewrite updateGusts_gusts, updateGusts_keeps in Hg1.
    apply in_map_iff in Hg1. destruct Hg1 as (g & <- & Hg).
    apply filter_In in Hg. destruct Hg as [Hg Hlife].
    destruct (Rltb_spec d (Gust.life g)) as [Hl |]; [| discriminate].
    exists g. split; [exact Hg |].
    assert (Ha1 : aged g (updateGust d g)) by (apply updateGust_aged; exact Hd).
    split; [exact (aged_trans _ _ _ Ha1 Ha) |].
    constructor; [exact Hl |].
    eapply Forall_impl; [| exact Hall].
    intros d' Hd'. destruct Ha1 as (_ & _ & _ & _ & _ & _ & Hle). lra.
Qed.

Lemma updateGusts_alive (deltaTimes : list R) (w : World) :
  deltaTimes <> [] ->
  Forall (fun g => 0 < Gust.life g)
    (gustsRef (fold_left (fun w d => updateGusts d w) deltaTimes w)).
Proof.
  revert w. induction deltaTimes as [| d ds IH]; intros w Hne;
    [congruence |].
  destruct ds as [| d' ds'].
  - cbn [fold_left]. rewrite updateGusts_gusts.
    apply Forall_forall. intros g Hg. apply filter_In in Hg.
    destruct Hg as [_ Hg]. unfold Rgtb in Hg.
    destruct (Rltb_spec 0 (Gust.life g)); [assumption | discriminate].
  - change (fold_left (fun w d => updateGusts d w) (d :: d' :: ds') w)
      with (fold_left (fun w d => updateGusts d w) (d' :: ds')
              (updateGusts d w)).
    apply IH. discriminate.
Qed.

Lemma updateGusts_fewer (deltaTimes : list R) (w : World) :
  (List.length
     (gustsRef (fold_left (fun w d => updateGusts d w) deltaTimes w))
   <= List.length (gustsRef w))%nat.
Proof.
  revert w. induction deltaTimes as [| d ds IH]; intros w; [cbn; lia |].
  cbn [fold_left]. etransitivity; [apply IH |].
  rewrite updateGusts_gusts.
  etransitivity; [apply filter_length_le |]. rewrite length_map. lia.
Qed.

(** X11.  Gusts age and leave.  A tick of [updateGusts] keeps exactly the
    gusts that have more life than the tick is long, in their order, each
    with its life lowered by the tick and nothing else changed.  Over any
    sequence of ticks with non-negative time steps no gust is added, and
    every gust left was there before, with the same origin, direction,
    magnitude, radius and maximal life, a life that is positive and not
    larger than it was, and a life before the ticks that exceeded each of
    them.  So a tick at least as long as every life empties the
    collection. *)
Theorem X11_gusts_age_and_leave (deltaTimes : list R) (w : World) :
  Forall (fun d => 0 <= d) deltaTimes ->
  deltaTimes <> [] ->
  let w' := fold_left (fun w d => updateGusts d w) deltaTimes w in
  (forall deltaTime v,
      gustsRef (updateGusts deltaTime v)
      = map (updateGust deltaTime)
          (filter (fun gust => deltaTime <? Gust.life gust) (gustsRef v)))
  /\ Forall (fun g' =>
               0 < Gust.life g'
               /\ exists g, In g (gustsRef w) /\ aged g g'
                            /\ Forall (fun d => d < Gust.life g) deltaTimes)
       (gustsRef w')
  /\ (List.length (gustsRef w') <= List.length (gustsRef w))%nat
  /\ (Exists (fun d => Forall (fun g => Gust.life g <= d) (gustsRef w))
        deltaTimes ->
      gustsRef w' = []).
Proof.
  intros Hpos Hne w'.
  pose proof (updateGusts_from deltaTimes w Hpos) as Hfrom.
  pose proof (updateGusts_alive deltaTimes w Hne) as Halive.
  fold w' in Hfrom, Halive.
  split.
  { intros deltaTime v. rewrite updateGusts_gusts. apply updateGusts_keeps. }
  split.
  { rewrite Forall_forall in *. intros g' Hin.
    split; [apply Halive, Hin | apply Hfrom, Hin]. }
  split; [apply updateGusts_fewer |].
  intros Hlong. destruct (gustsRef w') as [| g' rest]; [reflexivity |].
  exfalso. apply Forall_inv in Hfrom.
  destruct Hfrom as (g & Hin & _ & Hall).
  apply Exists_exists in Hlong. destruct Hlong as (d & Hd & Hle).
  rewrite Forall_forall in Hall, Hle.
  specialize (Hall d Hd). specialize (Hle g Hin). lra.
Qed.

Lemma X11_gusts_age_and_leave_witness :
  let w := sample false 50 (sampleBird 100 300 0 0) [] [sampleGust] in
  gustsRef (fold_left (fun w d => updateGusts d w) [0.5; 1.25] w) = []
  /\ gustsRef (updateGusts 0.5 w) = [updateGust 0.5 sampleGust].
Proof.
  intros w.
  assert (Hpos : Forall (fun d => 0 <= d) [0.5; 1.25])
    by (repeat (apply Forall_cons; [lra |]); apply Forall_nil).
  assert (Hne : [0.5; 1.25] <> []) by discriminate.
  pose proof (X11_gusts_age_and_leave [0.5; 1.25] w Hpos Hne) as T.
  cbv zeta in T. destruct T as (Tone & _ & _ & Texp).
  split.
  - apply Texp. apply Exists_cons_tl, Exists_cons_hd.
    constructor; [cbn; lra | constructor].
  - rewrite Tone. cbn [gustsRef w sample filter map].
    rewrite (Rltb_true 0.5 (Gust.life sampleGust)) by (cbn; lra).
    reflexivity.
Defined.

(** ** The screen shake *)

Lemma decay_factor (deltaTime : R) :
  0 < deltaTime -> 0 < Rpower 0.1 deltaTime < 1.
Proof.
  intros Hd. unfold Rpower. split; [apply exp_pos |].
  rewrite <- exp_0. apply exp_increasing.
  assert (Hln : ln 0.1 < 0).
  { rewrite <- ln_1. apply ln_increasing; lra. }
  nra.
Qed.

(** X12.  A tick of [updateScreenShake] with a positive time step never
    strengthens the shake: from a shake that is off (and centred) or at
    least 0.1 strong, the new intensity is between 0 and the old one,
    strictly below it when the shake was on, and it is again either 0 or at
    least 0.1.  With random draws in [[0, 1)] both offsets are at most half
    the old intensity in absolute value, and they are 0 once the shake is
    off. *)
Theorem X12_screen_shake_decays (deltaTime : R) (w : World) :
  0 < deltaTime ->
  shake_ok (shakeRef w) ->
  0 <= randomSource w (randomCount w) < 1 ->
  0 <= randomSource w (S (randomCount w)) < 1 ->
  let old := Shake.intensity (shakeRef w) in
  let shake := shakeRef (updateScreenShake deltaTime w) in
  0 <= Shake.intensity shake <= old
  /\ (0 < old -> Shake.intensity shake < old)
  /\ shake_ok shake
  /\ Rabs (Shake.x shake) <= old / 2
  /\ Rabs (Shake.y shake) <= old / 2.
Proof.
  intros Hd Hok Hr1 Hr2 old shake.
  assert (Hshake : shake_ok shake) by (apply updateScreenShake_ok, Hok).
  split; [| split; [| split; [exact Hshake |]]]; subst old shake;
    clear Hshake;
    pose proof (decay_factor deltaTime Hd) as Hf;
    unfold updateScreenShake, Rgtb;
    (destruct (Rltb_spec 0 (Shake.intensity (shakeRef w))) as [Hon | Hoff];
     [ unfold Math_random; destruct w; cbn in *;
       set (i := Shake.intensity shakeRef0) in *;
       set (r1 := randomSource0 randomCount0) in *;
       set (r2 := randomSource0 (S randomCount0)) in *;
       destruct (Rltb_spec (i * Rpower 0.1 deltaTime) 0.1); cbn;
       rewrite ?Rabs_R0; repeat split; try lra; try nra;
       apply Rabs_le; nra
     | destruct Hok as [(Hz & Hx & Hy) | Hbig]; [| lra];
       rewrite ?Hx, ?Hy, ?Hz, ?Rabs_R0; repeat split; lra ]).
Qed.

Lemma X12_screen_shake_decays_witness :
  let w := set_shakeRef (Shake.mk 0 0 15)
             (sample true 50 (sampleBird 100 581 0 0) [] []) in
  Shake.intensity (shakeRef (updateScreenShake 0.016 w)) < 15.
Proof.
  intros w.
  assert (Hd : 0 < 0.016) by lra.
  assert (Hok : shake_ok (shakeRef w)) by (right; cbn; lra).
  assert (Hr1 : 0 <= randomSource w (randomCount w) < 1) by (cbn; lra).
  assert (Hr2 : 0 <= randomSource w (S (randomCount w)) < 1) by (cbn; lra).
  pose proof (X12_screen_shake_decays 0.016 w Hd Hok Hr1 Hr2) as T.
  cbv zeta in T. destruct T as (_ & Tlt & _).
  apply Tlt. cbn. lra.
Defined.

(** ** The canvas and the pointer *)

(** X13.  On a window wider than 768 pixels [updateCanvasDimensions] takes
    the desktop branch, and the canvas it sets always has the aspect ratio
    4:3, a width between 400 and 800 that leaves the 40 pixel margin, and a
    height between 300 and 600.  Such a canvas satisfies what [createPipe]
    needs ([PIPE_GAP <= CANVAS_HEIGHT * 0.7]) and is wide enough for the
    bird to fit between the side walls. *)
Theorem X13_desktop_canvas (innerWidth innerHeight : R) :
  768 < innerWidth ->
  let '(mobile, (width, height)) :=
    updateCanvasDimensions innerWidth innerHeight in
  mobile = false
  /\ width * 3 = height * 4
  /\ 400 <= width <= 800 /\ width <= innerWidth - 40
  /\ 300 <= height <= 600
  /\ PIPE_GAP height <= height * 0.7
  /\ 2 * Bird.radius (initialBird width height) <= width.
Proof.
  intros Hw. unfold updateCanvasDimensions.
  rewrite (Rleb_false innerWidth 768) by lra.
  set (maxWidth := Rmin (innerWidth - 40) 800).
  set (maxHeight := Rmin (innerHeight - 300) 600).
  assert (Hmw : 728 < maxWidth <= 800 /\ maxWidth <= innerWidth - 40).
  { subst maxWidth. unfold Rmin. destruct (Rle_dec _ _); lra. }
  assert (Hmh : maxHeight <= 600).
  { subst maxHeight. apply Rmin_r. }
  clearbody maxWidth maxHeight.
  assert (Hall : forall width height,
            width * 3 = height * 4 -> width <= 800 ->
            width <= innerWidth - 40 ->
            let W := Rmax width 400 in
            let H := Rmax height 300 in
            W * 3 = H * 4 /\ 400 <= W <= 800 /\ W <= innerWidth - 40
            /\ 300 <= H <= 600 /\ PIPE_GAP H <= H * 0.7
            /\ 2 * Bird.radius (initialBird W H) <= W).
  { intros width height Hr Hle Hm W H.
    assert (HW : W = width /\ H = height /\ 400 <= width
                 \/ W = 400 /\ H = 300).
    { subst W H. unfold Rmax.
      destruct (Rle_dec width 400), (Rle_dec height 300); lra. }
    unfold PIPE_GAP. cbn [initialBird Bird.radius].
    fold W. clearbody W H.
    unfold Rmax. destruct (Rle_dec 120 _), (Rle_dec 15 _); lra. }
  unfold Rgtb.
  destruct (Rltb_spec maxHeight (maxWidth / (800 / 600))) as [Hgt | Hle];
    (split; [reflexivity |]); apply Hall; lra.
Qed.

Lemma X13_desktop_canvas_witness :
  updateCanvasDimensions 1024 768 = (false, (624, 468))
  /\ PIPE_GAP 468 <= 468 * 0.7.
Proof.
  assert (Hw : 768 < 1024) by lra.
  pose proof (X13_desktop_canvas 1024 768 Hw) as T.
  assert (E : updateCanvasDimensions 1024 768 = (false, (624, 468))).
  { unfold updateCanvasDimensions.
    rewrite (Rleb_false 1024 768) by lra.
    replace (Rmin (1024 - 40) 800) with 800
      by (unfold Rmin; destruct (Rle_dec _ _); lra).
    replace (Rmin (768 - 300) 600) with 468
      by (unfold Rmin; destruct (Rle_dec _ _); lra).
    unfold Rgtb. rewrite (Rltb_true 468 (800 / (800 / 600))) by lra.
    f_equal. f_equal; unfold Rmax; destruct (Rle_dec _ _); lra. }
  rewrite E in T. split; [exact E |].
  destruct T as (_ & _ & _ & _ & _ & Hgap & _). exact Hgap.
Defined.

(** X14.  On a window at most 768 pixels wide [updateCanvasDimensions] takes
    the mobile branch: the canvas fills the window up to the margins of 20
    and 200 pixels and up to 500 by 700, with no lower bound.  It satisfies
    what [createPipe] needs ([PIPE_GAP <= CANVAS_HEIGHT * 0.7]) exactly when
    the window is at least [200 + 1200 / 7] pixels high. *)
Theorem X14_mobile_canvas (innerWidth innerHeight : R) :
  innerWidth <= 768 ->
  let '(mobile, (width, height)) :=
    updateCanvasDimensions innerWidth innerHeight in
  mobile = true
  /\ width = Rmin (innerWidth - 20) 500
  /\ height = Rmin (innerHeight - 200) 700
  /\ width <= 500 /\ height <= 700
  /\ (PIPE_GAP height <= height * 0.7 <-> 200 + 1200 / 7 <= innerHeight).
Proof.
  intros Hw. unfold updateCanvasDimensions.
  rewrite (Rleb_true innerWidth 768) by lra.
  repeat split; try reflexivity; try apply Rmin_r;
    unfold PIPE_GAP, Rmax, Rmin;
    destruct (Rle_dec _ _); destruct (Rle_dec _ _); try lra.
Qed.

Lemma X14_mobile_canvas_witness :
  updateCanvasDimensions 390 844 = (true, (370, 644))
  /\ PIPE_GAP 644 <= 644 * 0.7.
Proof.
  assert (Hw : 390 <= 768) by lra.
  pose proof (X14_mobile_canvas 390 844 Hw) as T.
  assert (E : updateCanvasDimensions 390 844 = (true, (370, 644))).
  { unfold updateCanvasDimensions.
    rewrite (Rleb_true 390 768) by lra.
    f_equal. f_equal; unfold Rmin; destruct (Rle_dec _ _); lra. }
  rewrite E in T. split; [exact E |].
  destruct T as (_ & _ & _ & _ & _ & Hgap). apply Hgap. lra.
Defined.

(** X15.  [getCanvasMousePos] maps the rectangle in which the canvas is
    displayed onto the canvas: the corners of the rectangle go to the
    corners of the canvas, a pointer inside the rectangle gets a position
    inside the canvas, and the client position is recovered from the canvas
    position by scaling back. *)
Theorem X15_pointer_lands_on_canvas
    (W H left top width height clientX clientY : R) :
  0 < W -> 0 < H -> 0 < width -> 0 < height ->
  let pos := getCanvasMousePos W H left top width height clientX clientY in
  getCanvasMousePos W H left top width height left top = Vec.mk 0 0
  /\ getCanvasMousePos W H left top width height (left + width)
       (top + height) = Vec.mk W H
  /\ (left <= clientX <= left + width -> 0 <= Vec.x pos <= W)
  /\ (top <= clientY <= top + height -> 0 <= Vec.y pos <= H)
  /\ clientX = left + Vec.x pos * (width / W)
  /\ clientY = top + Vec.y pos * (height / H).
Proof.
  intros HW HH Hw Hh pos. subst pos. unfold getCanvasMousePos.
  cbn [Vec.x Vec.y].
  assert (Hsx : 0 < W / width) by (apply Rdiv_lt_0_compat; lra).
  assert (Hsy : 0 < H / height) by (apply Rdiv_lt_0_compat; lra).
  assert (Ex : width * (W / width) = W) by (field; lra).
  assert (Ey : height * (H / height) = H) by (field; lra).
  repeat split.
  - f_equal; ring.
  - f_equal; [rewrite <- Ex at 2 | rewrite <- Ey at 2]; ring.
  - apply Rmult_le_pos; lra.
  - rewrite <- Ex at 2. apply Rmult_le_compat_r; lra.
  - apply Rmult_le_pos; lra.
  - rewrite <- Ey at 2. apply Rmult_le_compat_r; lra.
  - field; lra.
  - field; lra.
Qed.

Lemma X15_pointer_lands_on_canvas_witness :
  getCanvasMousePos 800 600 10 20 400 300 (10 + 400) (20 + 300)
  = Vec.mk 800 600.
Proof.
  assert (H1 : 0 < 800) by lra.
  assert (H2 : 0 < 600) by lra.
  assert (H3 : 0 < 400) by lra.
  assert (H4 : 0 < 300) by lra.
  exact (proj1 (proj2 (X15_pointer_lands_on_canvas 800 600 10 20 400 300
                         0 0 H1 H2 H3 H4))).
Defined.

(** ** What a frame leaves to the handlers and to the renders *)

Lemma same_controls_refl (w : World) : same_controls w w.
Proof. unfold same_controls. repeat split. Qed.

Lemma same_controls_trans (w1 w2 w3 : World) :
  same_controls w1 w2 -> same_controls w2 w3 -> same_controls w1 w3.
Proof.
  unfold same_controls.
  intros (A1 & A2 & A3 & A4 & A5 & A6 & A7 & A8 & A9 & A10 & A11)
         (B1 & B2 & B3 & B4 & B5 & B6 & B7 & B8 & B9 & B10 & B11).
  repeat split; congruence.
Qed.

Lemma same_controls_endRun (x y : R) (w : World) :
  same_controls w (endRun x y w).
Proof. rewrite endRun_spec. destruct w. repeat split. Qed.

Lemma same_controls_flap (w : World) : same_controls w (flap w).
Proof. rewrite flap_spec. destruct w. repeat split. Qed.

Lemma same_controls_updateBird (W H deltaTime : R) (w : World) :
  same_controls w (updateBird W H deltaTime w).
Proof.
  destruct (updateBird_cases W H deltaTime w)
    as [-> | (bird & _ & [-> | ->])].
  - apply same_controls_refl.
  - destruct w. repeat split.
  - apply same_controls_trans with (w2 := set_birdRef bird w);
      [destruct w; repeat split | apply same_controls_endRun].
Qed.

Lemma same_controls_updatePipes (W H deltaTime : R) (w : World) :
  same_controls w (updatePipes W H deltaTime w).
Proof.
  unfold updatePipes.
  destruct (gameOverRef w); [apply same_controls_refl |].
  destruct (forEach_updatePipe_spec W deltaTime (pipesRef w) w)
    as (ps & rc & ->).
  destruct w. cbn. destruct (_ <=? _); cbn;
    (destruct (existsb _ _); [rewrite endRun_spec |]; cbn; repeat split).
Qed.

Lemma same_controls_frame_tail (deltaTime : R) (w : World) :
  same_controls w
    (updateWindEnergy deltaTime
       (updateParticles deltaTime (updateGusts deltaTime w))).
Proof.
  unfold updateWindEnergy, updateParticles, updateGusts.
  destruct w. cbn. destruct (_ <? _); repeat split.
Qed.

Lemma gameLoop_same_controls (W H currentTime : R) (w : World) :
  same_controls w (gameLoop W H currentTime w).
Proof.
  destruct (gameLoop_cases W H currentTime w)
    as [-> | (s & c & rc & _ & _ & [(_ & ->) | (_ & ->)])].
  - destruct w. repeat split.
  - destruct w. repeat split.
  - match goal with
    | |- same_controls _
           (set_lastTimeRef _
              (updateWindEnergy _ (updateParticles _ (updateGusts _
                 (updatePipes _ _ _ (updateBird _ _ _ ?w0)))))) =>
        set (w1 := w0);
        pose proof (same_controls_updateBird W H
                      (frameDelta currentTime w) w1) as Tb;
        pose proof (same_controls_updatePipes W H
                      (frameDelta currentTime w)
                      (updateBird W H (frameDelta currentTime w) w1)) as Tp;
        pose proof (same_controls_frame_tail (frameDelta currentTime w)
                      (updatePipes W H (frameDelta currentTime w)
                         (updateBird W H (frameDelta currentTime w) w1)))
          as Tt
    end.
    assert (T0 : same_controls w w1) by (destruct w; repeat split).
    pose proof (same_controls_trans _ _ _ T0
                  (same_controls_trans _ _ _ Tb
                     (same_controls_trans _ _ _ Tp Tt))) as T.
    revert T. generalize (updateWindEnergy (frameDelta currentTime w)
                (updateParticles (frameDelta currentTime w)
                   (updateGusts (frameDelta currentTime w)
                      (updatePipes W H (frameDelta currentTime w)
                         (updateBird W H (frameDelta currentTime w) w1))))).
    intros w2 T.
    apply same_controls_trans with (w2 := w2); [exact T |].
    destruct w2. repeat split.
Qed.

(** Every frame, simulated or not, records its time stamp. *)
Lemma gameLoop_lastTimeRef (W H currentTime : R) (w : World) :
  lastTimeRef (gameLoop W H currentTime w) = currentTime.
Proof.
  unfold gameLoop.
  match goal with
  | |- lastTimeRef (set_lastTimeRef _ ?w1) = _ => generalize w1
  end.
  intros w1. destruct w1. reflexivity.
Qed.

(** X16.  A frame leaves to the input handlers and to the renders what is
    theirs: whatever the time stamp, [gameLoop] changes neither the flag
    that the run has started, nor the stroke being drawn, nor the best
    score, nor any of the mirrors that the effects of a render fill in.  It
    records its time stamp, and it can raise the game-over flag but never
    clear it. *)
Theorem X16_frame_leaves_controls (W H currentTime : R) (w : World) :
  same_controls w (gameLoop W H currentTime w)
  /\ lastTimeRef (gameLoop W H currentTime w) = currentTime
  /\ (gameOver (gameLoop W H currentTime w) = gameOver w
      \/ gameOver (gameLoop W H currentTime w) = true).
Proof.
  split; [apply gameLoop_same_controls |].
  split; [apply gameLoop_lastTimeRef |].
  apply (flags_gameLoop W H currentTime w).
Qed.

(** ** The best score *)

Lemma pushGust_bestScore (W : R) (a b : Vec.t) (w : World) :
  bestScore (pushGust W a b w) = bestScore w.
Proof.
  unfold pushGust, createGust.
  destruct (_ <? _); [reflexivity |].
  destruct (_ <? _); [reflexivity |].
  unfold Math_random. rewrite createParticles_spec.
  destruct w. reflexivity.
Qed.

Lemma flap_unless_over_bestScore (w : World) :
  bestScore (if negb (gameOverRef w) then flap w else w) = bestScore w.
Proof.
  destruct (negb (gameOverRef w)); [| reflexivity].
  apply (same_controls_flap w).
Qed.

Lemma handleCanvasClick_bestScore (W H : R) (w : World) :
  bestScore (handleCanvasClick W H w) = bestScore w.
Proof.
  unfold handleCanvasClick.
  destruct (isDrawingSeen w); [reflexivity |].
  destruct (gameOverRef w) eqn:Hover; [destruct w; reflexivity |].
  destruct (isGameRunningRef w); cbn [negb].
  - rewrite Hover. apply (same_controls_flap w).
  - match goal with
    | |- bestScore (if negb (gameOverRef ?w1) then _ else _) = _ =>
        rewrite (flap_unless_over_bestScore w1)
    end.
    destruct w. reflexivity.
Qed.

Lemma step_bestScore (W H : R) (w : World) (e : Event) :
  bestScore (step W H w e)
  = match e with
    | Render => Z.max (bestScore w) (score w)
    | _ => bestScore w
    end.
Proof.
  destruct e; cbn [step].
  - apply (gameLoop_same_controls W H currentTime w).
  - unfold commit. destruct w. cbn.
    match goal with
    | |- context [(?a <? ?b)%Z] => destruct (Z.ltb_spec a b)
    end; cbn; lia.
  - apply handleCanvasClick_bestScore.
  - unfold handleMouseDown. destruct (_ || _); destruct w; reflexivity.
  - unfold handleMouseMove.
    destruct (isDrawingSeen w), (drawStartRef w); destruct w; reflexivity.
  - unfold handleMouseUp.
    destruct (isDrawingSeen w), (drawStartRef w) as [a |],
      (drawCurrentRef w) as [b |];
      try reflexivity.
    rewrite <- (pushGust_bestScore W a b w).
    destruct (pushGust W a b w). reflexivity.
  - unfold handleTouchStart. destruct (_ || _).
    + apply handleCanvasClick_bestScore.
    + destruct w. reflexivity.
  - unfold handleTouchMove.
    destruct (isDrawingSeen w), (drawStartRef w); destruct w; reflexivity.
  - unfold handleTouchEnd. destruct (negb (isGameRunningRef w));
      [reflexivity |].
    destruct (isDrawingSeen w), (drawStartRef w) as [a |],
      (drawCurrentRef w) as [b |];
      try apply flap_unless_over_bestScore.
    cbv zeta. destruct (_ >? _).
    + rewrite <- (pushGust_bestScore W a b w).
      destruct (pushGust W a b w). reflexivity.
    + rewrite <- (flap_unless_over_bestScore w).
      generalize (if negb (gameOverRef w) then flap w else w).
      intros w1. destruct w1. reflexivity.
Qed.

(** X17.  The best score only grows.  Along any sequence of events, from
    any state, the best score never falls below what it was; the effect of
    a render sets it to the maximum of the best score and the score, so
    after a render the score never exceeds it; and no other event changes
    it. *)
Theorem X17_best_score_only_grows (W H : R) (es : list Event) (w : World) :
  (bestScore w <= bestScore (run W H es w))%Z
  /\ bestScore (commit (run W H es w))
     = Z.max (bestScore (run W H es w)) (score (run W H es w))
  /\ (score (run W H (es ++ [Render]) w)
      <= bestScore (run W H (es ++ [Render]) w))%Z
  /\ bestScore (run W H (filter (fun e => match e with
                                          | Render => false
                                          | _ => true
                                          end) es) w)
     = bestScore w.
Proof.
  assert (Hc : forall v, bestScore (commit v)
                         = Z.max (bestScore v) (score v)).
  { intros v. exact (step_bestScore W H v Render). }
  assert (Hs : forall v, score (commit v) = score v).
  { intros v. unfold commit. destruct v. cbn.
    destruct (_ <? _)%Z; reflexivity. }
  split; [| split; [apply Hc | split]].
  - revert w. induction es as [| e es IH]; intros w; [cbn; lia |].
    change (run W H (e :: es) w) with (run W H es (step W H w e)).
    specialize (IH (step W H w e)).
    pose proof (step_bestScore W H w e) as E.
    destruct e; lia.
  - unfold run. rewrite fold_left_app. cbn [fold_left step].
    rewrite Hc, Hs. lia.
  - revert w. induction es as [| e es IH]; intros w; [reflexivity |].
    cbn [filter]. pose proof (step_bestScore W H w e) as E.
    destruct e;
      try (change (run W H (?e :: ?l) w) with (run W H l (step W H w e));
           rewrite IH; exact E).
    apply IH.
Qed.

(** ** Strokes *)

(** The length [handleTouchEnd] computes for itself is [distance]. *)
Lemma touch_length (a b : Vec.t) :
  sqrt ((Vec.x b - Vec.x a) ^ 2 + (Vec.y b - Vec.y a) ^ 2) = distance a b.
Proof. unfold distance. f_equal. ring. Qed.

(** An accepted request, in closed form. *)
Lemma pushGust_accepted (W : R) (a b : Vec.t) (w : World) :
  let cost := Rmin (distance a b * GUST_COST_PER_PIXEL) (windEnergyRef w) in
  20 <= distance a b -> 10 <= cost ->
  pushGust W a b w
  = set_gustsRef
      (gustsRef w
       ++ [Gust.mk (Vec.x a) (Vec.y a)
             (normalize (Vec.mk (Vec.x b - Vec.x a) (Vec.y b - Vec.y a)))
             (Rmin (distance a b * 2) GUST_BASE_POWER) (GUST_RADIUS W)
             GUST_LIFE GUST_LIFE])
      (set_particlesRef
         (particlesRef w
          ++ burst (Vec.x a) (Vec.y a) 5 "rgba(0, 200, 255, 0.8)"
               (randomSource w) (S (randomCount w)))
         (set_randomCount (26 + randomCount w)
            (set_audio
               (Sound.mk (200 + randomSource w (randomCount w) * 100) 0.1
                  sine :: audio w)
               (set_windEnergy (Rmax 0 (windEnergy w - cost)) w)))).
Proof.
  intros cost Hlen Hcost. subst cost. unfold pushGust, createGust.
  rewrite (Rltb_false (distance a b) 20) by lra.
  rewrite (Rltb_false (Rmin _ _) 10) by lra.
  unfold Math_random. rewrite createParticles_spec.
  destruct w. cbn. do 3 f_equal.
Qed.

(** X18.  For a stroke longer than 20 the end of a touch does exactly what
    the release of the mouse does: in a started run, [handleTouchEnd] and
    [handleMouseUp] produce the same state. *)
Theorem X18_touch_drag_is_mouse_drag (W : R) (a b : Vec.t) (w : World) :
  isGameRunningRef w = true ->
  isDrawingSeen w = true ->
  drawStartRef w = Some a ->
  drawCurrentRef w = Some b ->
  20 < distance a b ->
  handleTouchEnd W w = handleMouseUp W w.
Proof.
  intros Hrun Hdraw Ha Hb Hlen. unfold handleTouchEnd, handleMouseUp.
  rewrite Hrun, Hdraw, Ha, Hb. cbn [negb]. cbv zeta.
  rewrite touch_length. unfold Rgtb.
  rewrite (Rltb_true 20 (distance a b)) by exact Hlen.
  reflexivity.
Qed.

Lemma X18_touch_drag_is_mouse_drag_witness :
  let w :=
    set_isDrawingSeen true
      (set_drawStartRef (Some (Vec.mk 100 100))
         (set_drawCurrentRef (Some (Vec.mk 200 100))
            (sample false 80 (sampleBird 100 300 0 0) [] []))) in
  handleTouchEnd 800 w = handleMouseUp 800 w.
Proof.
  intros w.
  apply (X18_touch_drag_is_mouse_drag 800 (Vec.mk 100 100) (Vec.mk 200 100) w);
    try reflexivity.
  unfold distance. cbn [Vec.x Vec.y].
  replace ((100 - 200) ^ 2 + (100 - 100) ^ 2) with (100 ^ 2) by ring.
  rewrite sqrt_pow2 by lra. lra.
Defined.

(** X19.  A stroke of exactly 20 is treated differently by the two
    pointers.  In a run that is on, with at least 10 units of energy in the
    mirror, releasing the mouse creates the weakest gust there is (magnitude
    40, for a cost of 10) and leaves the bird alone, while ending the touch
    creates no gust, costs nothing and flaps the bird.  Both end the
    stroke. *)
Theorem X19_stroke_of_twenty (W : R) (a b : Vec.t) (w : World) :
  isGameRunningRef w = true ->
  gameOverRef w = false ->
  isDrawingSeen w = true ->
  drawStartRef w = Some a ->
  drawCurrentRef w = Some b ->
  distance a b = 20 ->
  10 <= windEnergyRef w ->
  let mouse := handleMouseUp W w in
  let touch := handleTouchEnd W w in
  gustsRef mouse
  = gustsRef w
    ++ [Gust.mk (Vec.x a) (Vec.y a)
          (normalize (Vec.mk (Vec.x b - Vec.x a) (Vec.y b - Vec.y a)))
          40 (GUST_RADIUS W) GUST_LIFE GUST_LIFE]
  /\ windEnergy mouse = Rmax 0 (windEnergy w - 10)
  /\ birdRef mouse = birdRef w
  /\ gustsRef touch = gustsRef w
  /\ windEnergy touch = windEnergy w
  /\ birdRef touch = Bird.with_vy FLAP_POWER (birdRef w)
  /\ drawStartRef mouse = None /\ drawStartRef touch = None
  /\ isDrawing mouse = false /\ isDrawing touch = false.
Proof.
  intros Hrun Hover Hdraw Ha Hb Hlen Hen mouse touch.
  subst mouse touch. unfold handleTouchEnd, handleMouseUp.
  rewrite Hrun, Hover, Hdraw, Ha, Hb. cbn [negb]. cbv zeta.
  rewrite touch_length. unfold Rgtb.
  rewrite (Rltb_false 20 (distance a b)) by lra.
  assert (Hcost : Rmin (distance a b * GUST_COST_PER_PIXEL) (windEnergyRef w)
                  = 10).
  { rewrite Hlen. unfold GUST_COST_PER_PIXEL, Rmin.
    destruct (Rle_dec _ _); lra. }
  rewrite pushGust_accepted by (rewrite ?Hcost; lra).
  rewrite Hcost, flap_spec.
  replace (Rmin (distance a b * 2) GUST_BASE_POWER) with 40
    by (rewrite Hlen; unfold GUST_BASE_POWER, Rmin;
        destruct (Rle_dec _ _); lra).
  destruct w. repeat split.
Qed.

Lemma X19_stroke_of_twenty_witness :
  let w :=
    set_isDrawingSeen true
      (set_drawStartRef (Some (Vec.mk 100 100))
         (set_drawCurrentRef (Some (Vec.mk 120 100))
            (sample false 80 (sampleBird 100 300 0 0) [] []))) in
  gustsRef (handleMouseUp 800 w)
  = [Gust.mk 100 100
       (normalize (Vec.mk (120 - 100) (100 - 100))) 40 (GUST_RADIUS 800)
       GUST_LIFE GUST_LIFE]
  /\ gustsRef (handleTouchEnd 800 w) = [].
Proof.
  intros w.
  assert (Hlen : distance (Vec.mk 100 100) (Vec.mk 120 100) = 20).
  { unfold distance. cbn [Vec.x Vec.y].
    replace ((100 - 120) ^ 2 + (100 - 100) ^ 2) with (20 ^ 2) by ring.
    apply sqrt_pow2. lra. }
  assert (Hen : 10 <= windEnergyRef w) by (cbn; lra).
  pose proof (X19_stroke_of_twenty 800 (Vec.mk 100 100) (Vec.mk 120 100) w
                eq_refl eq_refl eq_refl eq_refl eq_refl Hlen Hen) as T.
  cbv zeta in T. destruct T as (Tm & _ & _ & Tt & _).
  split; [exact Tm | exact Tt].
Defined.

(** X20.  An accepted request, with the mirror of the energy up to date.
    When the stroke is at least 20 long and the cost
    [min (strokeLength * 0.5) energy] is at least 10, [createGust] returns a
    gust at the start of the stroke with magnitude
    [min (strokeLength * 2) 1200], the radius and the life of the constants,
    and the pool is debited by exactly the cost; the clamp at 0 never
    acts.  The rest of the world but the sound and the particles is as it
    was. *)
Theorem X20_accepted_gust_request
    (W : R) (start end_ : Vec.t) (w : World) :
  let strokeLength := distance start end_ in
  let cost := Rmin (strokeLength * GUST_COST_PER_PIXEL) (windEnergy w) in
  windEnergyRef w = windEnergy w ->
  20 <= strokeLength ->
  10 <= cost ->
  let w' := pushGust W start end_ w in
  (exists g w1,
     createGust (GUST_RADIUS W) start end_ w = (Some g, w1)
     /\ gustsRef w' = gustsRef w ++ [g]
     /\ Gust.pos g = start
     /\ Gust.magnitude g = Rmin (strokeLength * 2) GUST_BASE_POWER
     /\ 40 <= Gust.magnitude g <= GUST_BASE_POWER
     /\ Gust.radius g = GUST_RADIUS W
     /\ Gust.life g = GUST_LIFE /\ Gust.maxLife g = GUST_LIFE)
  /\ windEnergy w' = windEnergy w - cost
  /\ 0 <= windEnergy w' <= windEnergy w - 10
  /\ birdRef w' = birdRef w /\ pipesRef w' = pipesRef w
  /\ score w' = score w /\ gameOver w' = gameOver w
  /\ List.length (particlesRef w') = (List.length (particlesRef w) + 5)%nat
  /\ List.length (audio w') = S (List.length (audio w)).
Proof.
  intros strokeLength cost Hsync Hlen Hcost w'.
  subst w' cost strokeLength.
  pose proof (pushGust_accepted W start end_ w) as E. cbv zeta in E.
  rewrite Hsync in E. specialize (E Hlen Hcost).
  set (c := Rmin (distance start end_ * GUST_COST_PER_PIXEL) (windEnergy w))
    in *.
  assert (Hc : c <= windEnergy w) by (subst c; apply Rmin_r).
  split.
  - eexists _, _. split.
    + unfold createGust. rewrite Hsync. fold c.
      rewrite (Rltb_false (distance start end_) 20) by lra.
      rewrite (Rltb_false c 10) by lra.
      unfold Math_random. reflexivity.
    + rewrite E. cbn [Gust.pos Gust.x Gust.y Gust.magnitude Gust.radius
                       Gust.life Gust.maxLife].
      split; [destruct w; reflexivity |].
      split; [destruct start; reflexivity |].
      split; [reflexivity |].
      split; [| repeat split; reflexivity].
      unfold GUST_BASE_POWER, Rmin. destruct (Rle_dec _ _); lra.
  - rewrite E.
    assert (Hmax : Rmax 0 (windEnergy w - c) = windEnergy w - c).
    { unfold Rmax. destruct (Rle_dec _ _); lra. }
    destruct w. cbn in *. rewrite Hmax.
    rewrite length_app, (proj1 (burst_fresh _ _ _ _ _ _)).
    repeat split; try reflexivity; lra.
Qed.

Lemma X20_accepted_gust_request_witness :
  let w := sample false 80 (sampleBird 100 300 0 0) [] [] in
  windEnergy (pushGust 800 (Vec.mk 100 100) (Vec.mk 200 100) w) = 80 - 50.
Proof.
  intros w.
  assert (Hd : distance (Vec.mk 100 100) (Vec.mk 200 100) = 100).
  { unfold distance. cbn [Vec.x Vec.y].
    replace ((100 - 200) ^ 2 + (100 - 100) ^ 2) with (100 ^ 2) by ring.
    apply sqrt_pow2. lra. }
  assert (Hc : Rmin (distance (Vec.mk 100 100) (Vec.mk 200 100)
                     * GUST_COST_PER_PIXEL) (windEnergy w) = 50).
  { rewrite Hd. unfold GUST_COST_PER_PIXEL, Rmin. cbn.
    destruct (Rle_dec _ _); lra. }
  assert (Hsync : windEnergyRef w = windEnergy w) by reflexivity.
  assert (Hlen : 20 <= distance (Vec.mk 100 100) (Vec.mk 200 100))
    by (rewrite Hd; lra).
  assert (Hcost : 10 <= Rmin (distance (Vec.mk 100 100) (Vec.mk 200 100)
                              * GUST_COST_PER_PIXEL) (windEnergy w))
    by (rewrite Hc; lra).
  pose proof (X20_accepted_gust_request 800 (Vec.mk 100 100)
                (Vec.mk 200 100) w Hsync Hlen Hcost) as T.
  cbv zeta in T. destruct T as (_ & Te & _).
  rewrite Te, Hc. reflexivity.
Defined.

(** ** Particles *)

Lemma burst_near (x y : R) (count : nat) (color : string)
    (source : nat -> R) (k : nat) :
  (forall n, 0 <= source n < 1) ->
  Forall (fun p =>
            Rabs (Particle.x p - x) <= 10 /\ Rabs (Particle.y p - y) <= 10
            /\ Rabs (Particle.vx p) <= 100 /\ Rabs (Particle.vy p) <= 100
            /\ 2 <= Particle.size p < 6
            /\ Particle.life p = 0.5 /\ Particle.maxLife p = 0.5
            /\ Particle.color p = color)
    (burst x y count color source k).
Proof.
  intros Hsrc. revert k. induction count as [| n IH]; intros k;
    [constructor |].
  change (burst x y (S n) color source k)
    with (particleOf x y color source k :: burst x y n color source (5 + k)).
  constructor; [| apply IH].
  unfold particleOf. cbn.
  pose proof (Hsrc k). pose proof (Hsrc (S k)). pose proof (Hsrc (S (S k))).
  pose proof (Hsrc (S (S (S k)))). pose proof (Hsrc (S (S (S (S k))))).
  repeat split; try reflexivity; try lra; apply Rabs_le; lra.
Qed.

(** X21.  [createParticles x y count color], with random draws in
    [[0, 1)], appends exactly [count] particles and consumes five draws for
    each.  Every new particle starts within 10 of [(x, y)] on both axes,
    with both velocities at most 100 in absolute value, a size in
    [[2, 6)], the given colour and half a second to live; the particles
    that were there are kept, in order, and nothing else changes. *)
Theorem X21_particles_start_near_origin
    (x y : R) (count : nat) (color : string) (w : World) :
  (forall n, 0 <= randomSource w n < 1) ->
  let w' := createParticles x y count color w in
  exists fresh,
    particlesRef w' = particlesRef w ++ fresh
    /\ List.length fresh = count
    /\ randomCount w' = (5 * count + randomCount w)%nat
    /\ Forall (fun p =>
                 Rabs (Particle.x p - x) <= 10
                 /\ Rabs (Particle.y p - y) <= 10
                 /\ Rabs (Particle.vx p) <= 100
                 /\ Rabs (Particle.vy p) <= 100
                 /\ 2 <= Particle.size p < 6
                 /\ Particle.life p = 0.5 /\ Particle.maxLife p = 0.5
                 /\ Particle.color p = color) fresh
    /\ w' = set_particlesRef (particlesRef w')
              (set_randomCount (randomCount w') w).
Proof.
  intros Hsrc w'. subst w'. rewrite createParticles_spec.
  exists (burst x y count color (randomSource w) (randomCount w)).
  split; [destruct w; reflexivity |].
  split; [apply burst_fresh |].
  split; [destruct w; reflexivity |].
  split; [apply burst_near, Hsrc |].
  destruct w. reflexivity.
Qed.

Lemma X21_particles_start_near_origin_witness :
  let w := sample false 50 (sampleBird 100 300 0 0) [] [] in
  List.length (particlesRef (createParticles 100 300 3 "#FFD700" w)) = 3%nat.
Proof.
  intros w.
  assert (Hsrc : forall n, 0 <= randomSource w n < 1) by (intros n; cbn; lra).
  destruct (X21_particles_start_near_origin 100 300 3 "#FFD700" w Hsrc)
    as (fresh & E & Hlen & _).
  rewrite E. exact Hlen.
Defined.

(** ** Particles over several ticks *)

Lemma updateParticles_particles (deltaTime : R) (w : World) :
  particlesRef (updateParticles deltaTime w)
  = filter (fun p => Particle.life p >? 0)
      (map (updateParticle deltaTime) (particlesRef w)).
Proof. destruct w. reflexivity. Qed.

Lemma updateParticles_keeps (deltaTime : R) (particles : list Particle.t) :
  filter (fun p => Particle.life p >? 0)
    (map (updateParticle deltaTime) particles)
  = map (updateParticle deltaTime)
      (filter (fun p => deltaTime <? Particle.life p) particles).
Proof.
  induction particles as [| p particles IH]; [reflexivity |].
  cbn [map filter]. rewrite IH. unfold Rgtb.
  destruct (Rltb_spec deltaTime (Particle.life p)) as [Hl | Hl].
  - rewrite (Rltb_true 0 (Particle.life (updateParticle deltaTime p)))
      by (destruct p; cbn in *; lra).
    reflexivity.
  - rewrite (Rltb_false 0 (Particle.life (updateParticle deltaTime p)))
      by (destruct p; cbn in *; lra).
    reflexivity.
Qed.

(** Where the particles are after several ticks. *)
Lemma updateParticles_from (deltaTimes : list R) (w : World) :
  Forall (fun d => 0 <= d) deltaTimes ->
  Forall (fun q =>
            exists p, In p (particlesRef w)
              /\ Particle.life q <= Particle.life p
              /\ Forall (fun d => d < Particle.life p) deltaTimes
              /\ Particle.x q = Particle.x p + Particle.vx p * total deltaTimes
              /\ Particle.vx q = Particle.vx p
              /\ Particle.vy q = Particle.vy p + 200 * total deltaTimes
              /\ Particle.maxLife q = Particle.maxLife p
              /\ Particle.color q = Particle.color p
              /\ Particle.size q = Particle.size p)
    (particlesRef (fold_left (fun w d => updateParticles d w) deltaTimes w)).
Proof.
  intros Hpos. revert w. induction Hpos as [| d ds Hd Hds IH]; intros w.
  - cbn [fold_left total fold_right]. apply Forall_forall. intros q Hq.
    exists q. split; [exact Hq |]. split; [lra |]. split; [constructor |].
    repeat split; try reflexivity; ring.
  - cbn [fold_left]. specialize (IH (updateParticles d w)).
    apply Forall_forall. intros q Hq. rewrite Forall_forall in IH.
    destruct (IH q Hq)
      as (p1 & Hin & Hle & Hall & E2 & E3 & E4 & E5 & E6 & E7).
    rewrite updateParticles_particles, updateParticles_keeps in Hin.
    apply in_map_iff in Hin. destruct Hin as (p & <- & Hp).
    apply filter_In in Hp. destruct Hp as [Hp Hlife].
    destruct (Rltb_spec d (Particle.life p)) as [Hl |]; [| discriminate].
    exists p. split; [exact Hp |].
    change (total (d :: ds)) with (d + total ds).
    rewrite E2, E3, E4, E5, E6, E7.
    assert (Hle1 : Particle.life (updateParticle d p) <= Particle.life p)
      by (destruct p; cbn; lra).
    split; [lra |].
    split.
    { constructor; [exact Hl |].
      eapply Forall_impl; [| exact Hall]. intros d' Hd'. lra. }
    destruct p. unfold updateParticle. cbn.
    repeat split; try reflexivity; ring.
Qed.

Lemma updateParticles_alive (deltaTimes : list R) (w : World) :
  deltaTimes <> [] ->
  Forall (fun q => 0 < Particle.life q)
    (particlesRef (fold_left (fun w d => updateParticles d w) deltaTimes w)).
Proof.
  revert w. induction deltaTimes as [| d ds IH]; intros w Hne;
    [congruence |].
  destruct ds as [| d' ds'].
  - cbn [fold_left]. rewrite updateParticles_particles.
    apply Forall_forall. intros q Hq. apply filter_In in Hq.
    destruct Hq as [_ Hq]. unfold Rgtb in Hq.
    destruct (Rltb_spec 0 (Particle.life q)); [assumption | discriminate].
  - change (fold_left (fun w d => updateParticles d w) (d :: d' :: ds') w)
      with (fold_left (fun w d => updateParticles d w) (d' :: ds')
              (updateParticles d w)).
    apply IH. discriminate.
Qed.

Lemma updateParticles_fewer (deltaTimes : list R) (w : World) :
  (List.length
     (particlesRef (fold_left (fun w d => updateParticles d w) deltaTimes w))
   <= List.length (particlesRef w))%nat.
Proof.
  revert w. induction deltaTimes as [| d ds IH]; intros w; [cbn; lia |].
  cbn [fold_left]. etransitivity; [apply IH |].
  rewrite updateParticles_particles.
  etransitivity; [apply filter_length_le |]. rewrite length_map. lia.
Qed.

(** X22.  Particles fly and leave.  A tick of [updateParticles] keeps
    exactly the particles that have more life than the tick is long.  Over
    any sequence of ticks with non-negative time steps no particle is added,
    and every particle left is alive and comes from a particle [p] that was
    there: its life is not larger than that of [p], which exceeded each of
    the ticks; its horizontal velocity, maximal life, colour and size are
    those of [p]; and, the arithmetic being exact, it has moved by its
    horizontal velocity times the total time while its vertical velocity has
    grown by 200 per second.  So a tick at least as long as every life
    leaves no particle. *)
Theorem X22_particles_fly_and_leave (deltaTimes : list R) (w : World) :
  Forall (fun d => 0 <= d) deltaTimes ->
  deltaTimes <> [] ->
  let w' := fold_left (fun w d => updateParticles d w) deltaTimes w in
  (forall deltaTime v,
      particlesRef (updateParticles deltaTime v)
      = map (updateParticle deltaTime)
          (filter (fun p => deltaTime <? Particle.life p) (particlesRef v)))
  /\ Forall (fun q =>
               0 < Particle.life q
               /\ exists p, In p (particlesRef w)
                    /\ Particle.life q <= Particle.life p
                    /\ Forall (fun d => d < Particle.life p) deltaTimes
                    /\ Particle.x q
                       = Particle.x p + Particle.vx p * total deltaTimes
                    /\ Particle.vx q = Particle.vx p
                    /\ Particle.vy q
                       = Particle.vy p + 200 * total deltaTimes
                    /\ Particle.maxLife q = Particle.maxLife p
                    /\ Particle.color q = Particle.color p
                    /\ Particle.size q = Particle.size p)
       (particlesRef w')
  /\ (List.length (particlesRef w') <= List.length (particlesRef w))%nat
  /\ (Exists (fun d => Forall (fun p => Particle.life p <= d)
                         (particlesRef w)) deltaTimes ->
      particlesRef w' = []).
Proof.
  intros Hpos Hne w'.
  pose proof (updateParticles_from deltaTimes w Hpos) as Hfrom.
  pose proof (updateParticles_alive deltaTimes w Hne) as Halive.
  fold w' in Hfrom, Halive.
  split.
  { intros deltaTime v. rewrite updateParticles_particles.
    apply updateParticles_keeps. }
  split.
  { rewrite Forall_forall in *. intros q Hin.
    split; [apply Halive, Hin | apply Hfrom, Hin]. }
  split; [apply updateParticles_fewer |].
  intros Hlong. destruct (particlesRef w') as [| q rest]; [reflexivity |].
  exfalso. apply Forall_inv in Hfrom.
  destruct Hfrom as (p & Hin & _ & Hall & _).
  apply Exists_exists in Hlong. destruct Hlong as (d & Hd & Hle).
  rewrite Forall_forall in Hall, Hle.
  specialize (Hall d Hd). specialize (Hle p Hin). lra.
Qed.

Lemma X22_particles_fly_and_leave_witness :
  let w :=
    createParticles 100 300 3 "#FFD700"
      (sample false 50 (sampleBird 100 300 0 0) [] []) in
  List.length (particlesRef (updateParticles 0.3 w)) = 3%nat
  /\ particlesRef (fold_left (fun w d => updateParticles d w) [0.3; 0.6] w)
     = [].
Proof.
  intros w.
  assert (Hpos : Forall (fun d => 0 <= d) [0.3; 0.6])
    by (repeat (apply Forall_cons; [lra |]); apply Forall_nil).
  assert (Hne : [0.3; 0.6] <> []) by discriminate.
  pose proof (X22_particles_fly_and_leave [0.3; 0.6] w Hpos Hne) as T.
  cbv zeta in T. destruct T as (Tone & _ & _ & Texp).
  assert (Ew : particlesRef w
               = burst 100 300 3 "#FFD700" (fun _ => 0.5) 0).
  { subst w. rewrite createParticles_spec. reflexivity. }
  assert (Hlife : Forall (fun p => Particle.life p = 0.5) (particlesRef w)).
  { rewrite Ew. eapply Forall_impl; [| apply burst_particles].
    intros p [Hl _]. exact Hl. }
  split.
  - rewrite Tone, length_map.
    assert (Hall : forall l,
              Forall (fun p => Particle.life p = 0.5) l ->
              filter (fun p => 0.3 <? Particle.life p) l = l).
    { intros l Hl. induction Hl as [| p l Hp Hl IHl]; [reflexivity |].
      cbn [filter]. rewrite Hp, (Rltb_true 0.3 0.5) by lra.
      f_equal. exact IHl. }
    rewrite (Hall _ Hlife), Ew. apply burst_fresh.
  - apply Texp. apply Exists_cons_tl, Exists_cons_hd.
    eapply Forall_impl; [| exact Hlife].
    intros p Hl. rewrite Hl. lra.
Defined.

(** ** Where binary64 and exact arithmetic part

    Ticks do not add up on binary64 numbers.  Eighty ticks of 0.015 on a
    life of 1.2, and five ticks of 0.1 on a life of 0.5, total the life when
    the arithmetic is exact, and the entity is dropped by the last of them;
    on binary64 numbers the repeated subtraction leaves a positive residue
    and the entity lives one tick longer. *)
Lemma binary64_life_residue :
  agesF (repeat 0.015%float 80) 1.2 = Some 4.5796699765787707e-16%float
  /\ agesF (repeat 0.015%float 81) 1.2 = None
  /\ agesF (repeat 0.1%float 5) 0.5 = Some 2.7755575615628914e-17%float
  /\ agesF (repeat 0.1%float 6) 0.5 = None.
Proof. vm_compute. repeat split. Qed.

(** ** The clock of the frames *)

(** X23.  Two frames in a row.  The first frame records its time stamp
    whatever it does, so the second one is discarded -- nothing changes but
    the recorded time stamp -- when the first time stamp is 0 (taken as "no
    frame yet"), when time did not advance, and when at least 100
    milliseconds went by, as after a pause. *)
Theorem X23_frame_after_a_pause (W H t1 t2 : R) (w : World) :
  t1 = 0 \/ t2 <= t1 \/ t1 + 100 <= t2 ->
  gameLoop W H t2 (gameLoop W H t1 w)
  = set_lastTimeRef t2 (gameLoop W H t1 w).
Proof.
  intros Hgap.
  pose proof (gameLoop_lastTimeRef W H t1 w) as Hlast.
  set (w1 := gameLoop W H t1 w) in *. clearbody w1.
  unfold gameLoop, frameDelta. rewrite Hlast. unfold Rgtb.
  destruct (Req_dec_T t1 0) as [Hz | Hnz].
  - rewrite (truthy_false t1 Hz).
    rewrite (Rltb_false 0 0) by lra. reflexivity.
  - rewrite (truthy_true t1 Hnz).
    destruct Hgap as [Hz | [Hback | Hlate]]; [contradiction | |].
    + rewrite (Rltb_false 0 ((t2 - t1) / 1000)) by lra. reflexivity.
    + rewrite (Rltb_false ((t2 - t1) / 1000) 0.1) by lra.
      rewrite andb_false_r. reflexivity.
Qed.

Lemma X23_frame_after_a_pause_witness :
  let w := sample false 50 (sampleBird 100 300 0 0) [] [] in
  gameLoop 800 600 1216 (gameLoop 800 600 1016 w)
  = set_lastTimeRef 1216 (gameLoop 800 600 1016 w).
Proof.
  intros w. apply X23_frame_after_a_pause. right. right. lra.
Defined.

(** ** Regeneration over several ticks *)

Lemma updateWindEnergy_fields (deltaTime : R) (w : World) :
  windEnergyRef (updateWindEnergy deltaTime w) = windEnergyRef w
  /\ windEnergy (updateWindEnergy deltaTime w)
     = if windEnergyRef w <? MAX_WIND_ENERGY
       then Rmin MAX_WIND_ENERGY (windEnergy w + WIND_REGEN_RATE * deltaTime)
       else windEnergy w.
Proof.
  unfold updateWindEnergy. destruct (_ <? _); destruct w; split; reflexivity.
Qed.

(** X24.  Regeneration adds up, and it is the mirror that decides whether
    it happens.  Over any sequence of ticks of [updateWindEnergy] with
    non-negative time steps and no render in between: while the mirror of
    the energy is below the maximum, the pool ends at
    [min 100 (energy + 15 * total)], whatever the frame rate; while the
    mirror is at the maximum, the pool does not regenerate at all, even
    when it is below the maximum itself. *)
Theorem X24_regeneration_adds_up (deltaTimes : list R) (w : World) :
  Forall (fun d => 0 <= d) deltaTimes ->
  windEnergy w <= MAX_WIND_ENERGY ->
  let w' := fold_left (fun w d => updateWindEnergy d w) deltaTimes w in
  windEnergy w'
  = (if windEnergyRef w <? MAX_WIND_ENERGY
     then Rmin MAX_WIND_ENERGY
            (windEnergy w + WIND_REGEN_RATE * total deltaTimes)
     else windEnergy w)
  /\ windEnergyRef w' = windEnergyRef w.
Proof.
  intros Hpos. revert w. induction Hpos as [| d ds Hd Hds IH]; intros w Hle w'.
  - subst w'. cbn [fold_left total fold_right]. split; [| reflexivity].
    destruct (_ <? _); [| reflexivity].
    rewrite Rmult_0_r, Rplus_0_r. unfold Rmin.
    destruct (Rle_dec _ _); lra.
  - subst w'. cbn [fold_left].
    destruct (updateWindEnergy_fields d w) as [Eref Een].
    assert (Hle1 : windEnergy (updateWindEnergy d w) <= MAX_WIND_ENERGY).
    { rewrite Een. destruct (_ <? _); [apply Rmin_l | exact Hle]. }
    destruct (IH (updateWindEnergy d w) Hle1) as [IHe IHr].
    rewrite IHe, IHr, Eref, Een. split; [| reflexivity].
    destruct (_ <? _); [| reflexivity].
    change (total (d :: ds)) with (d + total ds).
    assert (Ht : 0 <= total ds).
    { clear - Hds. induction Hds as [| a l Ha Hl IHl]; cbn; [lra |].
      fold (total l). unfold total in *. lra. }
    unfold MAX_WIND_ENERGY, WIND_REGEN_RATE in *. unfold Rmin.
    repeat destruct (Rle_dec _ _); lra.
Qed.

Lemma X24_regeneration_adds_up_witness :
  let w := sample false 40 (sampleBird 100 300 0 0) [] [] in
  windEnergy (fold_left (fun w d => updateWindEnergy d w) [1; 1; 2] w) = 100.
Proof.
  intros w.
  assert (Hpos : Forall (fun d => 0 <= d) [1; 1; 2])
    by (repeat (apply Forall_cons; [lra |]); apply Forall_nil).
  assert (Hle : windEnergy w <= MAX_WIND_ENERGY)
    by (unfold MAX_WIND_ENERGY; cbn; lra).
  pose proof (X24_regeneration_adds_up [1; 1; 2] w Hpos Hle) as T.
  cbv zeta in T. destruct T as [Te _]. rewrite Te.
  replace (windEnergyRef w) with 40 by reflexivity.
  replace (windEnergy w) with 40 by reflexivity.
  unfold MAX_WIND_ENERGY, WIND_REGEN_RATE, total. cbn [fold_right].
  rewrite (Rltb_true 40 100) by lra.
  unfold Rmin. destruct (Rle_dec _ _); lra.
Defined.

(** ** What the handlers leave alone *)

Lemma same_controls_pushGust (W : R) (a b : Vec.t) (w : World) :
  same_controls w (pushGust W a b w).
Proof.
  unfold pushGust, createGust.
  destruct (_ <? _); [apply same_controls_refl |].
  destruct (_ <? _); [apply same_controls_refl |].
  unfold Math_random. rewrite createParticles_spec.
  destruct w. repeat split.
Qed.

Lemma same_controls_flap_unless_over (w : World) :
  same_controls w (if negb (gameOverRef w) then flap w else w).
Proof.
  destruct (negb (gameOverRef w));
    [apply same_controls_flap | apply same_controls_refl].
Qed.

(** A click can start the run; the other controls are not its business. *)
Lemma handleCanvasClick_controls (W H : R) (w : World) :
  same_controls (set_isGameRunning (isGameRunning (handleCanvasClick W H w)) w)
    (handleCanvasClick W H w).
Proof.
  unfold handleCanvasClick.
  destruct (isDrawingSeen w); [destruct w; repeat split |].
  destruct (gameOverRef w) eqn:Hover; [destruct w; repeat split |].
  destruct (isGameRunningRef w); cbn [negb].
  - rewrite Hover. cbn [negb].
    pose proof (same_controls_flap w) as T. revert T.
    generalize (flap w). intros w2 T. unfold same_controls in *.
    destruct T as (A1 & A2 & A3 & A4 & A5 & A6 & A7 & A8 & A9 & A10 & A11).
    destruct w. cbn in *. repeat split; assumption.
  - match goal with
    | |- context [if negb (gameOverRef ?w1) then _ else _] =>
        pose proof (same_controls_flap_unless_over w1) as T;
        revert T;
        generalize (if negb (gameOverRef w1) then flap w1 else w1)
    end.
    intros w2 T. unfold same_controls in *.
    destruct T as (A1 & A2 & A3 & A4 & A5 & A6 & A7 & A8 & A9 & A10 & A11).
    destruct w. cbn in *. repeat split; assumption.
Qed.

Lemma same_controls_windEnergyRef (w w' : World) :
  same_controls w w' -> windEnergyRef w' = windEnergyRef w.
Proof. intros T. apply T. Qed.

Lemma same_controls_stroke (w w' : World) :
  same_controls w w' -> stroke_ok w -> stroke_ok w'.
Proof.
  unfold same_controls, stroke_ok.
  intros (_ & _ & -> & -> & -> & _). exact (fun S => S).
Qed.

Lemma stroke_ok_stopDrawing (w : World) : stroke_ok (stopDrawing w).
Proof. destruct w. reflexivity. Qed.

Lemma stroke_ok_startDrawing (pos : Vec.t) (w : World) :
  stroke_ok (startDrawing pos w).
Proof. destruct w. reflexivity. Qed.

Lemma stroke_ok_move (pos : Vec.t) (w : World) :
  stroke_ok w ->
  stroke_ok match isDrawingSeen w, drawStartRef w with
            | true, Some _ => set_drawCurrentRef (Some pos) w
            | _, _ => w
            end.
Proof.
  intros S. destruct (isDrawingSeen w); [| exact S].
  destruct (drawStartRef w) eqn:Es; [| exact S].
  unfold stroke_ok in *. rewrite Es in S.
  destruct (drawCurrentRef w) eqn:Ec; [| contradiction].
  destruct w. cbn in *. rewrite Es. exact S.
Qed.

Lemma stroke_ok_step (W H : R) (w : World) (e : Event) :
  stroke_ok w -> stroke_ok (step W H w e).
Proof.
  intros S. destruct e; cbn [step].
  - exact (same_controls_stroke _ _ (gameLoop_same_controls W H _ w) S).
  - unfold commit, stroke_ok in *. destruct w. cbn in *.
    destruct (_ <? _)%Z; exact S.
  - apply (same_controls_stroke _ _ (handleCanvasClick_controls W H w)).
    unfold stroke_ok in *. destruct w. exact S.
  - unfold handleMouseDown.
    destruct (_ || _); [exact S | apply stroke_ok_startDrawing].
  - apply stroke_ok_move, S.
  - unfold handleMouseUp.
    destruct (isDrawingSeen w), (drawStartRef w) as [a |],
      (drawCurrentRef w) as [b |];
      try exact S.
    apply stroke_ok_stopDrawing.
  - unfold handleTouchStart. destruct (_ || _).
    + apply (same_controls_stroke _ _ (handleCanvasClick_controls W H w)).
      unfold stroke_ok in *. destruct w. exact S.
    + apply stroke_ok_startDrawing.
  - apply stroke_ok_move, S.
  - unfold handleTouchEnd.
    destruct (negb (isGameRunningRef w)); [exact S |].
    destruct (isDrawingSeen w), (drawStartRef w) eqn:Es,
      (drawCurrentRef w) eqn:Ec;
      try apply stroke_ok_stopDrawing;
      apply (same_controls_stroke _ _ (same_controls_flap_unless_over w) S).
Qed.

(** X25.  The cells of a stroke move together.  In every state of a
    session, from the mounting of the component on, either a stroke is
    being drawn and both its start and its current end are known, or none
    is and both are empty. *)
Theorem X25_stroke_cells_move_together (W H : R) (es : list Event)
    (source : nat -> R) (clouds : list Cloud.t) (best : Z) :
  let w := run W H es (initialWorld W H source clouds best) in
  stroke_ok w
  /\ (isDrawing w = true <-> drawStartRef w <> None)
  /\ (drawStartRef w = None <-> drawCurrentRef w = None).
Proof.
  intros w.
  assert (S : stroke_ok w).
  { subst w.
    assert (Hrun : forall v, stroke_ok v -> stroke_ok (run W H es v)).
    { induction es as [| e es IH]; intros v Hv; [exact Hv |].
      cbn [run fold_left]. apply IH. apply stroke_ok_step. exact Hv. }
    apply Hrun. reflexivity. }
  split; [exact S |]. unfold stroke_ok in S.
  destruct (drawStartRef w), (drawCurrentRef w); try contradiction;
    rewrite S; repeat split; intros; congruence.
Qed.

(** ** The energy bar *)

Lemma step_windEnergyRef (W H : R) (w : World) (e : Event) :
  windEnergyRef (step W H w e)
  = match e with
    | Render => windEnergy w
    | _ => windEnergyRef w
    end.
Proof.
  destruct e; cbn [step].
  - apply same_controls_windEnergyRef, gameLoop_same_controls.
  - unfold commit. destruct w. cbn. destruct (_ <? _)%Z; reflexivity.
  - rewrite (same_controls_windEnergyRef _ _
               (handleCanvasClick_controls W H w)).
    destruct w. reflexivity.
  - unfold handleMouseDown. destruct (_ || _); destruct w; reflexivity.
  - unfold handleMouseMove.
    destruct (isDrawingSeen w), (drawStartRef w); destruct w; reflexivity.
  - unfold handleMouseUp.
    destruct (isDrawingSeen w), (drawStartRef w) as [a |],
      (drawCurrentRef w) as [b |];
      try reflexivity.
    rewrite <- (same_controls_windEnergyRef _ _
                  (same_controls_pushGust W a b w)).
    destruct (pushGust W a b w). reflexivity.
  - unfold handleTouchStart. destruct (_ || _).
    + rewrite (same_controls_windEnergyRef _ _
                 (handleCanvasClick_controls W H w)).
      destruct w. reflexivity.
    + destruct w. reflexivity.
  - unfold handleTouchMove.
    destruct (isDrawingSeen w), (drawStartRef w); destruct w; reflexivity.
  - unfold handleTouchEnd. destruct (negb (isGameRunningRef w));
      [reflexivity |].
    destruct (isDrawingSeen w), (drawStartRef w) as [a |],
      (drawCurrentRef w) as [b |];
      try apply same_controls_windEnergyRef,
                same_controls_flap_unless_over.
    cbv zeta. destruct (_ >? _).
    + rewrite <- (same_controls_windEnergyRef _ _
                    (same_controls_pushGust W a b w)).
      destruct (pushGust W a b w). reflexivity.
    + rewrite <- (same_controls_windEnergyRef _ _
                    (same_controls_flap_unless_over w)).
      generalize (if negb (gameOverRef w) then flap w else w).
      intros w1. destruct w1. reflexivity.
Qed.

(** X26.  The energy bar never overflows.  In every state of a session on
    a canvas of non-negative width, the mirror of the energy that [drawUI]
    reads is within [[0, 100]], so the filled fraction is within [[0, 1]]
    and the filling is within the bar. *)
Theorem X26_energy_bar_never_overflows (W H : R) (es : list Event)
    (source : nat -> R) (clouds : list Cloud.t) (best : Z) :
  0 <= W ->
  let w := run W H es (initialWorld W H source clouds best) in
  0 <= windEnergyRef w <= MAX_WIND_ENERGY
  /\ 0 <= energyPercent w <= 1
  /\ 0 <= fillWidth W w <= barWidth W.
Proof.
  intros HW w.
  assert (Hm : energy_ok w /\ 0 <= windEnergyRef w <= MAX_WIND_ENERGY).
  { subst w.
    assert (Hrun : forall v,
              energy_ok v /\ 0 <= windEnergyRef v <= MAX_WIND_ENERGY ->
              energy_ok (run W H es v)
              /\ 0 <= windEnergyRef (run W H es v) <= MAX_WIND_ENERGY).
    { induction es as [| e es IH]; intros v Hv; [exact Hv |].
      cbn [run fold_left]. apply IH. destruct Hv as [He Hr].
      split; [apply pool_step, He |].
      rewrite step_windEnergyRef. destruct e; try exact Hr. exact He. }
    apply Hrun. unfold energy_ok, MAX_WIND_ENERGY. cbn. lra. }
  destruct Hm as [_ Hm]. unfold MAX_WIND_ENERGY in *.
  split; [exact Hm |].
  assert (Hp : 0 <= energyPercent w <= 1).
  { unfold energyPercent, MAX_WIND_ENERGY. lra. }
  split; [exact Hp |].
  assert (Hb : 0 <= barWidth W).
  { unfold barWidth, Rmin. destruct (Rle_dec _ _); lra. }
  unfold fillWidth. nra.
Qed.

Lemma X26_energy_bar_never_overflows_witness :
  let w := run 800 600 [Click; Render; Frame 16; Frame 32]
             (initialWorld 800 600 (fun _ => 0.5) [] 0%Z) in
  0 <= fillWidth 800 w <= barWidth 800.
Proof.
  intros w.
  assert (HW : 0 <= 800) by lra.
  exact (proj2 (proj2 (X26_energy_bar_never_overflows 800 600
                         [Click; Render; Frame 16; Frame 32]
                         (fun _ => 0.5) [] 0%Z HW))).
Defined.

(** ** The way through an obstacle *)



(** ** Clouds *)

Lemma forEach_updateCloud_drifted (W H deltaTime : R) (clouds : list Cloud.t)
    (w : World) :
  exists clouds' count,
    forEach (updateCloud W H deltaTime) clouds w
    = (clouds', set_randomCount count w)
    /\ Forall2 (drifted W H deltaTime (randomSource w)) clouds clouds'
    /\ (randomCount w <= count <= randomCount w + List.length clouds)%nat.
Proof.
  revert w. induction clouds as [| cloud clouds IH]; intros w.
  - exists [], (randomCount w).
    split; [destruct w; reflexivity | split; [constructor | cbn; lia]].
  - cbn [forEach]. unfold updateCloud at 1.
    destruct (Rltb_spec (Cloud.x cloud - Cloud.speed cloud * deltaTime)
                (- Cloud.size cloud - 50)) as [Hout | Hin].
    + unfold Math_random.
      destruct (IH (set_randomCount (S (randomCount w)) w))
        as (cs & rc & E & Hall & Hrc).
      rewrite E. eexists _, rc.
      split; [destruct w; reflexivity |].
      replace (randomSource (set_randomCount (S (randomCount w)) w))
        with (randomSource w) in Hall by (destruct w; reflexivity).
      replace (randomCount (set_randomCount (S (randomCount w)) w))
        with (S (randomCount w)) in Hrc by (destruct w; reflexivity).
      split; [| cbn [List.length]; lia].
      constructor; [| exact Hall].
      unfold drifted. cbn. repeat split. right.
      split; [exact Hout |]. split; [reflexivity |].
      exists (randomCount w). reflexivity.
    + destruct (IH w) as (cs & rc & E & Hall & Hrc). rewrite E.
      eexists _, rc. split; [reflexivity |].
      split; [| cbn [List.length]; lia].
      constructor; [| exact Hall].
      unfold drifted. cbn. repeat split. left.
      repeat split. lra.
Qed.

(** X28.  Clouds drift and wrap.  A tick of [updateClouds] neither creates
    nor removes a cloud: cloud by cloud, in order, size, speed and opacity
    are kept, and the cloud either moves left by [speed * deltaTime] at its
    height or, when that would take it beyond [- size - 50], re-enters at
    [CANVAS_WIDTH + size] at a height drawn at random.  One random draw is
    consumed for each cloud that re-enters, and nothing else changes.  On a
    canvas of non-negative width, with clouds of non-negative size, no
    cloud is beyond the left margin after the tick. *)
Theorem X28_clouds_drift_and_wrap (W H deltaTime : R) (w : World) :
  0 <= W ->
  Forall (fun cloud => 0 <= Cloud.size cloud) (cloudsRef w) ->
  let w' := updateClouds W H deltaTime w in
  Forall2 (drifted W H deltaTime (randomSource w)) (cloudsRef w)
    (cloudsRef w')
  /\ List.length (cloudsRef w') = List.length (cloudsRef w)
  /\ Forall (fun cloud => - Cloud.size cloud - 50 <= Cloud.x cloud
                          /\ 0 <= Cloud.size cloud) (cloudsRef w')
  /\ (randomCount w <= randomCount w'
      <= randomCount w + List.length (cloudsRef w))%nat
  /\ w' = set_cloudsRef (cloudsRef w') (set_randomCount (randomCount w') w).
Proof.
  intros HW Hsize w'. subst w'. unfold updateClouds.
  destruct (forEach_updateCloud_drifted W H deltaTime (cloudsRef w) w)
    as (cs & rc & -> & Hall & Hrc).
  replace (cloudsRef (set_cloudsRef cs (set_randomCount rc w))) with cs
    by (destruct w; reflexivity).
  replace (randomCount (set_cloudsRef cs (set_randomCount rc w))) with rc
    by (destruct w; reflexivity).
  split; [exact Hall |].
  split; [symmetry; exact (Forall2_length Hall) |].
  split; [| split; [exact Hrc | destruct w; reflexivity]].
  clear Hrc. induction Hall as [| c c' l l' Hc Hl IHl]; [constructor |].
  pose proof (Forall_inv Hsize) as Hs.
  constructor; [| apply IHl; exact (Forall_inv_tail Hsize)].
  destruct Hc as (Es & _ & _ & [(Hx & Ex & _) | (Hx & Ex & _)]);
    rewrite Es, Ex; split; lra.
Qed.

Lemma X28_clouds_drift_and_wrap_witness :
  let w :=
    set_cloudsRef [Cloud.mk (-99) 80 50 20 0.3; Cloud.mk 300 120 40 10 0.4]
      (sample false 50 (sampleBird 100 300 0 0) [] []) in
  List.length (cloudsRef (updateClouds 800 600 0.1 w)) = 2%nat.
Proof.
  intros w.
  assert (HW : 0 <= 800) by lra.
  assert (Hsize : Forall (fun cloud => 0 <= Cloud.size cloud) (cloudsRef w))
    by (repeat (apply Forall_cons; [cbn; lra |]); apply Forall_nil).
  exact (proj1 (proj2 (X28_clouds_drift_and_wrap 800 600 0.1 w HW Hsize))).
Defined.
